(** * pytorch_fast_elmo.utils: character-id codec, batch assembly,
      length inference, sorting by length and the vocabulary cache.

    The Python functions of [pytorch_fast_elmo/utils.py] are embedded as
    Rocq functions.  Python [int] is [Z]; a Python list is a [list]; a
    [str] is the list of its Unicode code points; a [dict] is a [gmap];
    a call that can fail returns a [result]. *)

From stdpp Require Import base numbers option list sorting strings gmap.
From Stdlib Require Import ZArith Lia.

Local Open Scope Z_scope.

(** ** Failure *)

(** The exceptions the module can end with. *)
Inductive exn : Type :=
  | ValueError
  | AssertionError
  | IndexError
  | RuntimeError.

(** Where an exception comes from: a [raise] or [assert] statement written
    in [utils.py] itself, or the Python runtime / the torch and numpy
    libraries refusing an operation. *)
Inductive origin : Type :=
  | Statement
  | Library.

Inductive result (A : Type) : Type :=
  | Ok (a : A)
  | Err (o : origin) (e : exn).
Arguments Ok {A} a.
Arguments Err {A} o e.

#[global] Instance exn_eq_dec : EqDecision exn.
Proof. solve_decision. Defined.
#[global] Instance origin_eq_dec : EqDecision origin.
Proof. solve_decision. Defined.

#[global] Instance result_ret : MRet result := fun A a => Ok a.
#[global] Instance result_bind : MBind result := fun A B k r =>
  match r with
  | Ok a => k a
  | Err o e => Err o e
  end.
#[global] Instance result_fmap : FMap result := fun A B g r =>
  match r with
  | Ok a => Ok (g a)
  | Err o e => Err o e
  end.

(** [mapM]: run [g] on every element, left to right, stopping at the first
    failure (a [for] loop whose body can raise). *)
Fixpoint result_mapM {A B} (g : A -> result B) (l : list A) : result (list B) :=
  match l with
  | [] => Ok []
  | x :: l' => y ← g x; ys ← result_mapM g l'; Ok (y :: ys)
  end.

(** ** Python lists *)

(** [l[i] = v] on a Python list: a negative index counts from the end, an
    index outside the list raises [IndexError]. *)
Definition py_setitem {A} (l : list A) (i : Z) (v : A) : result (list A) :=
  let n := Z.of_nat (length l) in
  let j := if i <? 0 then i + n else i in
  if (0 <=? j) && (j <? n) then Ok (<[Z.to_nat j := v]> l)
  else Err Library IndexError.

(** [[x] * n]: empty when [n <= 0]. *)
Definition py_repeat {A} (x : A) (n : Z) : list A := replicate (Z.to_nat n) x.

(** ** ElmoCharacterIdsConst *)

Module ElmoCharacterIdsConst.
Definition MAX_WORD_LENGTH : Z := 50.
Definition BEGINNING_OF_SENTENCE_CHARACTER : Z := 256.
Definition END_OF_SENTENCE_CHARACTER : Z := 257.
Definition BEGINNING_OF_WORD_CHARACTER : Z := 258.
Definition END_OF_WORD_CHARACTER : Z := 259.
Definition PADDING_CHARACTER : Z := 260.
End ElmoCharacterIdsConst.
Import ElmoCharacterIdsConst.

(** ** make_padded_char_ids *)

(** The [for char_id in char_ids] loop: the state is [(padded, idx)]; the
    loop leaves at [idx >= max_word_length]. *)
Fixpoint fill_chars (char_ids : list Z) (max_word_length : Z)
    (padded : list Z) (idx : Z) : result (list Z * Z) :=
  match char_ids with
  | [] => Ok (padded, idx)
  | char_id :: rest =>
      if max_word_length <=? idx then Ok (padded, idx)
      else
        padded' ← py_setitem padded idx char_id;
        fill_chars rest max_word_length padded' (idx + 1)
  end.

Definition make_padded_char_ids (char_ids : list Z) (max_word_length : Z)
    (padding_character beginning_of_word_character end_of_word_character : Z)
    : result (list Z) :=
  let padded := py_repeat padding_character max_word_length in
  padded ← py_setitem padded 0 beginning_of_word_character;
  st ← fill_chars char_ids max_word_length padded 1;
  let idx := Z.min (snd st) (max_word_length - 1) in
  py_setitem (fst st) idx end_of_word_character.

(** The call with the default markers (each constant plus one). *)
Definition make_padded_char_ids_default (char_ids : list Z) (max_word_length : Z)
    : result (list Z) :=
  make_padded_char_ids char_ids max_word_length
    (PADDING_CHARACTER + 1) (BEGINNING_OF_WORD_CHARACTER + 1)
    (END_OF_WORD_CHARACTER + 1).

Definition make_bos (max_word_length : Z) : result (list Z) :=
  make_padded_char_ids_default [BEGINNING_OF_SENTENCE_CHARACTER + 1] max_word_length.

Definition make_eos (max_word_length : Z) : result (list Z) :=
  make_padded_char_ids_default [END_OF_SENTENCE_CHARACTER + 1] max_word_length.

(** ** Python strings and word_to_char_ids *)

(** A [str] is the sequence of its code points, each in [0, 0x10FFFF]. *)
Abbreviation pystr := (list Z) (only parsing).

(** A literal of ASCII characters. *)
Definition str (s : string) : pystr :=
  (fun a => Z.of_N (Ascii.N_of_ascii a)) <$> String.list_ascii_of_string s.

(** UTF-8 bytes of one code point.  A lone surrogate (0xD800-0xDFFF) has no
    encoding; under the ['ignore'] error handler it contributes nothing. *)
Definition utf8_encode_char (c : Z) : list Z :=
  if c <? 0x80 then [c]
  else if c <? 0x800 then
    [Z.lor 0xC0 (Z.shiftr c 6); Z.lor 0x80 (Z.land c 0x3F)]
  else if (0xD800 <=? c) && (c <=? 0xDFFF) then []
  else if c <? 0x10000 then
    [Z.lor 0xE0 (Z.shiftr c 12);
     Z.lor 0x80 (Z.land (Z.shiftr c 6) 0x3F);
     Z.lor 0x80 (Z.land c 0x3F)]
  else
    [Z.lor 0xF0 (Z.shiftr c 18);
     Z.lor 0x80 (Z.land (Z.shiftr c 12) 0x3F);
     Z.lor 0x80 (Z.land (Z.shiftr c 6) 0x3F);
     Z.lor 0x80 (Z.land c 0x3F)].

(** [word.encode('utf-8', 'ignore')] *)
Definition encode_utf8_ignore (word : pystr) : list Z :=
  word ≫= utf8_encode_char.

Definition word_to_char_ids (word : pystr) : list Z :=
  (fun char_id => char_id + 1) <$> encode_utf8_ignore word.

Definition _WORD_TO_CHAR_IDS_EXCEPTION : gmap pystr (Z -> result (list Z)) :=
  <[str "<S>"%string := make_bos]> (<[str "</S>"%string := make_eos]> ∅).

(** ** Tensors *)

(** A tensor of rank [n] as [n]-fold nested lists; the rank is part of the
    value, so that a tensor with an empty leading dimension keeps it. *)
Fixpoint nested (n : nat) : Type :=
  match n with
  | O => Z
  | S k => list (nested k)
  end.

Record Tensor : Type := mkTensor { dim : nat; items : nested dim }.

(** Sizes along each dimension, read off the first element of each level. *)
Fixpoint shape (n : nat) : nested n -> list nat :=
  match n return nested n -> list nat with
  | O => fun _ => []
  | S k => fun l =>
      length l :: match l with
                  | [] => replicate k O
                  | x :: _ => shape k x
                  end
  end.

(** [torch.stack(tensors)]: refuses an empty list and tensors of unequal
    shape. *)
Definition torch_stack {k} (tensors : list (nested k)) : result (nested (S k)) :=
  match tensors with
  | [] => Err Library RuntimeError
  | t :: rest =>
      if forallb (fun u => bool_decide (shape k u = shape k t)) rest
      then Ok tensors
      else Err Library RuntimeError
  end.

(** The entries of a [LongTensor] are 64-bit signed integers. *)
Definition int64_min : Z := -9223372036854775808.
Definition int64_max : Z := 9223372036854775807.

Definition in_int64 (v : Z) : Prop := int64_min <= v <= int64_max.

#[global] Instance in_int64_dec (v : Z) : Decision (in_int64 v) :=
  and_dec (Z.le_dec int64_min v) (Z.le_dec v int64_max).

(** How torch fills a matrix of the given width from a list of lists of
    ints: the rows are stored one after the other; a row of another length
    is refused ("expected sequence of length ..."), and so is an entry that
    does not fit a 64-bit signed integer ("Overflow when unpacking long"). *)
Fixpoint recursive_store (width : nat) (rows : list (list Z))
    : result (list (list Z)) :=
  match rows with
  | [] => Ok []
  | row :: rest =>
      if bool_decide (length row = width) then
        if bool_decide (Forall in_int64 row) then
          stored ← recursive_store width rest;
          Ok (row :: stored)
        else Err Library RuntimeError
      else Err Library ValueError
  end.

(** [torch.LongTensor(rows)] on a list of lists of ints: the width is read
    off the first row, then the rows are stored. *)
Definition long_tensor_2d (rows : list (list Z)) : result (list (list Z)) :=
  match rows with
  | [] => Ok []
  | r :: _ => recursive_store (length r) rows
  end.

Definition lookup_or_err {A} (l : list A) (i : nat) : result A :=
  match l !! i with
  | Some x => Ok x
  | None => Err Library IndexError
  end.

(** ** get_lengths_of_zero_padded_batch *)

(** [(x > 0).long()] on one entry. *)
Definition gt0_long (v : Z) : Z := if 0 <? v then 1 else 0.

(** [.sum(dim=-1)] on one innermost row. *)
Definition sum_last (row : list Z) : Z := foldr Z.add 0 row.

(** [(inputs > 0).long().sum(dim=-1)] on a matrix. *)
Definition count_positive_last (m : list (list Z)) : list Z :=
  (fun row => sum_last (gt0_long <$> row)) <$> m.

Definition get_lengths_of_zero_padded_batch (inputs : Tensor) : result (list Z) :=
  match inputs with
  | mkTensor n x =>
      match n return nested n -> result (list Z) with
      | 2%nat => fun x => Ok (count_positive_last x)
      | 3%nat => fun x => Ok (count_positive_last (count_positive_last <$> x))
      | _ => fun _ => Err Statement ValueError
      end x
  end.

(** ** generate_mask_from_lengths *)

(** [lengths.new_ones(batch_size, max_timesteps)]: a negative size is
    refused. *)
Definition new_ones (batch_size max_timesteps : Z) : result (list (list Z)) :=
  if (batch_size <? 0) || (max_timesteps <? 0) then Err Library RuntimeError
  else Ok (py_repeat (py_repeat 1 max_timesteps) batch_size).

Fixpoint cumsum_from (acc : Z) (row : list Z) : list Z :=
  match row with
  | [] => []
  | x :: row' => (acc + x) :: cumsum_from (acc + x) row'
  end.

(** [.cumsum(dim=-1)] on one row. *)
Definition cumsum (row : list Z) : list Z := cumsum_from 0 row.

Definition ge_long (a b : Z) : Z := if b <=? a then 1 else 0.

(** [(lengths.unsqueeze(1) >= range_tensor).long()]: a column of [L]
    entries against a matrix of [B] rows.  Broadcasting needs [L = B],
    [L = 1] or [B = 1]. *)
Definition unsqueeze_ge (lengths : list Z) (range_tensor : list (list Z))
    : result (list (list Z)) :=
  if bool_decide (length lengths = length range_tensor) then
    Ok (zip_with (fun l (row : list Z) => ge_long l <$> row) lengths range_tensor)
  else
    match lengths, range_tensor with
    | [l], _ => Ok ((fun row : list Z => ge_long l <$> row) <$> range_tensor)
    | _, [row] => Ok ((fun l => ge_long l <$> row) <$> lengths)
    | _, _ => Err Library RuntimeError
    end.

Definition generate_mask_from_lengths (batch_size max_timesteps : Z)
    (lengths : list Z) : result (list (list Z)) :=
  ones ← new_ones batch_size max_timesteps;
  let range_tensor := cumsum <$> ones in
  unsqueeze_ge lengths range_tensor.

(** ** build_vocab2id *)

(** [enumerate(l, start)] *)
Fixpoint py_enumerate {A} (start : Z) (l : list A) : list (Z * A) :=
  match l with
  | [] => []
  | x :: l' => (start, x) :: py_enumerate (start + 1) l'
  end.

(** The dict comprehension [{word: word_id for word_id, word in pairs}]: a
    later pair with the same word replaces the earlier one. *)
Definition dict_of_pairs (pairs : list (Z * pystr)) : gmap pystr Z :=
  foldl (fun d p => <[p.2 := p.1]> d) ∅ pairs.

Definition build_vocab2id (vocab : list pystr) : result (gmap pystr Z) :=
  if negb (3 <? Z.of_nat (length vocab)) then Err Statement AssertionError
  else if negb (bool_decide
                  (take 3 vocab
                   = [str "<S>"%string; str "</S>"%string; str "<UNK>"%string]))
  then Err Statement AssertionError
  else Ok (dict_of_pairs (py_enumerate 1 vocab)).

(** ** batch_to_char_ids and batch_to_word_ids *)

(** [batch[0]] *)
Definition py_first {A} (l : list A) : result A :=
  match l with
  | [] => Err Library IndexError
  | x :: _ => Ok x
  end.

(** The body of [for word in words]: the row of character ids of one
    token. *)
Definition token_char_ids (max_characters_per_token : Z) (word : pystr)
    : result (list Z) :=
  match _WORD_TO_CHAR_IDS_EXCEPTION !! word with
  | None => make_padded_char_ids_default (word_to_char_ids word) max_characters_per_token
  | Some special_gen => special_gen max_characters_per_token
  end.

(** The body of [for words in batch] in [batch_to_char_ids]: the rows of
    the tokens, all-zero rows up to [max_timesteps], stacked. *)
Definition char_ids_of_words (max_characters_per_token max_timesteps : Z)
    (words : list pystr) : result (list (list Z)) :=
  let zeros := py_repeat 0 max_characters_per_token in
  row ← result_mapM (token_char_ids max_characters_per_token) words;
  let row := row ++ py_repeat zeros (max_timesteps - Z.of_nat (length row)) in
  torch_stack (k := 1) row.

Definition batch_to_char_ids (batch : list (list pystr))
    (max_characters_per_token : Z) : result (list (list (list Z))) :=
  first ← py_first batch;
  let max_timesteps := Z.of_nat (length first) in
  rows ← result_mapM
            (char_ids_of_words max_characters_per_token max_timesteps) batch;
  torch_stack (k := 2) rows.

(** The body of [for words in batch] in [batch_to_word_ids]. *)
Definition word_ids_of_words (vocab2id : gmap pystr Z) (max_timesteps : Z)
    (words : list pystr) : list Z :=
  let row := (fun word => default 3 (vocab2id !! word)) <$> words in
  row ++ py_repeat 0 (max_timesteps - Z.of_nat (length row)).

Definition batch_to_word_ids (batch : list (list pystr))
    (vocab2id : gmap pystr Z) : result (list (list Z)) :=
  first ← py_first batch;
  let max_timesteps := Z.of_nat (length first) in
  let rows := word_ids_of_words vocab2id max_timesteps <$> batch in
  long_tensor_2d rows.

(** ** Packing and unpacking *)

Record PackedSequence (A : Type) : Type :=
  mkPacked { data : list A; batch_sizes : list nat }.
Arguments mkPacked {A} data batch_sizes.
Arguments data {A} p.
Arguments batch_sizes {A} p.

Fixpoint sorted_decreasing (lengths : list Z) : bool :=
  match lengths with
  | [] => true
  | a :: rest =>
      match rest with
      | [] => true
      | b :: _ => (b <=? a) && sorted_decreasing rest
      end
  end.

(** Number of sequences still running at timestep [t]. *)
Definition batch_size_at (lengths : list Z) (t : nat) : nat :=
  length (filter (fun l => Z.of_nat t < l) lengths).

(** [pack_padded_sequence(input, lengths, batch_first=True)]: the batch
    must be non-empty, have one length per sequence, every length positive
    and the lengths in decreasing order; timestep by timestep, the entries
    of the sequences that are still running. *)
Definition pack_padded_sequence {A} (input : list (list A)) (lengths : list Z)
    : result (PackedSequence A) :=
  if negb (bool_decide (length lengths = length input)) then Err Library RuntimeError
  else
    match lengths with
    | [] => Err Library RuntimeError
    | longest :: _ =>
        if negb (forallb (fun l => 0 <? l) lengths) then Err Library RuntimeError
        else if negb (sorted_decreasing lengths) then Err Library RuntimeError
        else
          let steps := seq 0 (Z.to_nat longest) in
          per_step ← result_mapM (fun t =>
                        result_mapM (fun row : list A => lookup_or_err row t)
                                    (take (batch_size_at lengths t) input)) steps;
          Ok (mkPacked (concat per_step) (batch_size_at lengths <$> steps))
    end.

Definition pack_inputs {k} (inputs : nested (S (S k)))
    : result (PackedSequence (nested k)) :=
  lengths ← get_lengths_of_zero_padded_batch (mkTensor (S (S k)) inputs);
  pack_padded_sequence inputs lengths.

(** Start of each timestep's block inside the packed data. *)
Fixpoint offsets_from (acc : nat) (sizes : list nat) : list nat :=
  match sizes with
  | [] => []
  | n :: rest => acc :: offsets_from (acc + n) rest
  end.

(** [pad_packed_sequence(sequence, batch_first=True)]: the dense
    [(batch, timesteps)] layout, [padding_value] where a sequence has
    ended, and the length of each sequence. *)
Definition pad_packed_sequence {A} (padding_value : A) (sequence : PackedSequence A)
    : result (list (list A) * list Z) :=
  let sizes := batch_sizes sequence in
  match sizes with
  | [] => Err Library RuntimeError
  | max_batch_size :: _ =>
      rows ← result_mapM (fun b =>
                result_mapM (fun p : nat * nat =>
                    if (b <? p.2)%nat then lookup_or_err (data sequence) (p.1 + b)
                    else Ok padding_value)
                  (zip (offsets_from 0 sizes) sizes))
              (seq 0 max_batch_size);
      let lengths := (fun b => Z.of_nat (length (filter (fun n => (b < n)%nat) sizes)))
                     <$> seq 0 max_batch_size in
      Ok (rows, lengths)
  end.

Definition unpack_outputs {A} (padding_value : A) (inputs : PackedSequence A)
    (skip_mask : bool) : result (list (list A) * option (list (list Z))) :=
  padded ← pad_packed_sequence padding_value inputs;
  let tensor := padded.1 in
  let lengths := padded.2 in
  if skip_mask then Ok (tensor, None)
  else
    mask ← generate_mask_from_lengths
              (Z.of_nat (length tensor))
              (Z.of_nat (match tensor with [] => O | r :: _ => length r end))
              lengths;
    Ok (tensor, Some mask).

(** ** sort_batch_by_length *)

(** Order on (value, position) pairs used by [Tensor.sort]. *)
Definition key_le (descending : bool) (p q : Z * nat) : Prop :=
  if descending then q.1 <= p.1 else p.1 <= q.1.

#[global] Instance key_le_dec descending p q : Decision (key_le descending p q).
Proof. unfold key_le. destruct descending; apply _. Defined.

(** [values.sort(0, descending)]: the sorted values and, for each, the
    position it came from. *)
Definition torch_sort (descending : bool) (values : list Z) : list Z * list nat :=
  let sorted := merge_sort (key_le descending)
                           (zip values (seq 0 (length values))) in
  (sorted.*1, sorted.*2).

(** [batch.index_select(0, index)] *)
Definition index_select0 (batch : Tensor) (index : list nat) : result Tensor :=
  match batch with
  | mkTensor n x =>
      match n return nested n -> result Tensor with
      | O => fun _ => Err Library IndexError
      | S k => fun x =>
          picked ← result_mapM (lookup_or_err x) index;
          Ok (mkTensor (S k) picked)
      end x
  end.

Definition sort_batch_by_length (batch : Tensor)
    : result (Tensor * list nat * list nat) :=
  lengths ← get_lengths_of_zero_padded_batch batch;
  let permutation_index := (torch_sort true lengths).2 in
  sorted_batch ← index_select0 batch permutation_index;
  let restoration_index := (torch_sort false (Z.of_nat <$> permutation_index)).2 in
  Ok (sorted_batch, permutation_index, restoration_index).

(** ** cache_char_cnn_vocab *)

(** [range(start, stop, step)] as the list of its values. *)
Definition py_range (start stop step : Z) : result (list Z) :=
  if step =? 0 then Err Library ValueError
  else
    let count := if 0 <? step then (stop - start + step - 1) / step
                 else (start - stop - step - 1) / (- step) in
    Ok ((fun k => start + Z.of_nat k * step) <$> seq 0 (Z.to_nat count)).

(** [l[a:b]]: negative bounds count from the end, bounds are clamped. *)
Definition py_slice {A} (l : list A) (a b : Z) : list A :=
  let n := Z.of_nat (length l) in
  let clamp i := if i <? 0 then Z.max (i + n) 0 else Z.min i n in
  take (Z.to_nat (clamp b - clamp a)) (drop (Z.to_nat (clamp a)) l).

(** [max(xs)]: refuses an empty sequence. *)
Definition py_max (xs : list Z) : result Z :=
  match xs with
  | [] => Err Library ValueError
  | x :: rest => Ok (foldl Z.max x rest)
  end.

(** [tensor.squeeze(0)] on the unpacked outputs.  The batch handed to the
    encoder has one sequence, so the dense tensor has one row and
    [squeeze] returns it.  On any other batch size [squeeze] would leave a
    rank-3 tensor, which is not a matrix of rows; that case does not occur
    in this pipeline and is reported as a failure. *)
Definition squeeze0 {A} (tensor : list (list A)) : result (list A) :=
  match tensor with
  | [row] => Ok row
  | _ => Err Library RuntimeError
  end.

(** [torch.cat(tensors, dim=0)]: refuses an empty list. *)
Definition torch_cat {A} (tensors : list (list A)) : result (list A) :=
  match tensors with
  | [] => Err Library RuntimeError
  | _ => Ok (concat tensors)
  end.

Section Encoder.
(** The character encoder is external: [char_cnn] maps each padded row of
    character ids to a vector of type [V]; [vzero] is the zero vector
    that fills padded positions. *)
Variable V : Type.
Variable char_cnn_row : list Z -> V.
Variable vzero : V.

Definition char_cnn (rows : list (list Z)) : list V := char_cnn_row <$> rows.

(** [filters] is the restorer's list of (kernel size, channels). *)
Definition get_bos_eos_token_repr (filters : list (Z * Z)) : result (V * V) :=
  widest ← py_max (filters.*1);
  let max_characters_per_token := widest + 3 in
  bos_ids ← make_bos max_characters_per_token;
  eos_ids ← make_eos max_characters_per_token;
  bos_eos ← long_tensor_2d [bos_ids; eos_ids];
  let bos_eos_reprs := char_cnn bos_eos in
  bos_repr ← lookup_or_err bos_eos_reprs 0;
  eos_repr ← lookup_or_err bos_eos_reprs 1;
  Ok (bos_repr, eos_repr).

(** The body of [for batch_start in range(...)]. *)
Definition encode_chunk (vocab : list pystr) (max_characters_per_token : Z)
    (batch_size : Z) (batch_start : Z) : result (list V) :=
  let batch := py_slice vocab batch_start (batch_start + batch_size) in
  char_ids ← batch_to_char_ids [batch] max_characters_per_token;
  inputs ← pack_inputs (k := 1) char_ids;
  let output_data := char_cnn (data inputs) in
  unpacked ← unpack_outputs vzero (mkPacked output_data (batch_sizes inputs)) true;
  squeeze0 unpacked.1.

(** The embedding matrix that is written to the [embedding] dataset. *)
Definition cache_char_cnn_vocab (vocab : list pystr) (filters : list (Z * Z))
    (max_characters_per_token : Z) (batch_size : Z) : result (list V) :=
  starts ← py_range 0 (Z.of_nat (length vocab)) batch_size;
  cached ← result_mapM
              (encode_chunk vocab max_characters_per_token batch_size) starts;
  combined ← torch_cat cached;
  reprs ← get_bos_eos_token_repr filters;
  weight ← py_setitem combined 0 reprs.1;
  py_setitem weight 1 reprs.2.
End Encoder.

(** ** load_vocab *)

Section LoadVocab.
(** [isspace] is the interpreter's table of whitespace characters, the ones
    [str.strip()] removes; the file is given as the lines its iterator
    yields. *)
Variable isspace : Z -> bool.

(** [s.lstrip()] *)
Fixpoint py_lstrip (s : pystr) : pystr :=
  match s with
  | [] => []
  | c :: s' => if isspace c then py_lstrip s' else s
  end.

(** [s.strip()]: whitespace is removed from both ends. *)
Definition py_strip (s : pystr) : pystr :=
  reverse (py_lstrip (reverse (py_lstrip s))).

(** The [for line in fin] loop; [vocab] is the list built so far. *)
Fixpoint load_vocab_loop (lines : list pystr) (vocab : list pystr) : list pystr :=
  match lines with
  | [] => vocab
  | line :: rest =>
      let word := py_strip line in
      load_vocab_loop rest
        (match word with
         | [] => vocab
         | _ :: _ => vocab ++ [word]
         end)
  end.

Definition load_vocab (lines : list pystr) : list pystr := load_vocab_loop lines [].

Definition load_and_build_vocab2id (lines : list pystr) : result (gmap pystr Z) :=
  build_vocab2id (load_vocab lines).
End LoadVocab.

(** ** Reading the outcome of a call *)

(** [raises_only allowed r]: if [r] ends with an exception that comes from
    a [raise] or [assert] statement of the module, it is one of
    [allowed]. *)
Definition raises_only {A} (allowed : list exn) (r : result A) : Prop :=
  forall e, r = Err Statement e -> e ∈ allowed.

(** Number of entries above zero in a row. *)
Definition positive_count (row : list Z) : Z :=
  Z.of_nat (length (filter (fun v => 0 < v) row)).

(** Number of timesteps that hold an entry above zero. *)
Definition nonzero_steps (steps : list (list Z)) : Z :=
  Z.of_nat (length (filter (fun step : list Z => Exists (fun v => 0 < v) step) steps)).

(** What [build_vocab2id] asserts about the vocabulary list. *)
Definition vocab_contract (vocab : list (list Z)) : Prop :=
  (3 < length vocab)%nat
  /\ take 3 vocab = [str "<S>"%string; str "</S>"%string; str "<UNK>"%string].

(** [sort_batch_by_length] succeeds on [batch], selecting the sorted batch
    by the restoration index gives [batch] back, and the two indices are
    inverse to each other. *)
Definition restores_original (batch : Tensor) : Prop :=
  exists (sorted_batch : Tensor) (permutation_index restoration_index : list nat),
    sort_batch_by_length batch = Ok (sorted_batch, permutation_index, restoration_index)
    /\ dim sorted_batch = dim batch
    /\ index_select0 sorted_batch restoration_index = Ok batch
    /\ (forall i j : nat,
          permutation_index !! i = Some j <-> restoration_index !! j = Some i).

(** The row [token_char_ids] returns for a word, as a total function (the
    empty row stands for a failed call). *)
Definition token_row (max_characters_per_token : Z) (word : list Z) : list Z :=
  match token_char_ids max_characters_per_token word with
  | Ok row => row
  | Err _ _ => []
  end.

(** The vocabulary slices the loop of [cache_char_cnn_vocab] works on. *)
Definition vocab_chunks (vocab : list (list Z)) (batch_size : Z) (starts : list Z)
    : list (list (list Z)) :=
  (fun batch_start => py_slice vocab batch_start (batch_start + batch_size)) <$> starts.

(** * Properties *)

(** ** The error monad *)

Lemma result_bind_Ok {A B} (a : A) (k : A -> result B) : Ok a ≫= k = k a.
Proof. reflexivity. Qed.

Lemma result_bind_ok {A B} (r : result A) (k : A -> result B) (b : B) :
  r ≫= k = Ok b -> exists a, r = Ok a /\ k a = Ok b.
Proof. destruct r as [a|o e]; simpl; [eauto | discriminate]. Qed.

Lemma result_mapM_ok {A B} (g : A -> result B) (h : A -> B) (l : list A) :
  (forall x, x ∈ l -> g x = Ok (h x)) -> result_mapM g l = Ok (h <$> l).
Proof.
  induction l as [|x l IH]; intros Hg; simpl; [done|].
  rewrite Hg by left. simpl. rewrite IH; [done|].
  intros y Hy. apply Hg. by right.
Qed.

Lemma result_mapM_length {A B} (g : A -> result B) (l : list A) (ys : list B) :
  result_mapM g l = Ok ys -> length ys = length l.
Proof.
  revert ys. induction l as [|x l IH]; intros ys; simpl.
  - intros [= <-]. done.
  - destruct (g x) as [y|]; simpl; [|discriminate].
    destruct (result_mapM g l) as [ys'|]; simpl; [|discriminate].
    intros [= <-]. simpl. f_equal. by apply IH.
Qed.

Lemma result_mapM_lookup {A B} (g : A -> result B) (l : list A) (ys : list B)
    (i : nat) (x : A) :
  result_mapM g l = Ok ys -> l !! i = Some x ->
  exists y, ys !! i = Some y /\ g x = Ok y.
Proof.
  revert ys i. induction l as [|x0 l IH]; intros ys i; simpl; [done|].
  destruct (g x0) as [y0|] eqn:E0; simpl; [|discriminate].
  destruct (result_mapM g l) as [ys'|]; simpl; [|discriminate].
  intros [= <-]. destruct i as [|i]; simpl.
  - intros [= <-]. eauto.
  - intros Hi. by apply IH.
Qed.

(** ** make_padded_char_ids *)

Lemma py_setitem_nat {A} (l : list A) (i : nat) (v : A) :
  (i < length l)%nat -> py_setitem l (Z.of_nat i) v = Ok (<[i := v]> l).
Proof.
  intros Hi. unfold py_setitem.
  destruct (Z.ltb_spec (Z.of_nat i) 0); [lia|].
  destruct (Z.leb_spec 0 (Z.of_nat i)); [|lia].
  destruct (Z.ltb_spec (Z.of_nat i) (Z.of_nat (length l))); [|lia].
  cbn [andb]. by rewrite Nat2Z.id.
Qed.

Lemma py_setitem_middle {A} (pre suf : list A) (old v : A) :
  py_setitem (pre ++ old :: suf) (Z.of_nat (length pre)) v = Ok (pre ++ v :: suf).
Proof.
  rewrite py_setitem_nat by (rewrite length_app; simpl; lia).
  f_equal. rewrite insert_app_r_alt by lia. by rewrite Nat.sub_diag.
Qed.

(** The loop copies as many ids as there are free slots and leaves [idx]
    behind the last one written. *)
Lemma fill_chars_spec (char_ids : list Z) :
  forall pre suf : list Z,
    fill_chars char_ids (Z.of_nat (length pre + length suf)) (pre ++ suf)
               (Z.of_nat (length pre))
    = Ok (pre ++ take (length suf) char_ids ++ drop (length char_ids) suf,
          Z.of_nat (length pre + Nat.min (length char_ids) (length suf))).
Proof.
  induction char_ids as [|c cs IH]; intros pre suf; simpl.
  - rewrite take_nil, Nat.add_0_r. done.
  - destruct (Z.leb_spec (Z.of_nat (length pre + length suf))
                         (Z.of_nat (length pre))) as [Hfull|Hfree].
    + assert (suf = []) as -> by (destruct suf; [done|simpl in Hfull; lia]).
      simpl. rewrite Nat.add_0_r. done.
    + destruct suf as [|s suf]; [simpl in Hfree; lia|].
      rewrite py_setitem_middle. simpl.
      specialize (IH (pre ++ [c]) suf).
      rewrite length_app in IH. simpl in IH.
      replace (length pre + 1 + length suf)%nat
        with (length pre + S (length suf))%nat in IH by lia.
      rewrite <- (assoc_L (++) pre [c] suf) in IH. simpl in IH.
      replace (Z.of_nat (length pre + 1)) with (Z.of_nat (length pre) + 1) in IH by lia.
      rewrite IH. f_equal. f_equal.
      * by rewrite <- (assoc_L (++) pre [c]).
      * lia.
Qed.

(** Closed form of the result for a positive width: the row before the
    end-of-word marker is written, and the slot it is written to. *)
Lemma make_padded_char_ids_eq (char_ids : list Z) (max_word_length pad bow eow : Z) :
  1 <= max_word_length ->
  let m := Z.to_nat (max_word_length - 1) in
  make_padded_char_ids char_ids max_word_length pad bow eow
  = Ok (<[Nat.min (S (length char_ids)) m := eow]>
          (bow :: take m char_ids ++ replicate (m - length char_ids) pad)).
Proof.
  intros Hpos m. unfold make_padded_char_ids, py_repeat.
  replace (Z.to_nat max_word_length) with (S m) by lia.
  change (py_setitem (replicate (S m) pad) 0 bow)
    with (py_setitem (replicate (S m) pad) (Z.of_nat 0) bow).
  rewrite (py_setitem_nat (replicate (S m) pad) 0 bow)
    by (rewrite length_replicate; lia).
  rewrite result_bind_Ok. cbn [replicate insert list_insert].
  pose proof (fill_chars_spec char_ids [bow] (replicate m pad)) as Hfill.
  rewrite length_replicate, drop_replicate in Hfill.
  cbn [length app] in Hfill.
  replace (Z.of_nat (1 + m)) with max_word_length in Hfill by lia.
  change (Z.of_nat 1) with 1 in Hfill.
  rewrite Hfill, result_bind_Ok. cbn [fst snd].
  set (row := bow :: take m char_ids ++ replicate (m - length char_ids) pad).
  assert (length row = S m) as Hlen.
  { unfold row. cbn [length].
    rewrite length_app, length_take, length_replicate. lia. }
  replace (Z.min (Z.of_nat (1 + Nat.min (length char_ids) m)) (max_word_length - 1))
    with (Z.of_nat (Nat.min (S (length char_ids)) m)) by lia.
  apply py_setitem_nat. lia.
Qed.

Lemma make_padded_char_ids_nonpositive (char_ids : list Z)
    (max_word_length pad bow eow : Z) :
  max_word_length <= 0 ->
  make_padded_char_ids char_ids max_word_length pad bow eow = Err Library IndexError.
Proof.
  intros Hle. unfold make_padded_char_ids, py_repeat.
  replace (Z.to_nat max_word_length) with O by lia. done.
Qed.

Lemma lookup_cons_S {A} (x : A) (l : list A) (i : nat) :
  (x :: l) !! S i = l !! i.
Proof. reflexivity. Qed.

Lemma insert_cons_S {A} (x v : A) (l : list A) (i : nat) :
  <[S i := v]> (x :: l) = x :: <[i := v]> l.
Proof. reflexivity. Qed.

(** A sequence that leaves room for both markers is copied whole. *)
Lemma make_padded_char_ids_fits (char_ids : list Z) (max_word_length pad bow eow : Z) :
  Z.of_nat (length char_ids) <= max_word_length - 2 ->
  make_padded_char_ids char_ids max_word_length pad bow eow
  = Ok (bow :: char_ids
          ++ eow :: replicate (Z.to_nat (max_word_length - 2) - length char_ids) pad).
Proof.
  intros Hfit. rewrite make_padded_char_ids_eq by lia. f_equal.
  set (m := Z.to_nat (max_word_length - 1)).
  set (k := (Z.to_nat (max_word_length - 2) - length char_ids)%nat).
  replace (m - length char_ids)%nat with (S k) by lia.
  replace (Nat.min (S (length char_ids)) m) with (S (length char_ids)) by lia.
  rewrite take_ge by lia. rewrite insert_cons_S. f_equal.
  cbn [replicate].
  rewrite insert_app_r_alt by lia. by rewrite Nat.sub_diag.
Qed.

(** A longer sequence loses its tail: the marker takes the last slot. *)
Lemma make_padded_char_ids_overflow (char_ids : list Z)
    (max_word_length pad bow eow : Z) :
  2 <= max_word_length ->
  max_word_length - 1 <= Z.of_nat (length char_ids) ->
  make_padded_char_ids char_ids max_word_length pad bow eow
  = Ok (bow :: take (Z.to_nat (max_word_length - 2)) char_ids ++ [eow]).
Proof.
  intros Hw Hlong. rewrite make_padded_char_ids_eq by lia. f_equal.
  set (k := Z.to_nat (max_word_length - 2)).
  replace (Z.to_nat (max_word_length - 1)) with (S k) by lia.
  replace (S k - length char_ids)%nat with O by lia.
  replace (Nat.min (S (length char_ids)) (S k)) with (S k) by lia.
  destruct (lookup_lt_is_Some_2 char_ids k) as [x Hx]; [lia|].
  rewrite (take_S_r _ _ _ Hx). rewrite insert_cons_S. f_equal.
  cbn [replicate]. rewrite app_nil_r.
  rewrite insert_app_r_alt by (rewrite length_take; lia).
  rewrite length_take. by replace (k - Nat.min k (length char_ids))%nat with O by lia.
Qed.

(** Width one: the only slot ends up holding the end-of-word marker. *)
Lemma make_padded_char_ids_width_one (char_ids : list Z) (pad bow eow : Z) :
  make_padded_char_ids char_ids 1 pad bow eow = Ok [eow].
Proof. by rewrite make_padded_char_ids_eq by lia. Qed.

Lemma make_padded_char_ids_length (char_ids : list Z)
    (max_word_length pad bow eow : Z) (padded : list Z) :
  make_padded_char_ids char_ids max_word_length pad bow eow = Ok padded ->
  Z.of_nat (length padded) = max_word_length.
Proof.
  destruct (Z.le_gt_cases max_word_length 0) as [Hle|Hpos].
  - by rewrite make_padded_char_ids_nonpositive.
  - rewrite make_padded_char_ids_eq by lia. intros [= <-].
    rewrite length_insert. cbn [length].
    rewrite length_app, length_take, length_replicate. lia.
Qed.

(** C2: for every word whose UTF-8 encoding fits in [max_word_length - 2]
    bytes, the padded row built from [word_to_char_ids] has the
    beginning-of-word marker at index 0, each byte plus one at indices
    1..len, the end-of-word marker at index len+1 and the padding marker at
    every remaining index. *)
Theorem C2_padded_word_layout (w : list Z) (max_word_length : Z) :
  Z.of_nat (length (encode_utf8_ignore w)) <= max_word_length - 2 ->
  exists padded : list Z,
    make_padded_char_ids_default (word_to_char_ids w) max_word_length = Ok padded
    /\ Z.of_nat (length padded) = max_word_length
    /\ padded !! O = Some (BEGINNING_OF_WORD_CHARACTER + 1)
    /\ (forall (i : nat) (b : Z),
          encode_utf8_ignore w !! i = Some b -> padded !! S i = Some (b + 1))
    /\ padded !! S (length (encode_utf8_ignore w)) = Some (END_OF_WORD_CHARACTER + 1)
    /\ (forall j : nat,
          (S (length (encode_utf8_ignore w)) < j)%nat ->
          Z.of_nat j < max_word_length ->
          padded !! j = Some (PADDING_CHARACTER + 1)).
Proof.
  intros Hfit. unfold make_padded_char_ids_default, word_to_char_ids.
  set (bytes := encode_utf8_ignore w) in *.
  set (ids := (fun char_id => char_id + 1) <$> bytes).
  assert (length ids = length bytes) as Hids by apply length_fmap.
  rewrite make_padded_char_ids_fits by (rewrite Hids; lia).
  eexists. split; [reflexivity|]. rewrite Hids.
  set (k := (Z.to_nat (max_word_length - 2) - length bytes)%nat).
  repeat split.
  - cbn [length]. rewrite length_app. cbn [length].
    rewrite length_replicate, Hids. lia.
  - intros i b Hb. rewrite lookup_cons_S.
    rewrite lookup_app_l by (rewrite Hids; by eapply lookup_lt_Some).
    unfold ids. by rewrite list_lookup_fmap, Hb.
  - rewrite lookup_cons_S. rewrite lookup_app_r by lia.
    by rewrite Hids, Nat.sub_diag.
  - intros j Hj Hlt. destruct j as [|j]; [lia|]. rewrite lookup_cons_S.
    rewrite lookup_app_r by lia. rewrite Hids.
    destruct (j - length bytes)%nat as [|d] eqn:Hd; [lia|].
    rewrite lookup_cons_S. apply lookup_replicate_2. lia.
Qed.

Lemma C2_padded_word_layout_witness :
  Z.of_nat (length (encode_utf8_ignore (str "cat"))) <= 50 - 2
  /\ exists padded : list Z,
       make_padded_char_ids_default (word_to_char_ids (str "cat")) 50 = Ok padded
       /\ Z.of_nat (length padded) = 50
       /\ padded !! O = Some (BEGINNING_OF_WORD_CHARACTER + 1)
       /\ (forall (i : nat) (b : Z),
             encode_utf8_ignore (str "cat") !! i = Some b ->
             padded !! S i = Some (b + 1))
       /\ padded !! S (length (encode_utf8_ignore (str "cat")))
          = Some (END_OF_WORD_CHARACTER + 1)
       /\ (forall j : nat,
             (S (length (encode_utf8_ignore (str "cat"))) < j)%nat ->
             Z.of_nat j < 50 ->
             padded !! j = Some (PADDING_CHARACTER + 1)).
Proof.
  split; [vm_compute; discriminate|].
  apply (C2_padded_word_layout (str "cat") 50). vm_compute. discriminate.
Defined.

(** C7 (amended): for every width of at least one and every input
    sequence, also the empty one and one longer than the width,
    [make_padded_char_ids] returns exactly [max_word_length] integers; when
    the input has at least [max_word_length - 1] entries, the end-of-word
    marker is in the last slot, the ids before it are the input's first
    ones, and nothing is signalled. *)
Theorem C7_padded_length_and_truncation (char_ids : list Z)
    (max_word_length pad bow eow : Z) :
  1 <= max_word_length ->
  exists padded : list Z,
    make_padded_char_ids char_ids max_word_length pad bow eow = Ok padded
    /\ Z.of_nat (length padded) = max_word_length
    /\ (max_word_length - 1 <= Z.of_nat (length char_ids) ->
        padded !! Z.to_nat (max_word_length - 1) = Some eow
        /\ (2 <= max_word_length -> padded !! O = Some bow)
        /\ (forall i : nat,
              Z.of_nat i < max_word_length - 2 ->
              padded !! S i = char_ids !! i)).
Proof.
  intros Hpos.
  destruct (make_padded_char_ids char_ids max_word_length pad bow eow)
    as [padded|o e] eqn:Hrun.
  2: { rewrite make_padded_char_ids_eq in Hrun by lia. discriminate. }
  exists padded. split; [done|]. split.
  { by eapply make_padded_char_ids_length. }
  intros Hlong.
  destruct (Z.eq_dec max_word_length 1) as [->|Hne].
  - rewrite make_padded_char_ids_width_one in Hrun. injection Hrun as <-.
    repeat split; [lia|lia].
  - rewrite make_padded_char_ids_overflow in Hrun by lia. injection Hrun as <-.
    set (k := Z.to_nat (max_word_length - 2)).
    assert (length (take k char_ids) = k) as Htake by (rewrite length_take; lia).
    replace (Z.to_nat (max_word_length - 1)) with (S k) by lia.
    repeat split.
    + rewrite lookup_cons_S. rewrite lookup_app_r by lia.
      by rewrite Htake, Nat.sub_diag.
    + intros i Hi. rewrite lookup_cons_S.
      rewrite lookup_app_l by lia. apply lookup_take_lt. lia.
Qed.

Lemma C7_padded_length_and_truncation_witness :
  1 <= 4
  /\ exists padded : list Z,
       make_padded_char_ids [10; 11; 12; 13; 14] 4 261 259 260 = Ok padded
       /\ Z.of_nat (length padded) = 4
       /\ (4 - 1 <= Z.of_nat (length [10; 11; 12; 13; 14]) ->
           padded !! Z.to_nat (4 - 1) = Some 260
           /\ (2 <= 4 -> padded !! O = Some 259)
           /\ (forall i : nat,
                 Z.of_nat i < 4 - 2 ->
                 padded !! S i = [10; 11; 12; 13; 14] !! i)).
Proof.
  split; [lia|].
  apply (C7_padded_length_and_truncation [10; 11; 12; 13; 14] 4 261 259 260). lia.
Defined.

(** C7, as stated, fails at width zero: the first assignment is outside
    the empty list and the call ends with an [IndexError] instead of
    returning a sequence of zero integers. *)
Lemma C7_width_zero_counterexample :
  ~ exists padded : list Z,
      make_padded_char_ids_default [] 0 = Ok padded
      /\ Z.of_nat (length padded) = 0.
Proof. intros (padded & Hrun & _). vm_compute in Hrun. discriminate. Qed.

(** C10: with [max_word_length = 1] the result is the single end-of-word
    marker for every input; the assignment of that marker replaces the
    beginning-of-word marker written to index 0, so the row holds no
    beginning-of-word marker. *)
Theorem C10_width_one_only_end_marker (char_ids : list Z) :
  exists padded : list Z,
    make_padded_char_ids_default char_ids 1 = Ok padded
    /\ padded = [END_OF_WORD_CHARACTER + 1]
    /\ padded !! O <> Some (BEGINNING_OF_WORD_CHARACTER + 1)
    /\ BEGINNING_OF_WORD_CHARACTER + 1 ∉ padded.
Proof.
  exists [END_OF_WORD_CHARACTER + 1]. split.
  { apply make_padded_char_ids_width_one. }
  split; [done|]. split.
  - intros H. vm_compute in H. discriminate.
  - intros Hin. apply list_elem_of_singleton in Hin. vm_compute in Hin. discriminate.
Qed.

(** ** Which exceptions a call can raise by itself *)

Lemma raises_only_Ok {A} (allowed : list exn) (a : A) : raises_only allowed (Ok a).
Proof. intros e. discriminate. Qed.

Lemma raises_only_Library {A} (allowed : list exn) (e : exn) :
  raises_only (A := A) allowed (Err Library e).
Proof. intros e'. discriminate. Qed.

Lemma raises_only_bind {A B} (allowed : list exn) (r : result A) (k : A -> result B) :
  raises_only allowed r -> (forall a, raises_only allowed (k a)) ->
  raises_only allowed (r ≫= k).
Proof.
  intros Hr Hk. destruct r as [a|o e]; [apply Hk|].
  intros e' He'. apply Hr. injection He' as -> ->. reflexivity.
Qed.

Lemma raises_only_mapM {A B} (allowed : list exn) (g : A -> result B) (l : list A) :
  (forall x, raises_only allowed (g x)) -> raises_only allowed (result_mapM g l).
Proof.
  intros Hg. induction l as [|x l IH]; simpl; [apply raises_only_Ok|].
  apply raises_only_bind; [apply Hg|]. intros y.
  apply raises_only_bind; [apply IH|]. intros ys. apply raises_only_Ok.
Qed.

Lemma raises_only_weaken {A} (s1 s2 : list exn) (r : result A) :
  s1 ⊆ s2 -> raises_only s1 r -> raises_only s2 r.
Proof. intros Hsub Hr e He. apply Hsub, Hr, He. Qed.

Lemma raises_only_py_setitem {A} (l : list A) (i : Z) (v : A) :
  raises_only [] (py_setitem l i v).
Proof.
  unfold py_setitem.
  destruct (_ && _); [apply raises_only_Ok | apply raises_only_Library].
Qed.

Lemma raises_only_lookup_or_err {A} (l : list A) (i : nat) :
  raises_only [] (lookup_or_err l i).
Proof.
  unfold lookup_or_err.
  destruct (l !! i); [apply raises_only_Ok | apply raises_only_Library].
Qed.

Lemma raises_only_fill_chars (char_ids : list Z) (w : Z) :
  forall padded idx, raises_only [] (fill_chars char_ids w padded idx).
Proof.
  induction char_ids as [|c cs IH]; intros padded idx; simpl.
  - apply raises_only_Ok.
  - destruct (w <=? idx); [apply raises_only_Ok|].
    apply raises_only_bind; [apply raises_only_py_setitem|]. intros p. apply IH.
Qed.

Lemma raises_only_make_padded_char_ids (char_ids : list Z) (w pad bow eow : Z) :
  raises_only [] (make_padded_char_ids char_ids w pad bow eow).
Proof.
  unfold make_padded_char_ids.
  apply raises_only_bind; [apply raises_only_py_setitem|]. intros p.
  apply raises_only_bind; [apply raises_only_fill_chars|]. intros st.
  apply raises_only_py_setitem.
Qed.

Lemma raises_only_torch_stack {k} (tensors : list (nested k)) :
  raises_only [] (torch_stack tensors).
Proof.
  unfold torch_stack. destruct tensors as [|t rest]; [apply raises_only_Library|].
  destruct (forallb _ rest); [apply raises_only_Ok | apply raises_only_Library].
Qed.

Lemma raises_only_recursive_store (width : nat) (rows : list (list Z)) :
  raises_only [] (recursive_store width rows).
Proof.
  induction rows as [|row rest IH]; cbn [recursive_store]; [apply raises_only_Ok|].
  destruct (bool_decide (length row = width)); [|apply raises_only_Library].
  destruct (bool_decide (Forall in_int64 row)); [|apply raises_only_Library].
  apply raises_only_bind; [exact IH|]. intros stored. apply raises_only_Ok.
Qed.

Lemma raises_only_long_tensor_2d (rows : list (list Z)) :
  raises_only [] (long_tensor_2d rows).
Proof.
  unfold long_tensor_2d. destruct rows as [|r rest]; [apply raises_only_Ok|].
  apply raises_only_recursive_store.
Qed.

Lemma raises_only_py_first {A} (l : list A) : raises_only [] (py_first l).
Proof. destruct l; [apply raises_only_Library | apply raises_only_Ok]. Qed.

Lemma raises_only_token_char_ids (w : Z) (word : list Z) :
  raises_only [] (token_char_ids w word).
Proof.
  unfold token_char_ids.
  destruct (_WORD_TO_CHAR_IDS_EXCEPTION !! word) as [gen|] eqn:Hgen.
  - unfold _WORD_TO_CHAR_IDS_EXCEPTION in Hgen.
    apply lookup_insert_Some in Hgen as [[_ <-]|[_ Hgen]].
    { apply raises_only_make_padded_char_ids. }
    apply lookup_insert_Some in Hgen as [[_ <-]|[_ Hgen]].
    { apply raises_only_make_padded_char_ids. }
    by rewrite lookup_empty in Hgen.
  - apply raises_only_make_padded_char_ids.
Qed.

Lemma raises_only_batch_to_char_ids (batch : list (list (list Z))) (w : Z) :
  raises_only [] (batch_to_char_ids batch w).
Proof.
  unfold batch_to_char_ids.
  apply raises_only_bind; [apply raises_only_py_first|]. intros first.
  apply raises_only_bind; [|intros rows; exact (raises_only_torch_stack (k := 2) rows)].
  apply raises_only_mapM. intros words. unfold char_ids_of_words.
  apply raises_only_bind; [|intros row; exact (raises_only_torch_stack (k := 1) _)].
  apply raises_only_mapM. intros word. apply raises_only_token_char_ids.
Qed.

Lemma raises_only_batch_to_word_ids (batch : list (list (list Z)))
    (vocab2id : gmap (list Z) Z) :
  raises_only [] (batch_to_word_ids batch vocab2id).
Proof.
  unfold batch_to_word_ids.
  apply raises_only_bind; [apply raises_only_py_first|]. intros first.
  apply raises_only_long_tensor_2d.
Qed.

Lemma raises_only_generate_mask_from_lengths (b t : Z) (lengths : list Z) :
  raises_only [] (generate_mask_from_lengths b t lengths).
Proof.
  unfold generate_mask_from_lengths.
  apply raises_only_bind.
  { unfold new_ones. destruct (_ || _); [apply raises_only_Library | apply raises_only_Ok]. }
  intros ones. unfold unsqueeze_ge.
  destruct (bool_decide _); [apply raises_only_Ok|].
  destruct lengths as [|l [|l' ls]], (cumsum <$> ones) as [|row [|row' rows]];
    first [apply raises_only_Ok | apply raises_only_Library].
Qed.

Lemma raises_only_get_lengths (inputs : Tensor) :
  raises_only [ValueError] (get_lengths_of_zero_padded_batch inputs).
Proof.
  destruct inputs as [[|[|[|[|n]]]] x]; simpl;
    first [apply raises_only_Ok | intros e [= <-]; by left].
Qed.

Lemma raises_only_build_vocab2id (vocab : list (list Z)) :
  raises_only [AssertionError] (build_vocab2id vocab).
Proof.
  unfold build_vocab2id.
  destruct (negb _); [intros e [= <-]; by left|].
  destruct (negb _); [intros e [= <-]; by left|]. apply raises_only_Ok.
Qed.

Lemma raises_only_pack_padded_sequence {A} (input : list (list A)) (lengths : list Z) :
  raises_only [] (pack_padded_sequence input lengths).
Proof.
  unfold pack_padded_sequence.
  destruct (negb (bool_decide _)); [apply raises_only_Library|].
  destruct lengths as [|longest rest]; [apply raises_only_Library|].
  destruct (negb (forallb _ _)); [apply raises_only_Library|].
  destruct (negb (sorted_decreasing _)); [apply raises_only_Library|].
  apply raises_only_bind; [|intros per_step; apply raises_only_Ok].
  apply raises_only_mapM. intros t. apply raises_only_mapM. intros row.
  apply raises_only_lookup_or_err.
Qed.

Lemma raises_only_pack_inputs {k} (inputs : nested (S (S k))) :
  raises_only [ValueError] (pack_inputs inputs).
Proof.
  unfold pack_inputs. apply raises_only_bind; [apply raises_only_get_lengths|].
  intros lengths. eapply raises_only_weaken; [|apply raises_only_pack_padded_sequence].
  intros e He. by apply elem_of_nil in He.
Qed.

Lemma raises_only_pad_packed_sequence {A} (pad : A) (sequence : PackedSequence A) :
  raises_only [] (pad_packed_sequence pad sequence).
Proof.
  unfold pad_packed_sequence.
  destruct (batch_sizes sequence) as [|b0 sizes]; [apply raises_only_Library|].
  apply raises_only_bind; [|intros rows; apply raises_only_Ok].
  apply raises_only_mapM. intros b. apply raises_only_mapM. intros p.
  destruct (_ <? _)%nat; [apply raises_only_lookup_or_err | apply raises_only_Ok].
Qed.

Lemma raises_only_unpack_outputs {A} (pad : A) (inputs : PackedSequence A)
    (skip_mask : bool) :
  raises_only [] (unpack_outputs pad inputs skip_mask).
Proof.
  unfold unpack_outputs.
  apply raises_only_bind; [apply raises_only_pad_packed_sequence|]. intros padded.
  destruct skip_mask; [apply raises_only_Ok|].
  apply raises_only_bind; [apply raises_only_generate_mask_from_lengths|].
  intros mask. apply raises_only_Ok.
Qed.

Lemma raises_only_index_select0 (batch : Tensor) (index : list nat) :
  raises_only [] (index_select0 batch index).
Proof.
  destruct batch as [[|k] x]; simpl; [apply raises_only_Library|].
  apply raises_only_bind; [|intros picked; apply raises_only_Ok].
  apply raises_only_mapM. intros i. apply raises_only_lookup_or_err.
Qed.

Lemma raises_only_sort_batch_by_length (batch : Tensor) :
  raises_only [ValueError] (sort_batch_by_length batch).
Proof.
  unfold sort_batch_by_length.
  apply raises_only_bind; [apply raises_only_get_lengths|]. intros lengths.
  apply raises_only_bind; [|intros sorted; apply raises_only_Ok].
  eapply raises_only_weaken; [|apply raises_only_index_select0].
  intros e He. by apply elem_of_nil in He.
Qed.

(** ** get_lengths_of_zero_padded_batch *)

Lemma sum_last_gt0_long (row : list Z) :
  sum_last (gt0_long <$> row) = positive_count row.
Proof.
  unfold positive_count.
  induction row as [|v row IH]; [done|].
  rewrite fmap_cons, filter_cons. unfold sum_last in *. cbn [foldr].
  rewrite IH. unfold gt0_long.
  destruct (Z.ltb_spec 0 v), (decide (0 < v)); cbn [length]; lia.
Qed.

Lemma positive_count_pos (row : list Z) :
  0 < positive_count row <-> Exists (fun v => 0 < v) row.
Proof.
  unfold positive_count. induction row as [|v row IH].
  - cbn. split; [lia|]. intros H. inversion H.
  - rewrite filter_cons, Exists_cons.
    destruct (decide (0 < v)); cbn [length]; [split; [by left|lia]|].
    rewrite IH. split; [by right|]. intros [?|?]; [lia|done].
Qed.

Lemma positive_count_steps (steps : list (list Z)) :
  positive_count (positive_count <$> steps) = nonzero_steps steps.
Proof.
  unfold nonzero_steps. unfold positive_count at 1.
  induction steps as [|step steps IH]; [done|].
  rewrite fmap_cons, !filter_cons.
  destruct (decide (0 < positive_count step)) as [Hp|Hp],
           (decide (Exists (fun v => 0 < v) step)) as [He|He]; cbn [length].
  - lia.
  - by apply positive_count_pos in Hp.
  - by apply positive_count_pos in He.
  - lia.
Qed.

Lemma get_lengths_2d (rows : list (list Z)) :
  get_lengths_of_zero_padded_batch (mkTensor 2 rows) = Ok (positive_count <$> rows).
Proof.
  cbn. f_equal. unfold count_positive_last.
  apply list_fmap_ext. intros _ row _. apply sum_last_gt0_long.
Qed.

Lemma get_lengths_3d (x : list (list (list Z))) :
  get_lengths_of_zero_padded_batch (mkTensor 3 x) = Ok (nonzero_steps <$> x).
Proof.
  cbn. f_equal. unfold count_positive_last.
  rewrite <- list_fmap_compose. apply list_fmap_ext. intros _ steps _. cbn.
  rewrite sum_last_gt0_long, <- positive_count_steps. f_equal.
  apply list_fmap_ext. intros _ step _. apply sum_last_gt0_long.
Qed.

Lemma get_lengths_error_iff (inputs : Tensor) :
  (exists o e, get_lengths_of_zero_padded_batch inputs = Err o e)
  <-> (dim inputs <> 2 /\ dim inputs <> 3)%nat.
Proof.
  destruct inputs as [[|[|[|[|n]]]] x]; cbn; split;
    try (intros (o & e & H); discriminate H);
    try (intros [H2 H3]; congruence);
    try (intros _; split; congruence);
    try (intros _; eauto).
Qed.

Lemma get_lengths_error_kind (inputs : Tensor) (o : origin) (e : exn) :
  get_lengths_of_zero_padded_batch inputs = Err o e -> o = Statement /\ e = ValueError.
Proof.
  destruct inputs as [[|[|[|[|n]]]] x]; cbn; intros H;
    first [discriminate H | by injection H as <- <-].
Qed.

(** ** build_vocab2id *)

Lemma build_vocab2id_cases (vocab : list (list Z)) :
  (vocab_contract vocab
   /\ build_vocab2id vocab = Ok (dict_of_pairs (py_enumerate 1 vocab)))
  \/ (~ vocab_contract vocab
      /\ build_vocab2id vocab = Err Statement AssertionError).
Proof.
  unfold build_vocab2id, vocab_contract.
  destruct (Z.ltb_spec 3 (Z.of_nat (length vocab))) as [Hlen|Hlen]; cbn [negb].
  - destruct (bool_decide_reflect
                (take 3 vocab
                 = [str "<S>"%string; str "</S>"%string; str "<UNK>"%string]))
      as [Hhead|Hhead]; cbn [negb].
    + left. split; [split; [lia|done]|done].
    + right. split; [|done]. intros [_ H]. done.
  - right. split; [|done]. intros [H _]. lia.
Qed.

Section EncoderRaises.
Variable V : Type.
Variable char_cnn_row : list Z -> V.
Variable vzero : V.

Lemma raises_only_get_bos_eos_token_repr (filters : list (Z * Z)) :
  raises_only [] (get_bos_eos_token_repr V char_cnn_row filters).
Proof.
  unfold get_bos_eos_token_repr.
  apply raises_only_bind.
  { unfold py_max. destruct (filters.*1); [apply raises_only_Library | apply raises_only_Ok]. }
  intros widest.
  apply raises_only_bind; [apply raises_only_make_padded_char_ids|]. intros bos.
  apply raises_only_bind; [apply raises_only_make_padded_char_ids|]. intros eos.
  apply raises_only_bind; [apply raises_only_long_tensor_2d|]. intros both.
  apply raises_only_bind; [apply raises_only_lookup_or_err|]. intros r0.
  apply raises_only_bind; [apply raises_only_lookup_or_err|]. intros r1.
  apply raises_only_Ok.
Qed.

Lemma raises_only_encode_chunk (vocab : list (list Z)) (w batch_size start : Z) :
  raises_only [ValueError] (encode_chunk V char_cnn_row vzero vocab w batch_size start).
Proof.
  unfold encode_chunk.
  apply raises_only_bind.
  { eapply raises_only_weaken; [|apply raises_only_batch_to_char_ids].
    intros e He. by apply elem_of_nil in He. }
  intros char_ids.
  apply raises_only_bind; [exact (raises_only_pack_inputs (k := 1) char_ids)|].
  intros inputs.
  apply raises_only_bind.
  { eapply raises_only_weaken; [|apply raises_only_unpack_outputs].
    intros e He. by apply elem_of_nil in He. }
  intros unpacked. unfold squeeze0.
  destruct (unpacked.1) as [|row [|row' rows]];
    first [apply raises_only_Ok | apply raises_only_Library].
Qed.

Lemma raises_only_cache_char_cnn_vocab (vocab : list (list Z))
    (filters : list (Z * Z)) (w batch_size : Z) :
  raises_only [ValueError]
    (cache_char_cnn_vocab V char_cnn_row vzero vocab filters w batch_size).
Proof.
  unfold cache_char_cnn_vocab.
  apply raises_only_bind.
  { unfold py_range. destruct (batch_size =? 0);
      [apply raises_only_Library | apply raises_only_Ok]. }
  intros starts.
  apply raises_only_bind.
  { apply raises_only_mapM. intros start. apply raises_only_encode_chunk. }
  intros cached.
  apply raises_only_bind.
  { unfold torch_cat. destruct cached; [apply raises_only_Library | apply raises_only_Ok]. }
  intros combined.
  eapply raises_only_weaken with (s1 := []).
  { intros e He. by apply elem_of_nil in He. }
  apply raises_only_bind; [apply raises_only_get_bos_eos_token_repr|]. intros reprs.
  apply raises_only_bind; [apply raises_only_py_setitem|]. intros weight.
  apply raises_only_py_setitem.
Qed.
End EncoderRaises.

(** C4 (amended): [get_lengths_of_zero_padded_batch] returns, for a 2D
    tensor, per row the number of entries above zero and, for a 3D tensor,
    per row the number of timesteps holding an entry above zero; it fails
    exactly when the rank is neither 2 nor 3, with the [ValueError] of its
    [raise] statement.  That is the only [raise] of the module, and every
    function but one ends with no other exception of the module's own
    making; the exception is [build_vocab2id], whose two [assert]
    statements fail with an [AssertionError] exactly when the vocabulary
    list breaks the contract. *)
Theorem C4_lengths_and_raised_errors :
  (forall rows : list (list Z),
     get_lengths_of_zero_padded_batch (mkTensor 2 rows) = Ok (positive_count <$> rows))
  /\ (forall x : list (list (list Z)),
        get_lengths_of_zero_padded_batch (mkTensor 3 x) = Ok (nonzero_steps <$> x))
  /\ (forall inputs : Tensor,
        (exists o e, get_lengths_of_zero_padded_batch inputs = Err o e)
        <-> (dim inputs <> 2 /\ dim inputs <> 3)%nat)
  /\ (forall (inputs : Tensor) o e,
        get_lengths_of_zero_padded_batch inputs = Err o e <->
        (dim inputs <> 2 /\ dim inputs <> 3)%nat /\ o = Statement /\ e = ValueError)
  /\ (forall vocab : list (list Z),
        build_vocab2id vocab = Err Statement AssertionError <-> ~ vocab_contract vocab)
  /\ (forall vocab : list (list Z), raises_only [AssertionError] (build_vocab2id vocab))
  /\ (forall char_ids w pad bow eow,
        raises_only [] (make_padded_char_ids char_ids w pad bow eow))
  /\ (forall batch w, raises_only [] (batch_to_char_ids batch w))
  /\ (forall batch vocab2id, raises_only [] (batch_to_word_ids batch vocab2id))
  /\ (forall b t lengths, raises_only [] (generate_mask_from_lengths b t lengths))
  /\ (forall (inputs : list (list (list Z))),
        raises_only [ValueError] (pack_inputs (k := 1) inputs))
  /\ (forall (A : Type) (pad : A) inputs skip_mask,
        raises_only [] (unpack_outputs pad inputs skip_mask))
  /\ (forall batch : Tensor, raises_only [ValueError] (sort_batch_by_length batch))
  /\ (forall (V : Type) (char_cnn_row : list Z -> V) (vzero : V) vocab filters w batch_size,
        raises_only [ValueError]
          (cache_char_cnn_vocab V char_cnn_row vzero vocab filters w batch_size)).
Proof.
  split; [exact get_lengths_2d|].
  split; [exact get_lengths_3d|].
  split; [exact get_lengths_error_iff|].
  split.
  { intros inputs o e. split.
    - intros H. split; [|by eapply get_lengths_error_kind].
      apply get_lengths_error_iff. eauto.
    - intros (Hdim & -> & ->). apply get_lengths_error_iff in Hdim as (o & e & H).
      destruct (get_lengths_error_kind _ _ _ H) as [-> ->]. exact H. }
  split.
  { intros vocab. destruct (build_vocab2id_cases vocab) as [[Hc Hr]|[Hc Hr]];
      rewrite Hr; split; try done. }
  split; [exact raises_only_build_vocab2id|].
  split; [exact raises_only_make_padded_char_ids|].
  split; [exact raises_only_batch_to_char_ids|].
  split; [exact raises_only_batch_to_word_ids|].
  split; [exact raises_only_generate_mask_from_lengths|].
  split; [exact (fun inputs => raises_only_pack_inputs (k := 1) inputs)|].
  split; [intros A; exact (raises_only_unpack_outputs (A := A))|].
  split; [exact raises_only_sort_batch_by_length|].
  exact raises_only_cache_char_cnn_vocab.
Qed.

(** C4, as stated, fails on its last part: on the empty vocabulary list
    [build_vocab2id] ends with an exception of the module's own making
    that is not the shape error. *)
Lemma C4_assertion_counterexample :
  exists e : exn, build_vocab2id [] = Err Statement e /\ e <> ValueError.
Proof. exists AssertionError. split; [reflexivity | discriminate]. Qed.

(** C8 (amended): the requirement on the first three entries is checked
    when the map is built.  [build_vocab2id] returns the one-based map
    exactly when the list has more than three entries and starts with
    [<S>], [</S>], [<UNK>]; for every other list it fails with an
    [AssertionError]. *)
Theorem C8_vocab_contract_is_asserted (vocab : list (list Z)) :
  ((exists vocab2id, build_vocab2id vocab = Ok vocab2id) <-> vocab_contract vocab)
  /\ (build_vocab2id vocab = Err Statement AssertionError <-> ~ vocab_contract vocab)
  /\ (forall vocab2id, build_vocab2id vocab = Ok vocab2id ->
        vocab2id = dict_of_pairs (py_enumerate 1 vocab)).
Proof.
  destruct (build_vocab2id_cases vocab) as [[Hc Hr]|[Hc Hr]]; rewrite Hr.
  - split; [split; [done|eauto]|]. split; [split; [done|]|].
    + intros H. by destruct H.
    + by intros d [= <-].
  - split; [split; [intros [d H]; discriminate H | done]|].
    split; [done|]. intros d H. discriminate H.
Qed.

(** C8, as stated, fails: a list of four entries that does not start with
    the three special tokens, and a list of the three special tokens
    alone, are both refused. *)
Lemma C8_unchecked_contract_counterexample :
  (~ exists vocab2id,
       build_vocab2id [str "a"%string; str "b"%string; str "c"%string; str "d"%string]
       = Ok vocab2id)
  /\ (~ exists vocab2id,
        build_vocab2id [str "<S>"%string; str "</S>"%string; str "<UNK>"%string]
        = Ok vocab2id).
Proof. split; intros [d H]; vm_compute in H; discriminate H. Qed.

(** ** generate_mask_from_lengths *)

Lemma cumsum_from_ones (n : nat) :
  forall acc : Z,
    cumsum_from acc (replicate n 1) = (fun t => acc + Z.of_nat t + 1) <$> seq 0 n.
Proof.
  induction n as [|n IH]; intros acc; [done|].
  cbn [replicate cumsum_from]. rewrite IH.
  cbn [seq fmap list_fmap]. f_equal; [lia|].
  rewrite <- fmap_S_seq, <- list_fmap_compose.
  apply list_fmap_ext. intros _ t _. cbn. lia.
Qed.

(** With one length per row the mask compares each length with the
    one-based position. *)
Lemma generate_mask_from_lengths_eq (batch_size max_timesteps : Z) (lengths : list Z) :
  0 <= max_timesteps ->
  Z.of_nat (length lengths) = batch_size ->
  generate_mask_from_lengths batch_size max_timesteps lengths
  = Ok ((fun len => (fun t => ge_long len (Z.of_nat t + 1))
                      <$> seq 0 (Z.to_nat max_timesteps)) <$> lengths).
Proof.
  intros Ht Hlen. unfold generate_mask_from_lengths, new_ones.
  destruct (Z.ltb_spec batch_size 0); [lia|].
  destruct (Z.ltb_spec max_timesteps 0); [lia|].
  cbn [orb]. rewrite result_bind_Ok. unfold py_repeat.
  rewrite fmap_replicate. unfold cumsum. rewrite cumsum_from_ones.
  unfold unsqueeze_ge. rewrite length_replicate.
  rewrite bool_decide_true by lia. f_equal.
  rewrite zip_with_replicate_r_eq by lia.
  apply list_fmap_ext. intros _ len _. cbn.
  rewrite <- list_fmap_compose. apply list_fmap_ext. intros _ t _. cbn.
  f_equal.
Qed.

(** C6 (amended): for [batch_size >= 1], [max_timesteps >= 1] and a
    vector of exactly [batch_size] integer lengths,
    [generate_mask_from_lengths] returns a [batch_size] by [max_timesteps]
    matrix of zeros and ones with [mask[b, t] = 1] exactly when
    [t < lengths[b]]; on (2, 4, [3, 1]) it is [[1,1,1,0],[1,0,0,0]]. *)
Theorem C6_mask_from_lengths (batch_size max_timesteps : Z) (lengths : list Z) :
  1 <= batch_size ->
  1 <= max_timesteps ->
  Z.of_nat (length lengths) = batch_size ->
  exists mask : list (list Z),
    generate_mask_from_lengths batch_size max_timesteps lengths = Ok mask
    /\ Z.of_nat (length mask) = batch_size
    /\ (forall row : list Z, row ∈ mask -> Z.of_nat (length row) = max_timesteps)
    /\ (forall b t : nat,
          Z.of_nat b < batch_size -> Z.of_nat t < max_timesteps ->
          exists (len : Z) (row : list Z) (v : Z),
            lengths !! b = Some len /\ mask !! b = Some row /\ row !! t = Some v
            /\ (v = 0 \/ v = 1)
            /\ (v = 1 <-> Z.of_nat t < len))
    /\ generate_mask_from_lengths 2 4 [3; 1] = Ok [[1; 1; 1; 0]; [1; 0; 0; 0]].
Proof.
  intros Hb Ht Hlen.
  rewrite generate_mask_from_lengths_eq by lia.
  eexists. split; [reflexivity|]. split; [by rewrite length_fmap|]. split.
  { intros row Hrow. apply list_elem_of_fmap in Hrow as (len & -> & _).
    rewrite length_fmap, length_seq. lia. }
  split; [|reflexivity].
  intros b t Hbb Htt.
  destruct (lookup_lt_is_Some_2 lengths b) as [len Hlook]; [lia|].
  exists len. eexists. exists (ge_long len (Z.of_nat t + 1)).
  split; [done|]. split.
  { rewrite list_lookup_fmap, Hlook. reflexivity. }
  split.
  { rewrite list_lookup_fmap, lookup_seq_lt by lia. reflexivity. }
  unfold ge_long. destruct (Z.leb_spec (Z.of_nat t + 1) len); split; (lia || by split).
Qed.

Lemma C6_mask_from_lengths_witness :
  1 <= 3 /\ 1 <= 2 /\ Z.of_nat (length [2; 0; 5]) = 3
  /\ exists mask : list (list Z),
       generate_mask_from_lengths 3 2 [2; 0; 5] = Ok mask
       /\ Z.of_nat (length mask) = 3
       /\ (forall row : list Z, row ∈ mask -> Z.of_nat (length row) = 2)
       /\ (forall b t : nat,
             Z.of_nat b < 3 -> Z.of_nat t < 2 ->
             exists (len : Z) (row : list Z) (v : Z),
               [2; 0; 5] !! b = Some len /\ mask !! b = Some row /\ row !! t = Some v
               /\ (v = 0 \/ v = 1)
               /\ (v = 1 <-> Z.of_nat t < len))
       /\ generate_mask_from_lengths 2 4 [3; 1] = Ok [[1; 1; 1; 0]; [1; 0; 0; 0]].
Proof.
  split; [lia|]. split; [lia|]. split; [reflexivity|].
  apply (C6_mask_from_lengths 3 2 [2; 0; 5]); [lia | lia | reflexivity].
Defined.

(** C6, as stated, fails for a length vector whose size is not the batch
    size: three lengths against two rows cannot be broadcast and the
    comparison is refused; one length against two rows is broadcast, so the
    second row follows [lengths[0]]. *)
Lemma C6_wrong_size_counterexample :
  (~ exists mask, generate_mask_from_lengths 2 4 [3; 1; 2] = Ok mask)
  /\ generate_mask_from_lengths 2 4 [3] = Ok [[1; 1; 1; 0]; [1; 1; 1; 0]].
Proof. split; [intros [mask H]; vm_compute in H; discriminate H | reflexivity]. Qed.

(** ** batch_to_word_ids and batch_to_char_ids *)

Lemma recursive_store_ok (width : nat) (rows : list (list Z)) :
  Forall (fun u : list Z => length u = width) rows ->
  Forall (Forall in_int64) rows ->
  recursive_store width rows = Ok rows.
Proof.
  induction rows as [|row rest IH]; intros Hlen Hrange; [done|].
  apply Forall_cons in Hlen as [Hrow Hlen].
  apply Forall_cons in Hrange as [Hfit Hrange].
  cbn [recursive_store].
  rewrite (bool_decide_eq_true_2 _ Hrow), (bool_decide_eq_true_2 _ Hfit).
  by rewrite (IH Hlen Hrange), result_bind_Ok.
Qed.

Lemma long_tensor_2d_ok (rows : list (list Z)) (n : nat) :
  Forall (fun u : list Z => length u = n) rows ->
  Forall (Forall in_int64) rows ->
  long_tensor_2d rows = Ok rows.
Proof.
  intros Hall Hrange. unfold long_tensor_2d. destruct rows as [|r rest]; [done|].
  apply recursive_store_ok; [|done].
  pose proof (Forall_inv Hall) as Hr. cbv beta in Hr. by rewrite Hr.
Qed.

(** A row of another length stops the construction: at that row, or before
    it at an entry that does not fit; when every entry fits, at that row. *)
Lemma recursive_store_ragged (width : nat) (u : list Z) (rows : list (list Z)) :
  u ∈ rows -> length u <> width ->
  exists e, recursive_store width rows = Err Library e
            /\ (Forall (Forall in_int64) rows -> e = ValueError).
Proof.
  intros Hu Hne. induction rows as [|row rest IH]; [by apply elem_of_nil in Hu|].
  cbn [recursive_store].
  destruct (decide (length row = width)) as [Hrow|Hrow].
  2: { rewrite (bool_decide_eq_false_2 _ Hrow). by exists ValueError. }
  rewrite (bool_decide_eq_true_2 _ Hrow).
  destruct (decide (Forall in_int64 row)) as [Hfit|Hfit].
  2: { rewrite (bool_decide_eq_false_2 _ Hfit). exists RuntimeError. split; [done|].
       intros Hall. destruct Hfit. exact (Forall_inv Hall). }
  rewrite (bool_decide_eq_true_2 _ Hfit).
  apply elem_of_cons in Hu as [->|Hu]; [done|].
  destruct (IH Hu) as (e & -> & He). exists e. split; [done|].
  intros Hall. apply He. exact (Forall_inv_tail Hall).
Qed.

Lemma long_tensor_2d_ragged (r u : list Z) (rest : list (list Z)) :
  u ∈ rest -> length u <> length r ->
  exists e, long_tensor_2d (r :: rest) = Err Library e
            /\ (Forall (Forall in_int64) (r :: rest) -> e = ValueError).
Proof.
  intros Hu Hne. unfold long_tensor_2d.
  apply (recursive_store_ragged (length r) u); [|done].
  apply elem_of_cons. by right.
Qed.

Lemma in_int64_word_ids_of_words (vocab2id : gmap (list Z) Z) (max_timesteps : Z)
    (words : list (list Z)) :
  Forall (fun word => forall word_id, vocab2id !! word = Some word_id -> in_int64 word_id)
         words ->
  Forall in_int64 (word_ids_of_words vocab2id max_timesteps words).
Proof.
  intros Hids. unfold word_ids_of_words, py_repeat. apply Forall_app. split.
  - apply Forall_fmap. eapply Forall_impl; [exact Hids|].
    intros word Hword. unfold compose. cbv beta in Hword.
    destruct (vocab2id !! word) as [word_id|]; cbn [default]; [by apply Hword|].
    unfold in_int64, int64_min, int64_max. lia.
  - apply Forall_replicate. unfold in_int64, int64_min, int64_max. lia.
Qed.

Lemma torch_stack_ok {k} (tensors : list (nested k)) (t : nested (S k)) :
  torch_stack tensors = Ok t ->
  t = tensors
  /\ exists t0 rest, tensors = t0 :: rest
                     /\ forall u, u ∈ rest -> shape k u = shape k t0.
Proof.
  unfold torch_stack. destruct tensors as [|t0 rest]; [discriminate|].
  destruct (forallb _ rest) eqn:Hall; [|discriminate].
  intros [= <-]. split; [done|]. exists t0, rest. split; [done|].
  intros u Hu. rewrite forallb_forall in Hall. specialize (Hall u).
  rewrite bool_decide_eq_true in Hall. apply Hall. by apply list_elem_of_In.
Qed.

Lemma length_word_ids_of_words (vocab2id : gmap (list Z) Z) (max_timesteps : Z)
    (words : list (list Z)) :
  length (word_ids_of_words vocab2id max_timesteps words)
  = (length words + Z.to_nat (max_timesteps - Z.of_nat (length words)))%nat.
Proof.
  unfold word_ids_of_words, py_repeat.
  by rewrite length_app, length_replicate, !length_fmap.
Qed.

(** C5 (amended): for a non-empty batch whose first sequence is the
    longest and a map whose ids all fit a 64-bit signed integer,
    [batch_to_word_ids] returns a tensor with one row per sequence, each of
    the length of the first sequence; a position holds the id of its word
    when the word is in [vocab2id], 3 when it is not, and 0 beyond the
    sequence's own length. *)
Theorem C5_batch_to_word_ids (batch : list (list (list Z)))
    (vocab2id : gmap (list Z) Z) (first : list (list Z)) :
  head batch = Some first ->
  Forall (fun words : list (list Z) => (length words <= length first)%nat) batch ->
  (forall (word : list Z) (word_id : Z),
     vocab2id !! word = Some word_id -> in_int64 word_id) ->
  exists tensor : list (list Z),
    batch_to_word_ids batch vocab2id = Ok tensor
    /\ length tensor = length batch
    /\ Forall (fun row : list Z => length row = length first) tensor
    /\ (forall (b : nat) (words : list (list Z)),
          batch !! b = Some words ->
          exists row : list Z,
            tensor !! b = Some row
            /\ (forall (t : nat) (word : list Z) (word_id : Z),
                  words !! t = Some word -> vocab2id !! word = Some word_id ->
                  row !! t = Some word_id)
            /\ (forall (t : nat) (word : list Z),
                  words !! t = Some word -> vocab2id !! word = None ->
                  row !! t = Some 3)
            /\ (forall t : nat,
                  (length words <= t < length first)%nat -> row !! t = Some 0)).
Proof.
  intros Hhead Hlongest Hids.
  apply head_Some in Hhead as [rest ->].
  unfold batch_to_word_ids. cbn [py_first]. rewrite result_bind_Ok.
  set (T := Z.of_nat (length first)).
  set (rows := word_ids_of_words vocab2id T <$> first :: rest).
  assert (Forall (fun row : list Z => length row = length first) rows) as Hrect.
  { unfold rows. apply Forall_fmap. eapply Forall_impl; [exact Hlongest|].
    intros words Hle. unfold compose. cbv beta in *.
    rewrite length_word_ids_of_words. unfold T. lia. }
  assert (Forall (Forall in_int64) rows) as Hrange.
  { unfold rows. apply Forall_fmap, Forall_forall. intros words _. unfold compose.
    apply in_int64_word_ids_of_words, Forall_forall. intros word _. apply Hids. }
  rewrite (long_tensor_2d_ok rows (length first) Hrect Hrange).
  exists rows. split; [done|]. split; [unfold rows; by rewrite length_fmap|].
  split; [done|].
  intros b words Hb. exists (word_ids_of_words vocab2id T words). split.
  { unfold rows. by rewrite list_lookup_fmap, Hb. }
  unfold word_ids_of_words, py_repeat.
  split; [|split].
  - intros t word word_id Ht Hid.
    rewrite lookup_app_l by (rewrite length_fmap; by eapply lookup_lt_Some).
    by rewrite list_lookup_fmap, Ht; cbn; rewrite Hid.
  - intros t word Ht Hid.
    rewrite lookup_app_l by (rewrite length_fmap; by eapply lookup_lt_Some).
    by rewrite list_lookup_fmap, Ht; cbn; rewrite Hid.
  - intros t [Hlo Hhi].
    rewrite lookup_app_r by (rewrite length_fmap; lia).
    rewrite length_fmap. apply lookup_replicate_2. unfold T. lia.
Qed.

Lemma C5_batch_to_word_ids_witness :
  batch_to_word_ids [[str "the"%string; str "cat"%string]; [str "dog"%string]]
    (dict_of_pairs (py_enumerate 1
       [str "<S>"%string; str "</S>"%string; str "<UNK>"%string;
        str "the"%string; str "cat"%string]))
  = Ok [[4; 5]; [3; 0]].
Proof.
  destruct (C5_batch_to_word_ids
              [[str "the"%string; str "cat"%string]; [str "dog"%string]]
              (dict_of_pairs (py_enumerate 1
                 [str "<S>"%string; str "</S>"%string; str "<UNK>"%string;
                  str "the"%string; str "cat"%string]))
              [str "the"%string; str "cat"%string])
    as (tensor & Hrun & _).
  - reflexivity.
  - repeat constructor.
  - apply (bool_decide_unpack (map_Forall (fun _ word_id => in_int64 word_id) _)).
    vm_compute. exact I.
  - rewrite Hrun. vm_compute in Hrun. by injection Hrun as <-.
Defined.

(** C5, as stated, fails for a map that holds an id outside the range of a
    64-bit signed integer: the tensor cannot hold the id, and the call ends
    with the error of [torch.LongTensor] instead of a tensor. *)
Lemma C5_id_out_of_range_counterexample :
  head [[str "the"%string]] = Some [str "the"%string]
  /\ Forall (fun words : list (list Z) => (length words <= 1)%nat) [[str "the"%string]]
  /\ batch_to_word_ids [[str "the"%string]]
       {[ str "the"%string := 9223372036854775808 ]}
     = Err Library RuntimeError
  /\ ~ exists tensor : list (list Z),
        batch_to_word_ids [[str "the"%string]]
          {[ str "the"%string := 9223372036854775808 ]}
        = Ok tensor.
Proof.
  split; [reflexivity|]. split; [repeat constructor|].
  split; [reflexivity|]. intros [tensor H]. vm_compute in H. discriminate H.
Qed.

(** C9 (amended): neither function tests the order of the batch, and
    neither shortens a sequence.  When some sequence is longer than
    [batch[0]], its row keeps its full length, the rows differ in length,
    and the construction of the tensor is refused by torch: both calls end
    with an exception and return no tensor.  For the word ids the exception
    is the [ValueError] of the unequal rows whenever the ids of the map fit
    a 64-bit signed integer. *)
Theorem C9_longer_sequence_is_refused (batch : list (list (list Z)))
    (first words : list (list Z)) :
  head batch = Some first ->
  words ∈ batch ->
  (length first < length words)%nat ->
  (forall vocab2id, exists e, batch_to_word_ids batch vocab2id = Err Library e)
  /\ (forall vocab2id : gmap (list Z) Z,
        (forall (word : list Z) (word_id : Z),
           vocab2id !! word = Some word_id -> in_int64 word_id) ->
        batch_to_word_ids batch vocab2id = Err Library ValueError)
  /\ (forall max_characters_per_token,
        exists e, batch_to_char_ids batch max_characters_per_token = Err Library e).
Proof.
  intros Hhead Hin Hlonger.
  apply head_Some in Hhead as [rest ->].
  apply elem_of_cons in Hin as [->|Hin]; [lia|].
  assert (forall vocab2id : gmap (list Z) Z,
            exists e,
              batch_to_word_ids (first :: rest) vocab2id = Err Library e
              /\ ((forall (word : list Z) (word_id : Z),
                     vocab2id !! word = Some word_id -> in_int64 word_id) ->
                  e = ValueError)) as Hword.
  { intros vocab2id. unfold batch_to_word_ids. cbn [py_first].
    rewrite result_bind_Ok. rewrite fmap_cons.
    destruct (long_tensor_2d_ragged
                (word_ids_of_words vocab2id (Z.of_nat (length first)) first)
                (word_ids_of_words vocab2id (Z.of_nat (length first)) words)
                (word_ids_of_words vocab2id (Z.of_nat (length first)) <$> rest))
      as (e & Hrun & He).
    - by apply list_elem_of_fmap_2.
    - rewrite !length_word_ids_of_words. lia.
    - exists e. split; [exact Hrun|]. intros Hids. apply He.
      rewrite <- fmap_cons. apply Forall_fmap, Forall_forall. intros ws _.
      unfold compose. apply in_int64_word_ids_of_words, Forall_forall.
      intros word _. apply Hids. }
  split; [|split].
  - intros vocab2id. destruct (Hword vocab2id) as (e & Hrun & _). eauto.
  - intros vocab2id Hids. destruct (Hword vocab2id) as (e & Hrun & He).
    by rewrite Hrun, (He Hids).
  - intros w.
    destruct (batch_to_char_ids (first :: rest) w) as [t|o e] eqn:Hrun.
    2: { destruct o; [|eauto].
         pose proof (raises_only_batch_to_char_ids (first :: rest) w e Hrun) as He.
         by apply elem_of_nil in He. }
    exfalso. unfold batch_to_char_ids in Hrun. cbn [py_first] in Hrun.
    rewrite result_bind_Ok in Hrun.
    apply result_bind_ok in Hrun as (rows & Hrows & Hstack).
    apply (torch_stack_ok (k := 2)) in Hstack as (_ & r0 & rest' & -> & Hshape).
    assert (forall (i : nat) (ws : list (list Z)) (r : list (list Z)),
              (first :: rest) !! i = Some ws -> (r0 :: rest') !! i = Some r ->
              length r = (length ws
                          + Z.to_nat (Z.of_nat (length first) - Z.of_nat (length ws)))%nat)
      as Hlen.
    { intros i ws r Hws Hr.
      destruct (result_mapM_lookup _ _ _ i ws Hrows Hws) as (r' & Hr' & Hrow).
      pose proof (eq_trans (eq_sym Hr) Hr') as Heq. injection Heq as <-.
      unfold char_ids_of_words in Hrow.
      apply result_bind_ok in Hrow as (ids & Hids & Hst).
      apply (torch_stack_ok (k := 1)) in Hst as (-> & _).
      apply result_mapM_length in Hids.
      unfold py_repeat. rewrite length_app, length_replicate, Hids. done. }
    apply list_elem_of_lookup in Hin as [j Hj].
    destruct (lookup_lt_is_Some_2 rest' j) as [rj Hrj].
    { apply result_mapM_length in Hrows. cbn [length] in Hrows.
      apply lookup_lt_Some in Hj. lia. }
    pose proof (Hlen O first r0 eq_refl eq_refl) as H0.
    pose proof (Hlen (S j) words rj Hj Hrj) as H1.
    assert (shape 2 rj = shape 2 r0) as Hsh.
    { apply Hshape. apply list_elem_of_lookup. eauto. }
    cbn [shape] in Hsh. injection Hsh as Hsh _. lia.
Qed.

Lemma C9_longer_sequence_is_refused_witness :
  (forall vocab2id,
     exists e,
       batch_to_word_ids [[str "the"%string]; [str "dog"%string; str "cat"%string]]
         vocab2id = Err Library e)
  /\ (forall vocab2id : gmap (list Z) Z,
        (forall (word : list Z) (word_id : Z),
           vocab2id !! word = Some word_id -> in_int64 word_id) ->
        batch_to_word_ids [[str "the"%string]; [str "dog"%string; str "cat"%string]]
          vocab2id = Err Library ValueError)
  /\ (forall max_characters_per_token,
        exists e,
          batch_to_char_ids [[str "the"%string]; [str "dog"%string; str "cat"%string]]
            max_characters_per_token = Err Library e).
Proof.
  apply (C9_longer_sequence_is_refused
           [[str "the"%string]; [str "dog"%string; str "cat"%string]]
           [str "the"%string] [str "dog"%string; str "cat"%string]).
  - reflexivity.
  - apply elem_of_cons. right. apply elem_of_cons. by left.
  - simpl. lia.
Defined.

(** C9, as stated, fails: on a batch whose second sequence is longer than
    the first, neither function returns a tensor. *)
Lemma C9_unsorted_batch_counterexample :
  (~ exists tensor,
       batch_to_word_ids [[str "the"%string]; [str "dog"%string; str "cat"%string]] ∅
       = Ok tensor)
  /\ (~ exists tensor,
        batch_to_char_ids [[str "the"%string]; [str "dog"%string; str "cat"%string]] 50
        = Ok tensor).
Proof. split; intros [tensor H]; vm_compute in H; discriminate H. Qed.

(** The rows are stored in order: an id that does not fit is met before a
    later row of another length, and the exception is then the one of the
    id. *)
Lemma batch_to_word_ids_first_fault :
  batch_to_word_ids [[str "the"%string]; [str "dog"%string; str "cat"%string]]
    {[ str "the"%string := 9223372036854775808 ]}
  = Err Library RuntimeError
  /\ batch_to_word_ids [[str "the"%string]; [str "dog"%string; str "cat"%string]]
       {[ str "dog"%string := 9223372036854775808 ]}
     = Err Library ValueError.
Proof. split; reflexivity. Qed.

(** ** sort_batch_by_length *)

#[local] Instance key_le_total descending : Total (key_le descending).
Proof. intros p q. unfold key_le. destruct descending; lia. Qed.

Lemma torch_sort_indices_perm (descending : bool) (values : list Z) :
  (torch_sort descending values).2 ≡ₚ seq 0 (length values).
Proof.
  unfold torch_sort. cbn [snd]. rewrite merge_sort_Permutation.
  by rewrite snd_zip by (rewrite length_seq; lia).
Qed.

Lemma Sorted_of_nat_seq (n : nat) :
  forall j : nat, Sorted Z.le (Z.of_nat <$> seq j n).
Proof.
  induction n as [|n IH]; intros j; cbn; constructor; [apply IH|].
  destruct n; cbn; constructor. lia.
Qed.

(** Sorting a permutation of [0 .. n-1] in ascending order puts value [k]
    at place [k]; the index that comes with it is where [k] was. *)
Lemma torch_sort_permutation_inverse (perm : list nat) (n : nat) :
  perm ≡ₚ seq 0 n ->
  forall k i : nat,
    (torch_sort false (Z.of_nat <$> perm)).2 !! k = Some i -> perm !! i = Some k.
Proof.
  intros Hperm k i. unfold torch_sort. cbn [snd].
  set (keys := Z.of_nat <$> perm).
  set (s := merge_sort (key_le false) (zip keys (seq 0 (length keys)))).
  assert (s ≡ₚ zip keys (seq 0 (length keys))) as Hs by apply merge_sort_Permutation.
  assert (s.*1 = Z.of_nat <$> seq 0 n) as Hfst.
  { apply (Sorted_unique Z.le).
    - apply (Sorted_fmap fst (key_le false) Z.le); [|apply Sorted_merge_sort; apply _].
      intros p q Hpq. exact Hpq.
    - apply Sorted_of_nat_seq.
    - rewrite Hs, fst_zip by (rewrite length_seq; lia).
      unfold keys. by rewrite Hperm. }
  rewrite list_lookup_fmap. destruct (s !! k) as [[a i']|] eqn:Hk; [|done].
  cbn. intros [= ->].
  assert (a = Z.of_nat k) as ->.
  { assert (s.*1 !! k = Some a) as Ha by (by rewrite list_lookup_fmap, Hk).
    rewrite Hfst in Ha. apply list_lookup_fmap_Some in Ha as (k' & -> & Hk').
    apply lookup_seq in Hk' as [-> _]. done. }
  assert ((Z.of_nat k, i) ∈ zip keys (seq 0 (length keys))) as Hin.
  { rewrite <- Hs. apply list_elem_of_lookup. eauto. }
  apply list_elem_of_lookup in Hin as [j Hj].
  apply lookup_zip_Some in Hj as [Hkey Hidx].
  apply lookup_seq in Hidx as [-> _]. cbn in Hkey.
  unfold keys in Hkey. apply list_lookup_fmap_Some in Hkey as (k' & Heq & Hk').
  by replace k with k' by lia.
Qed.

Lemma lookup_or_err_Some {A} (l : list A) (i : nat) (a : A) :
  l !! i = Some a -> lookup_or_err l i = Ok a.
Proof. intros H. unfold lookup_or_err. by rewrite H. Qed.

Lemma select_rows_ok {A} (x : list A) (index : list nat) :
  Forall (fun i => (i < length x)%nat) index ->
  exists picked : list A,
    result_mapM (lookup_or_err x) index = Ok picked
    /\ length picked = length index
    /\ forall j i : nat, index !! j = Some i -> picked !! j = x !! i.
Proof.
  induction index as [|i index IH]; intros Hall.
  - exists []. by repeat split.
  - apply Forall_cons in Hall as [Hi Hall].
    destruct (IH Hall) as (picked & Hrun & Hlen & Hlook).
    destruct (lookup_lt_is_Some_2 x i Hi) as [a Ha].
    exists (a :: picked). cbn [result_mapM].
    rewrite (lookup_or_err_Some x i a Ha), result_bind_Ok, Hrun, result_bind_Ok.
    split; [done|]. split; [cbn; by rewrite Hlen|].
    intros [|j] i'; cbn.
    + by intros [= <-].
    + apply Hlook.
Qed.

(** Selecting by the sorting index and then by its sorted index is the
    identity on the rows. *)
Lemma sort_then_restore {A} (x : list A) (lengths : list Z) :
  length lengths = length x ->
  let permutation_index := (torch_sort true lengths).2 in
  let restoration_index := (torch_sort false (Z.of_nat <$> permutation_index)).2 in
  (exists picked : list A,
     result_mapM (lookup_or_err x) permutation_index = Ok picked
     /\ result_mapM (lookup_or_err picked) restoration_index = Ok x)
  /\ (forall i j : nat,
        permutation_index !! i = Some j <-> restoration_index !! j = Some i).
Proof.
  intros Hlen perm rest.
  assert (perm ≡ₚ seq 0 (length x)) as Hperm.
  { unfold perm. rewrite torch_sort_indices_perm. by rewrite Hlen. }
  assert (length perm = length x) as Hplen.
  { by rewrite Hperm, length_seq. }
  assert (rest ≡ₚ seq 0 (length x)) as Hrest.
  { unfold rest. rewrite torch_sort_indices_perm. by rewrite length_fmap, Hplen. }
  assert (length rest = length x) as Hrlen.
  { by rewrite Hrest, length_seq. }
  assert (forall k i, rest !! k = Some i -> perm !! i = Some k) as Hinv.
  { apply (torch_sort_permutation_inverse perm (length x) Hperm). }
  assert (forall l : list nat, l ≡ₚ seq 0 (length x) ->
            Forall (fun i => (i < length x)%nat) l) as Hrange.
  { intros l Hl. apply Forall_forall. intros i Hi. rewrite Hl in Hi.
    apply elem_of_seq in Hi. lia. }
  split.
  - destruct (select_rows_ok x perm (Hrange perm Hperm)) as (picked & Hp & Hpl & Hpk).
    exists picked. split; [done|].
    destruct (select_rows_ok picked rest) as (x' & Hx' & Hxl & Hxk).
    { rewrite Hpl, Hplen. by apply Hrange. }
    rewrite Hx'. f_equal. apply list_eq. intros k.
    destruct (rest !! k) as [i|] eqn:Hk.
    + rewrite (Hxk k i Hk). rewrite (Hpk i k (Hinv k i Hk)). done.
    + apply lookup_ge_None in Hk.
      rewrite (proj2 (lookup_ge_None x' k)) by lia.
      rewrite (proj2 (lookup_ge_None x k)) by lia. done.
  - intros i j. split; [|apply Hinv].
    intros Hij.
    assert (j < length rest)%nat as Hj.
    { rewrite Hrlen. apply list_elem_of_lookup_2 in Hij. rewrite Hperm in Hij.
      apply elem_of_seq in Hij. lia. }
    destruct (lookup_lt_is_Some_2 rest j Hj) as [i' Hi'].
    rewrite Hi'. f_equal.
    assert (NoDup perm) as Hnd by (rewrite Hperm; apply NoDup_seq).
    exact (NoDup_lookup perm i' i j Hnd (Hinv j i' Hi') Hij).
Qed.

Lemma index_select0_ranked (k : nat) (x : list (nested k)) (index : list nat) :
  index_select0 (mkTensor (S k) x) index
  = (picked ← result_mapM (lookup_or_err x) index; Ok (mkTensor (S k) picked)).
Proof. reflexivity. Qed.

Lemma restores_original_ranked (k : nat) (x : list (nested k)) (lengths : list Z) :
  get_lengths_of_zero_padded_batch (mkTensor (S k) x) = Ok lengths ->
  length lengths = length x ->
  restores_original (mkTensor (S k) x).
Proof.
  intros Hrun Hlen. unfold restores_original, sort_batch_by_length.
  rewrite Hrun, result_bind_Ok.
  destruct (sort_then_restore x lengths Hlen) as [(picked & Hp & Hr) Hinv].
  rewrite index_select0_ranked, Hp, !result_bind_Ok.
  eexists _, _, _. split; [reflexivity|]. split; [reflexivity|].
  split; [|exact Hinv].
  by rewrite index_select0_ranked, Hr, result_bind_Ok.
Qed.

(** C3: for every zero-padded batch tensor, 2D or 3D, with any lengths,
    equal ones included, [sort_batch_by_length] returns the sorted batch
    and the two indices; selecting the sorted batch by the restoration
    index gives the original batch back, and the restoration index is the
    inverse of the permutation index. *)
Theorem C3_sort_batch_by_length_restores :
  (forall batch : list (list Z), restores_original (mkTensor 2 batch))
  /\ (forall batch : list (list (list Z)), restores_original (mkTensor 3 batch)).
Proof.
  split; intros batch.
  - apply (restores_original_ranked 1 batch (positive_count <$> batch)).
    + apply get_lengths_2d.
    + apply length_fmap.
  - apply (restores_original_ranked 2 batch (nonzero_steps <$> batch)).
    + apply get_lengths_3d.
    + apply length_fmap.
Qed.

(** ** cache_char_cnn_vocab *)

Lemma result_mapM_pointwise {A B} (g : A -> result B) (l : list A) :
  forall ys : list B,
    length ys = length l ->
    (forall (i : nat) (x : A) (y : B),
        l !! i = Some x -> ys !! i = Some y -> g x = Ok y) ->
    result_mapM g l = Ok ys.
Proof.
  induction l as [|x l IH]; intros ys Hlen Hg.
  - destruct ys; [done|discriminate].
  - destruct ys as [|y ys]; [discriminate|]. cbn [result_mapM].
    rewrite (Hg O x y eq_refl eq_refl), result_bind_Ok.
    rewrite (IH ys); [done|by injection Hlen|].
    intros i x' y' Hx Hy. exact (Hg (S i) x' y' Hx Hy).
Qed.

Lemma fmap_const_replicate {A B} (g : A -> B) (c : B) (l : list A) :
  (forall x, x ∈ l -> g x = c) -> g <$> l = replicate (length l) c.
Proof.
  induction l as [|x l IH]; intros Hg; [done|].
  cbn. rewrite (Hg x) by left. f_equal. apply IH. intros y Hy. apply Hg. by right.
Qed.

Lemma concat_singletons {A} (l : list A) : concat ((fun x => [x]) <$> l) = l.
Proof. induction l as [|x l IH]; [done|]. cbn. by rewrite IH. Qed.

Lemma concat_fmap_fmap {A B} (g : A -> B) (ls : list (list A)) :
  concat ((fun l : list A => g <$> l) <$> ls) = g <$> concat ls.
Proof.
  induction ls as [|l ls IH]; [done|]. cbn. by rewrite IH, fmap_app.
Qed.

Lemma offsets_from_ones (n : nat) :
  forall acc : nat, offsets_from acc (replicate n 1%nat) = seq acc n.
Proof.
  induction n as [|n IH]; intros acc; [done|].
  cbn. f_equal. rewrite IH. f_equal. lia.
Qed.

(** Every padded row of positive width holds the end-of-word marker, so it
    counts as a timestep for the length inference. *)
Lemma make_padded_char_ids_default_row (char_ids : list Z) (w : Z) :
  1 <= w ->
  exists row : list Z,
    make_padded_char_ids_default char_ids w = Ok row
    /\ Z.of_nat (length row) = w
    /\ Exists (fun v => 0 < v) row.
Proof.
  intros Hw. unfold make_padded_char_ids_default.
  destruct (make_padded_char_ids char_ids w (PADDING_CHARACTER + 1)
              (BEGINNING_OF_WORD_CHARACTER + 1) (END_OF_WORD_CHARACTER + 1))
    as [row|o e] eqn:Hrun.
  2: { rewrite make_padded_char_ids_eq in Hrun by lia. discriminate. }
  exists row. split; [done|]. split; [by eapply make_padded_char_ids_length|].
  rewrite make_padded_char_ids_eq in Hrun by lia. injection Hrun as <-.
  apply Exists_exists. exists (END_OF_WORD_CHARACTER + 1). split; [|done].
  apply list_elem_of_lookup.
  exists (Nat.min (S (length char_ids)) (Z.to_nat (w - 1))).
  apply list_lookup_insert_eq. cbn [length].
  rewrite length_app, length_take, length_replicate.
  destruct (Z.to_nat (w - 1)); lia.
Qed.

Lemma token_char_ids_ok (w : Z) (word : list Z) :
  1 <= w ->
  token_char_ids w word = Ok (token_row w word)
  /\ Z.of_nat (length (token_row w word)) = w
  /\ Exists (fun v => 0 < v) (token_row w word).
Proof.
  intros Hw.
  assert (exists row, token_char_ids w word = Ok row
                      /\ Z.of_nat (length row) = w
                      /\ Exists (fun v => 0 < v) row) as (row & Hrun & Hlen & Hpos).
  { unfold token_char_ids.
    destruct (_WORD_TO_CHAR_IDS_EXCEPTION !! word) as [gen|] eqn:Hgen.
    - unfold _WORD_TO_CHAR_IDS_EXCEPTION in Hgen.
      apply lookup_insert_Some in Hgen as [[_ <-]|[_ Hgen]].
      { by apply make_padded_char_ids_default_row. }
      apply lookup_insert_Some in Hgen as [[_ <-]|[_ Hgen]].
      { by apply make_padded_char_ids_default_row. }
      by rewrite lookup_empty in Hgen.
    - by apply make_padded_char_ids_default_row. }
  unfold token_row. rewrite Hrun. done.
Qed.

Lemma token_rows_ok (w : Z) (words : list (list Z)) :
  1 <= w ->
  result_mapM (token_char_ids w) words = Ok (token_row w <$> words).
Proof.
  intros Hw. apply result_mapM_ok. intros word _. by apply token_char_ids_ok.
Qed.

Lemma shape_1 (u : list Z) : shape 1 u = [length u].
Proof. by destruct u. Qed.

Lemma char_ids_of_words_ok (w : Z) (words : list (list Z)) :
  1 <= w -> words <> [] ->
  char_ids_of_words w (Z.of_nat (length words)) words = Ok (token_row w <$> words).
Proof.
  intros Hw Hne. unfold char_ids_of_words.
  rewrite token_rows_ok, result_bind_Ok by done.
  rewrite length_fmap, Z.sub_diag. unfold py_repeat at 1. cbn [Z.to_nat replicate].
  rewrite app_nil_r. unfold torch_stack.
  destruct words as [|word words]; [done|]. rewrite fmap_cons.
  replace (forallb (fun u => bool_decide (shape 1 u = shape 1 (token_row w word)))
             (token_row w <$> words)) with true; [done|].
  symmetry. apply forallb_forall. intros u Hu. apply bool_decide_eq_true.
  apply list_elem_of_In, list_elem_of_fmap in Hu as (word' & -> & _).
  rewrite !shape_1. f_equal.
  destruct (token_char_ids_ok w word Hw) as (_ & H1 & _).
  destruct (token_char_ids_ok w word' Hw) as (_ & H2 & _). lia.
Qed.

Lemma batch_to_char_ids_single (w : Z) (words : list (list Z)) :
  1 <= w -> words <> [] ->
  batch_to_char_ids [words] w = Ok [token_row w <$> words].
Proof.
  intros Hw Hne. unfold batch_to_char_ids. cbn [py_first result_mapM].
  rewrite !result_bind_Ok, char_ids_of_words_ok, !result_bind_Ok by done.
  reflexivity.
Qed.

Lemma filter_all {A} (P : A -> Prop) `{forall x, Decision (P x)} (l : list A) :
  Forall P l -> filter P l = l.
Proof.
  induction 1 as [|x l Hx Hl IH]; [done|].
  rewrite filter_cons, decide_True by done. by rewrite IH.
Qed.

Lemma get_lengths_single (rows : list (list Z)) :
  Forall (fun row : list Z => Exists (fun v => 0 < v) row) rows ->
  get_lengths_of_zero_padded_batch (mkTensor 3 [rows]) = Ok [Z.of_nat (length rows)].
Proof.
  intros Hrows. rewrite get_lengths_3d. cbn [fmap list_fmap].
  unfold nonzero_steps. by rewrite filter_all.
Qed.

(** One sequence packs to its own timesteps, one per step. *)
Lemma pack_padded_sequence_single {A} (rows : list A) :
  rows <> [] ->
  pack_padded_sequence [rows] [Z.of_nat (length rows)]
  = Ok (mkPacked rows (replicate (length rows) 1%nat)).
Proof.
  intros Hne. unfold pack_padded_sequence.
  assert (0 < Z.of_nat (length rows)) as Hpos by (destruct rows; [done|cbn; lia]).
  rewrite bool_decide_true by done. cbn [negb forallb sorted_decreasing].
  destruct (Z.ltb_spec 0 (Z.of_nat (length rows))); [|lia]. cbn [andb negb].
  rewrite Nat2Z.id.
  assert (forall t : nat, (t < length rows)%nat ->
            batch_size_at [Z.of_nat (length rows)] t = 1%nat) as Hsize.
  { intros t Ht. unfold batch_size_at.
    rewrite filter_cons, decide_True by lia. done. }
  rewrite (result_mapM_pointwise _ (seq 0 (length rows)) ((fun r => [r]) <$> rows)).
  - rewrite result_bind_Ok, concat_singletons. f_equal. f_equal.
    rewrite (fmap_const_replicate (batch_size_at [Z.of_nat (length rows)]) 1%nat).
    + by rewrite length_seq.
    + intros t Ht. apply Hsize. apply elem_of_seq in Ht. lia.
  - by rewrite length_fmap, length_seq.
  - intros i t y Ht Hy. apply lookup_seq in Ht as [-> Hi].
    apply list_lookup_fmap_Some in Hy as (r & -> & Hr).
    rewrite Hsize by lia. cbn [take result_mapM]. rewrite Nat.add_0_l.
    by rewrite (lookup_or_err_Some rows i r Hr), !result_bind_Ok.
Qed.

(** Unpacking a packed single sequence gives that sequence back as the one
    row of the dense tensor. *)
Lemma pad_packed_sequence_single {A} (pad : A) (out : list A) :
  out <> [] ->
  exists lengths : list Z,
    pad_packed_sequence pad (mkPacked out (replicate (length out) 1%nat))
    = Ok ([out], lengths).
Proof.
  intros Hne. unfold pad_packed_sequence. cbn [batch_sizes data].
  destruct out as [|o out]; [done|]. cbn [length replicate].
  change (1%nat :: replicate (length out) 1%nat)
    with (replicate (S (length out)) 1%nat).
  cbn [seq result_mapM]. rewrite offsets_from_ones.
  rewrite (result_mapM_pointwise _
             (zip (seq 0 (S (length out))) (replicate (S (length out)) 1%nat))
             (o :: out)).
  - rewrite !result_bind_Ok. eauto.
  - rewrite length_zip, length_seq, length_replicate. cbn [length]. lia.
  - intros i p y Hp Hy. destruct p as [off n].
    apply lookup_zip_Some in Hp as [Hoff Hn].
    apply lookup_seq in Hoff as [-> _].
    apply lookup_replicate in Hn as [-> _]. cbn [fst snd].
    change (0 <? 1)%nat with true. cbn iota.
    rewrite Nat.add_0_l, Nat.add_0_r. by apply lookup_or_err_Some.
Qed.

Section EncoderChunks.
Variable V : Type.
Variable char_cnn_row : list Z -> V.
Variable vzero : V.

Lemma encode_chunk_ok (vocab : list (list Z)) (w batch_size batch_start : Z) :
  1 <= w ->
  py_slice vocab batch_start (batch_start + batch_size) <> [] ->
  encode_chunk V char_cnn_row vzero vocab w batch_size batch_start
  = Ok ((fun word => char_cnn_row (token_row w word))
          <$> py_slice vocab batch_start (batch_start + batch_size)).
Proof.
  intros Hw Hne. unfold encode_chunk.
  set (batch := py_slice vocab batch_start (batch_start + batch_size)) in *.
  rewrite batch_to_char_ids_single, result_bind_Ok by done.
  assert (token_row w <$> batch <> []) as Hrows by (by destruct batch).
  unfold pack_inputs. rewrite get_lengths_single.
  2: { apply Forall_fmap, Forall_forall. intros word _. by apply token_char_ids_ok. }
  rewrite result_bind_Ok, pack_padded_sequence_single, result_bind_Ok by done.
  cbn [data batch_sizes]. unfold char_cnn.
  set (out := char_cnn_row <$> (token_row w <$> batch)).
  assert (length out = length (token_row w <$> batch)) as Hlen by apply length_fmap.
  rewrite <- Hlen.
  destruct (pad_packed_sequence_single vzero out) as [lengths Hpad].
  { destruct (token_row w <$> batch); [done|discriminate]. }
  unfold unpack_outputs. rewrite Hpad, !result_bind_Ok. cbn [fst squeeze0].
  unfold out. by rewrite <- list_fmap_compose.
Qed.
End EncoderChunks.

(** *** The chunks *)

Lemma py_range_chunk_starts (n batch_size : Z) :
  1 <= batch_size ->
  py_range 0 n batch_size
  = Ok ((fun k : nat => Z.of_nat k * batch_size)
          <$> seq 0 (Z.to_nat ((n + batch_size - 1) / batch_size))).
Proof.
  intros Hb. unfold py_range.
  destruct (Z.eqb_spec batch_size 0); [lia|].
  destruct (Z.ltb_spec 0 batch_size); [|lia].
  rewrite Z.sub_0_r. f_equal.
Qed.

Lemma py_slice_chunk {A} (l : list A) (k : nat) (batch_size : Z) :
  1 <= batch_size ->
  py_slice l (Z.of_nat k * batch_size) (Z.of_nat k * batch_size + batch_size)
  = take (Z.to_nat batch_size) (drop (k * Z.to_nat batch_size) l).
Proof.
  intros Hb. unfold py_slice.
  set (n := Z.of_nat (length l)). set (s := Z.of_nat k * batch_size).
  assert (0 <= s) as Hs by (unfold s; nia).
  assert ((k * Z.to_nat batch_size)%nat = Z.to_nat s) as -> by (unfold s; nia).
  destruct (Z.ltb_spec s 0); [lia|].
  destruct (Z.ltb_spec (s + batch_size) 0); [lia|].
  destruct (Z.le_gt_cases n s) as [Hge|Hlt].
  - rewrite Z.min_r by lia. rewrite !drop_ge by lia. by rewrite !take_nil.
  - rewrite (Z.min_l s n) by lia.
    destruct (Z.le_gt_cases (s + batch_size) n) as [Hfull|Hpart].
    + rewrite Z.min_l by lia. f_equal. lia.
    + rewrite Z.min_r by lia.
      rewrite !take_ge; [done| |]; rewrite length_drop; lia.
Qed.

Lemma concat_chunks {A} (b : nat) :
  (0 < b)%nat ->
  forall (m : nat) (l : list A),
    (length l <= m * b)%nat ->
    concat ((fun k : nat => take b (drop (k * b) l)) <$> seq 0 m) = l.
Proof.
  intros Hb. induction m as [|m IH]; intros l Hlen.
  - destruct l; [done|cbn in Hlen; lia].
  - cbn [seq fmap list_fmap concat]. rewrite <- fmap_S_seq, <- list_fmap_compose.
    transitivity (take b l ++ drop b l); [|apply take_drop].
    f_equal.
    rewrite <- (IH (drop b l)) by (rewrite length_drop; lia).
    f_equal. apply list_fmap_ext. intros _ k _. cbn.
    rewrite drop_drop. do 2 f_equal.
Qed.

Lemma chunk_count_covers (n batch_size : Z) :
  1 <= n -> 1 <= batch_size ->
  let count := (n + batch_size - 1) / batch_size in
  1 <= count /\ n <= count * batch_size /\ (count - 1) * batch_size < n.
Proof.
  intros Hn Hb count.
  pose proof (Z.div_mod (n + batch_size - 1) batch_size ltac:(lia)) as Hdm.
  pose proof (Z.mod_pos_bound (n + batch_size - 1) batch_size ltac:(lia)) as Hmod.
  fold count in Hdm. nia.
Qed.

Lemma py_setitem_0 {A} (l : list A) (v : A) :
  (0 < length l)%nat -> py_setitem l 0 v = Ok (<[O := v]> l).
Proof. exact (py_setitem_nat l 0 v). Qed.

Lemma py_setitem_1 {A} (l : list A) (v : A) :
  (1 < length l)%nat -> py_setitem l 1 v = Ok (<[1%nat := v]> l).
Proof. exact (py_setitem_nat l 1 v). Qed.

Lemma torch_cat_ok {A} (tensors : list (list A)) :
  tensors <> [] -> torch_cat tensors = Ok (concat tensors).
Proof. by destruct tensors. Qed.

(** A padded row holds nothing but the three markers and the given ids. *)
Lemma make_padded_char_ids_entries (P : Z -> Prop) (char_ids : list Z)
    (max_word_length pad bow eow : Z) (row : list Z) :
  make_padded_char_ids char_ids max_word_length pad bow eow = Ok row ->
  P pad -> P bow -> P eow -> Forall P char_ids -> Forall P row.
Proof.
  intros Hrun Hpad Hbow Heow Hids.
  destruct (decide (1 <= max_word_length)) as [Hw|Hw].
  2: { pose proof (make_padded_char_ids_length _ _ _ _ _ _ Hrun) as Hlen.
       assert (row = []) as -> by (apply length_zero_iff_nil; lia). constructor. }
  rewrite make_padded_char_ids_eq in Hrun by done. injection Hrun as <-.
  apply Forall_insert; [|done]. apply Forall_cons. split; [done|].
  apply Forall_app. split; [by apply Forall_take | by apply Forall_replicate].
Qed.

Lemma make_padded_char_ids_default_in_int64 (char_ids : list Z) (w : Z) (row : list Z) :
  make_padded_char_ids_default char_ids w = Ok row ->
  Forall in_int64 char_ids -> Forall in_int64 row.
Proof.
  unfold make_padded_char_ids_default. intros Hrun Hids.
  apply (make_padded_char_ids_entries in_int64 _ _ _ _ _ _ Hrun); [| | |done];
    vm_compute; split; discriminate.
Qed.

Section EncoderCache.
Variable V : Type.
Variable char_cnn_row : list Z -> V.
Variable vzero : V.

Lemma get_bos_eos_token_repr_ok (filters : list (Z * Z)) (widest : Z) :
  py_max (filters.*1) = Ok widest ->
  1 <= widest + 3 ->
  exists bos eos : list Z,
    make_bos (widest + 3) = Ok bos
    /\ make_eos (widest + 3) = Ok eos
    /\ get_bos_eos_token_repr V char_cnn_row filters
       = Ok (char_cnn_row bos, char_cnn_row eos).
Proof.
  intros Hmax Hw. unfold get_bos_eos_token_repr. rewrite Hmax, result_bind_Ok.
  unfold make_bos, make_eos.
  destruct (make_padded_char_ids_default_row
              [BEGINNING_OF_SENTENCE_CHARACTER + 1] (widest + 3) Hw)
    as (bos & Hbos & Hblen & _).
  destruct (make_padded_char_ids_default_row
              [END_OF_SENTENCE_CHARACTER + 1] (widest + 3) Hw)
    as (eos & Heos & Helen & _).
  exists bos, eos. rewrite Hbos, Heos, !result_bind_Ok.
  split; [done|]. split; [done|].
  rewrite (long_tensor_2d_ok [bos; eos] (length bos)), result_bind_Ok.
  - reflexivity.
  - repeat constructor. lia.
  - apply Forall_cons. split; [|apply Forall_cons; split; [|constructor]].
    + apply (make_padded_char_ids_default_in_int64 _ _ _ Hbos).
      apply Forall_cons. split; [vm_compute; split; discriminate | constructor].
    + apply (make_padded_char_ids_default_in_int64 _ _ _ Heos).
      apply Forall_cons. split; [vm_compute; split; discriminate | constructor].
Qed.

(** What the loop over the chunks collects. *)
Lemma cached_chunks_ok (vocab : list (list Z)) (w batch_size : Z) (starts : list Z) :
  1 <= w ->
  Forall (fun s => py_slice vocab s (s + batch_size) <> []) starts ->
  result_mapM (encode_chunk V char_cnn_row vzero vocab w batch_size) starts
  = Ok ((fun chunk : list (list Z) =>
           (fun word => char_cnn_row (token_row w word)) <$> chunk)
          <$> vocab_chunks vocab batch_size starts).
Proof.
  intros Hw Hne. unfold vocab_chunks. rewrite <- list_fmap_compose.
  apply result_mapM_ok. intros s Hs. cbn.
  apply encode_chunk_ok; [done|]. rewrite Forall_forall in Hne. by apply Hne.
Qed.

(** C1 (amended): for every vocabulary list of at least two entries, a
    chunk size of at least one, a token width of at least one and an
    encoder whose widest kernel plus three is at least one,
    [cache_char_cnn_vocab] works through the vocabulary in contiguous
    chunks of [batch_size] in the original order and assembles a matrix
    with one row per entry: row 0 is the encoder's output on the
    beginning-of-sentence row, row 1 its output on the end-of-sentence row,
    and every row [i >= 2] its output on the padded character ids of
    entry [i]. *)
Theorem C1_cache_char_cnn_vocab (vocab : list (list Z)) (filters : list (Z * Z))
    (max_characters_per_token batch_size widest : Z) :
  (2 <= length vocab)%nat ->
  1 <= batch_size ->
  1 <= max_characters_per_token ->
  py_max (filters.*1) = Ok widest ->
  1 <= widest + 3 ->
  exists (matrix : list V) (bos eos : list Z) (starts : list Z),
    cache_char_cnn_vocab V char_cnn_row vzero vocab filters
      max_characters_per_token batch_size = Ok matrix
    /\ length matrix = length vocab
    /\ make_bos (widest + 3) = Ok bos
    /\ matrix !! O = Some (char_cnn_row bos)
    /\ make_eos (widest + 3) = Ok eos
    /\ matrix !! 1%nat = Some (char_cnn_row eos)
    /\ (forall (i : nat) (word : list Z),
          (2 <= i)%nat -> vocab !! i = Some word ->
          exists row : list Z,
            token_char_ids max_characters_per_token word = Ok row
            /\ matrix !! i = Some (char_cnn_row row))
    /\ py_range 0 (Z.of_nat (length vocab)) batch_size = Ok starts
    /\ (forall (k : nat) (s : Z),
          starts !! k = Some s ->
          s = Z.of_nat k * batch_size
          /\ py_slice vocab s (s + batch_size)
             = take (Z.to_nat batch_size) (drop (k * Z.to_nat batch_size) vocab)
          /\ Z.of_nat (length (py_slice vocab s (s + batch_size)))
             = Z.min batch_size (Z.of_nat (length vocab) - s))
    /\ concat (vocab_chunks vocab batch_size starts) = vocab
    /\ result_mapM (encode_chunk V char_cnn_row vzero vocab
                      max_characters_per_token batch_size) starts
       = Ok ((fun chunk : list (list Z) =>
                (fun word => char_cnn_row (token_row max_characters_per_token word))
                  <$> chunk)
               <$> vocab_chunks vocab batch_size starts).
Proof.
  intros Hn Hb Hw Hmax Hwide.
  set (n := Z.of_nat (length vocab)).
  set (count := Z.to_nat ((n + batch_size - 1) / batch_size)).
  set (starts := (fun k : nat => Z.of_nat k * batch_size) <$> seq 0 count).
  set (F := fun word => char_cnn_row (token_row max_characters_per_token word)).
  destruct (chunk_count_covers n batch_size ltac:(lia) Hb) as (Hc1 & Hc2 & Hc3).
  fold count in Hc1, Hc2, Hc3.
  assert (py_range 0 n batch_size = Ok starts) as Hrange
    by (by apply py_range_chunk_starts).
  assert (forall (k : nat) (s : Z), starts !! k = Some s ->
            s = Z.of_nat k * batch_size /\ (k < count)%nat) as Hstart.
  { intros k s Hk. unfold starts in Hk.
    apply list_lookup_fmap_Some in Hk as (k' & -> & Hk').
    apply lookup_seq in Hk' as [-> Hlt]. done. }
  assert (forall (k : nat) (s : Z), starts !! k = Some s ->
            py_slice vocab s (s + batch_size)
            = take (Z.to_nat batch_size) (drop (k * Z.to_nat batch_size) vocab)
            /\ Z.of_nat (length (py_slice vocab s (s + batch_size)))
               = Z.min batch_size (n - s)) as Hchunk.
  { intros k s Hk. destruct (Hstart k s Hk) as [-> Hlt].
    rewrite py_slice_chunk by done. split; [done|].
    rewrite length_take, length_drop. unfold n. nia. }
  assert (Forall (fun s => py_slice vocab s (s + batch_size) <> []) starts) as Hne.
  { apply Forall_lookup. intros k s Hk.
    destruct (Hchunk k s Hk) as [_ Hlen]. destruct (Hstart k s Hk) as [-> Hlt].
    intros Hnil. rewrite Hnil in Hlen. cbn [length] in Hlen. nia. }
  assert (concat (vocab_chunks vocab batch_size starts) = vocab) as Hcat.
  { unfold vocab_chunks, starts. rewrite <- list_fmap_compose.
    etransitivity;
      [|apply (concat_chunks (Z.to_nat batch_size) ltac:(lia) count vocab);
        unfold n in *; nia].
    f_equal. apply list_fmap_ext. intros _ k _. cbn.
    by apply py_slice_chunk. }
  assert (vocab_chunks vocab batch_size starts <> []) as Hsome.
  { intros Hnil. rewrite Hnil in Hcat. cbn in Hcat. rewrite <- Hcat in Hn.
    cbn in Hn. lia. }
  pose proof (cached_chunks_ok vocab max_characters_per_token batch_size starts Hw Hne)
    as Hcached.
  destruct (get_bos_eos_token_repr_ok filters widest Hmax Hwide)
    as (bos & eos & Hbos & Heos & Hrepr).
  set (combined := F <$> vocab).
  assert (length combined = length vocab) as Hlen by apply length_fmap.
  exists (<[1%nat := char_cnn_row eos]> (<[O := char_cnn_row bos]> combined)),
    bos, eos, starts.
  split.
  { unfold cache_char_cnn_vocab. fold n. rewrite Hrange, result_bind_Ok.
    rewrite Hcached, result_bind_Ok. fold F.
    rewrite torch_cat_ok by (by destruct (vocab_chunks vocab batch_size starts)).
    rewrite concat_fmap_fmap, Hcat. fold combined.
    rewrite result_bind_Ok, Hrepr, result_bind_Ok. cbn [fst snd].
    rewrite py_setitem_0, result_bind_Ok by lia.
    apply py_setitem_1. rewrite length_insert. lia. }
  split; [by rewrite !length_insert|].
  split; [done|]. split.
  { rewrite list_lookup_insert_ne by done. apply list_lookup_insert_eq. lia. }
  split; [done|]. split.
  { apply list_lookup_insert_eq. rewrite length_insert. lia. }
  split.
  { intros i word Hi Hword. exists (token_row max_characters_per_token word).
    split; [by apply token_char_ids_ok|].
    rewrite !list_lookup_insert_ne by lia.
    unfold combined. by rewrite list_lookup_fmap, Hword. }
  split; [done|]. split.
  { intros k s Hk. destruct (Hstart k s Hk) as [Hs _].
    destruct (Hchunk k s Hk) as [Hslice Hsize]. done. }
  split; [done|]. exact Hcached.
Qed.
End EncoderCache.

(** The vocabulary [<S>, </S>, <UNK>, the, cat] with chunk size 2: chunks
    of sizes 2, 2, 1 and a matrix of five rows whose first two rows are
    the encoder's outputs on the sentence-boundary rows. *)
Lemma C1_cache_char_cnn_vocab_witness :
  (2 <= length [str "<S>"%string; str "</S>"%string; str "<UNK>"%string;
                str "the"%string; str "cat"%string])%nat
  /\ 1 <= 2
  /\ 1 <= 50
  /\ py_max ([(1, 32); (2, 32); (3, 64)].*1) = Ok 3
  /\ 1 <= 3 + 3
  /\ exists (matrix : list (list Z)) (bos eos : list Z),
       cache_char_cnn_vocab (list Z) (fun row => row) []
         [str "<S>"%string; str "</S>"%string; str "<UNK>"%string;
          str "the"%string; str "cat"%string]
         [(1, 32); (2, 32); (3, 64)] 50 2 = Ok matrix
       /\ length matrix = 5%nat
       /\ make_bos 6 = Ok bos /\ matrix !! O = Some bos
       /\ make_eos 6 = Ok eos /\ matrix !! 1%nat = Some eos
       /\ length <$> vocab_chunks
                       [str "<S>"%string; str "</S>"%string; str "<UNK>"%string;
                        str "the"%string; str "cat"%string] 2 [0; 2; 4]
          = [2; 2; 1]%nat.
Proof.
  split; [simpl; lia|]. split; [lia|]. split; [lia|].
  split; [reflexivity|]. split; [lia|].
  destruct (C1_cache_char_cnn_vocab (list Z) (fun row => row) []
              [str "<S>"%string; str "</S>"%string; str "<UNK>"%string;
               str "the"%string; str "cat"%string]
              [(1, 32); (2, 32); (3, 64)] 50 2 3)
    as (matrix & bos & eos & starts & Hrun & Hlen & Hbos & H0 & Heos & H1 & _).
  - simpl. lia.
  - lia.
  - lia.
  - reflexivity.
  - lia.
  - exists matrix, bos, eos. repeat split; try done.
Defined.

(** C1, as stated, fails for a vocabulary of fewer than two entries: with
    none there is nothing to concatenate, with one the assignment of row 1
    is outside the matrix; both runs end with an exception.  So do a run
    with chunk size zero, which [range] refuses, and a run with a token
    width of zero, where no padded row can be built. *)
Lemma C1_short_vocab_counterexample :
  (~ exists matrix : list (list Z),
       cache_char_cnn_vocab (list Z) (fun row => row) [] []
         [(1, 32); (2, 32); (3, 64)] 50 256 = Ok matrix
       /\ length matrix = 0%nat)
  /\ (~ exists matrix : list (list Z),
        cache_char_cnn_vocab (list Z) (fun row => row) [] [str "<S>"%string]
          [(1, 32); (2, 32); (3, 64)] 50 256 = Ok matrix
        /\ length matrix = 1%nat)
  /\ (~ exists matrix : list (list Z),
        cache_char_cnn_vocab (list Z) (fun row => row) []
          [str "<S>"%string; str "</S>"%string; str "<UNK>"%string;
           str "the"%string; str "cat"%string]
          [(1, 32); (2, 32); (3, 64)] 50 0 = Ok matrix)
  /\ (~ exists matrix : list (list Z),
        cache_char_cnn_vocab (list Z) (fun row => row) []
          [str "<S>"%string; str "</S>"%string; str "<UNK>"%string;
           str "the"%string; str "cat"%string]
          [(1, 32); (2, 32); (3, 64)] 0 256 = Ok matrix).
Proof.
  repeat split; intros H; destruct H as (matrix & H);
    try destruct H as (H & _); vm_compute in H; discriminate H.
Qed.

(** * Further properties *)

(** ** build_vocab2id: what the map holds *)

Lemma dict_fold_absent (vocab : list (list Z)) :
  forall (start : Z) (d0 : gmap (list Z) Z) (w : list Z),
    w ∉ vocab ->
    foldl (fun d p => <[p.2 := p.1]> d) d0 (py_enumerate start vocab) !! w = d0 !! w.
Proof.
  induction vocab as [|x vocab IH]; intros start d0 w Hw; [done|].
  apply not_elem_of_cons in Hw as [Hne Hw]. cbn [py_enumerate foldl].
  rewrite IH by done. cbn [fst snd]. by rewrite lookup_insert_ne.
Qed.

Lemma dict_fold_last (vocab : list (list Z)) :
  forall (start : Z) (d0 : gmap (list Z) Z) (i : nat) (w : list Z),
    vocab !! i = Some w ->
    w ∉ drop (S i) vocab ->
    foldl (fun d p => <[p.2 := p.1]> d) d0 (py_enumerate start vocab) !! w
    = Some (start + Z.of_nat i).
Proof.
  induction vocab as [|x vocab IH]; intros start d0 i w Hi Hlast; [done|].
  cbn [py_enumerate foldl]. destruct i as [|i].
  - injection Hi as ->. cbn [drop] in Hlast. rewrite dict_fold_absent by done.
    cbn [fst snd]. rewrite lookup_insert_eq. f_equal. lia.
  - rewrite (IH (start + 1) _ i w Hi Hlast). f_equal. lia.
Qed.

Lemma last_occurrence (vocab : list (list Z)) (w : list Z) :
  w ∈ vocab -> exists i : nat, vocab !! i = Some w /\ w ∉ drop (S i) vocab.
Proof.
  induction vocab as [|x vocab IH]; intros Hw; [by apply elem_of_nil in Hw|].
  destruct (decide (w ∈ vocab)) as [Hin|Hout].
  - destruct (IH Hin) as (i & Hi & Hlast). exists (S i). done.
  - apply elem_of_cons in Hw as [->|Hw]; [|done]. exists O. done.
Qed.

(** X1: in the map [build_vocab2id] returns, a word has the one-based
    position of its last occurrence in the vocabulary list; in a list
    without repetitions this is the position of the word. *)
Theorem X1_build_vocab2id_one_based (vocab : list (list Z))
    (vocab2id : gmap (list Z) Z) (i : nat) (w : list Z) :
  build_vocab2id vocab = Ok vocab2id ->
  vocab !! i = Some w ->
  w ∉ drop (S i) vocab ->
  vocab2id !! w = Some (Z.of_nat i + 1).
Proof.
  intros Hrun Hi Hlast.
  destruct (build_vocab2id_cases vocab) as [[_ Hr]|[_ Hr]];
    rewrite Hr in Hrun; [|discriminate].
  injection Hrun as <-. unfold dict_of_pairs.
  rewrite (dict_fold_last vocab 1 ∅ i w Hi Hlast). f_equal. lia.
Qed.

Lemma X1_build_vocab2id_one_based_witness :
  exists vocab2id : gmap (list Z) Z,
    build_vocab2id [str "<S>"%string; str "</S>"%string; str "<UNK>"%string;
                    str "the"%string; str "cat"%string; str "the"%string]
    = Ok vocab2id
    /\ vocab2id !! str "the"%string = Some 6
    /\ vocab2id !! str "cat"%string = Some 5.
Proof.
  destruct (build_vocab2id [str "<S>"%string; str "</S>"%string; str "<UNK>"%string;
                            str "the"%string; str "cat"%string; str "the"%string])
    as [vocab2id|o e] eqn:Hrun; [|vm_compute in Hrun; discriminate Hrun].
  exists vocab2id. split; [done|]. split.
  - apply (X1_build_vocab2id_one_based _ vocab2id 5 (str "the"%string) Hrun);
      [reflexivity|]. cbn. apply not_elem_of_nil.
  - apply (X1_build_vocab2id_one_based _ vocab2id 4 (str "cat"%string) Hrun);
      [reflexivity|]. cbn. intros Hin.
    apply list_elem_of_singleton in Hin. vm_compute in Hin. discriminate Hin.
Defined.

(** X2: the map holds exactly the words of the list, and every id in it
    points back at its word: an id [n] of [w] lies in [1 .. len(vocab)]
    and [vocab[n - 1]] is [w]. *)
Theorem X2_build_vocab2id_domain (vocab : list (list Z))
    (vocab2id : gmap (list Z) Z) :
  build_vocab2id vocab = Ok vocab2id ->
  (forall w : list Z, vocab2id !! w = None <-> w ∉ vocab)
  /\ (forall (w : list Z) (n : Z),
        vocab2id !! w = Some n ->
        1 <= n <= Z.of_nat (length vocab)
        /\ vocab !! Z.to_nat (n - 1) = Some w).
Proof.
  intros Hrun.
  destruct (build_vocab2id_cases vocab) as [[_ Hr]|[_ Hr]];
    rewrite Hr in Hrun; [|discriminate].
  injection Hrun as <-. unfold dict_of_pairs.
  assert (forall w, w ∈ vocab ->
            exists i : nat, vocab !! i = Some w
              /\ foldl (fun d p => <[p.2 := p.1]> d) (∅ : gmap (list Z) Z)
                       (py_enumerate 1 vocab) !! w
                 = Some (1 + Z.of_nat i)) as Hin.
  { intros w Hw. destruct (last_occurrence vocab w Hw) as (i & Hi & Hlast).
    exists i. split; [done|]. by apply dict_fold_last. }
  split.
  - intros w. split.
    + intros Hnone Hw. destruct (Hin w Hw) as (i & _ & Hsome). congruence.
    + intros Hw. rewrite dict_fold_absent by done. apply lookup_empty.
  - intros w n Hn. destruct (decide (w ∈ vocab)) as [Hw|Hw].
    + destruct (Hin w Hw) as (i & Hi & Hsome).
      rewrite Hsome in Hn. injection Hn as <-.
      apply lookup_lt_Some in Hi as Hlt.
      split; [lia|]. by replace (Z.to_nat (1 + Z.of_nat i - 1)) with i by lia.
    + rewrite dict_fold_absent, lookup_empty in Hn by done. discriminate.
Qed.

Lemma X2_build_vocab2id_domain_witness :
  exists vocab2id : gmap (list Z) Z,
    build_vocab2id [str "<S>"%string; str "</S>"%string; str "<UNK>"%string;
                    str "the"%string]
    = Ok vocab2id
    /\ vocab2id !! str "dog"%string = None.
Proof.
  destruct (build_vocab2id [str "<S>"%string; str "</S>"%string; str "<UNK>"%string;
                            str "the"%string])
    as [vocab2id|o e] eqn:Hrun; [|vm_compute in Hrun; discriminate Hrun].
  exists vocab2id. split; [done|].
  apply (X2_build_vocab2id_domain _ vocab2id Hrun).
  intros Hin. repeat (apply elem_of_cons in Hin as [Hin|Hin];
                       [vm_compute in Hin; discriminate Hin|]).
  by apply elem_of_nil in Hin.
Defined.

Lemma build_vocab2id_ok (vocab : list (list Z)) (vocab2id : gmap (list Z) Z) :
  build_vocab2id vocab = Ok vocab2id ->
  vocab_contract vocab /\ vocab2id = dict_of_pairs (py_enumerate 1 vocab).
Proof.
  intros Hrun.
  destruct (build_vocab2id_cases vocab) as [[Hc Hr]|[_ Hr]];
    rewrite Hr in Hrun; [|discriminate].
  by injection Hrun as <-.
Qed.

Lemma build_vocab2id_positive (vocab : list (list Z)) (vocab2id : gmap (list Z) Z)
    (w : list Z) (n : Z) :
  build_vocab2id vocab = Ok vocab2id -> vocab2id !! w = Some n -> 1 <= n.
Proof.
  intros Hrun Hn. apply build_vocab2id_ok in Hrun as [_ ->].
  unfold dict_of_pairs in Hn.
  destruct (decide (w ∈ vocab)) as [Hw|Hw].
  - destruct (last_occurrence vocab w Hw) as (i & Hi & Hlast).
    rewrite (dict_fold_last vocab 1 ∅ i w Hi Hlast) in Hn. injection Hn as <-. lia.
  - rewrite dict_fold_absent, lookup_empty in Hn by done. discriminate.
Qed.

(** X3: with a map from [build_vocab2id] whose list names [<UNK>] only at
    its third place, a word outside the vocabulary is given the id of
    [<UNK>]: replacing every such word of a batch by [<UNK>] leaves the
    result of [batch_to_word_ids] unchanged. *)
Theorem X3_unknown_words_read_as_unk (vocab : list (list Z))
    (vocab2id : gmap (list Z) Z) (batch : list (list (list Z))) :
  build_vocab2id vocab = Ok vocab2id ->
  str "<UNK>"%string ∉ drop 3 vocab ->
  vocab2id !! str "<UNK>"%string = Some 3
  /\ batch_to_word_ids
       ((fun words : list (list Z) =>
           (fun w => if decide (w ∈ vocab) then w else str "<UNK>"%string) <$> words)
          <$> batch) vocab2id
     = batch_to_word_ids batch vocab2id.
Proof.
  intros Hrun Hlast.
  pose proof (build_vocab2id_ok vocab vocab2id Hrun) as [[Hlen Hhead] Heq].
  assert (vocab2id !! str "<UNK>"%string = Some 3) as Hunk.
  { subst vocab2id. unfold dict_of_pairs.
    rewrite (dict_fold_last vocab 1 ∅ 2 (str "<UNK>"%string)); [done| |done].
    assert (take 3 vocab !! 2%nat = Some (str "<UNK>"%string)) as H2
      by (by rewrite Hhead).
    by rewrite lookup_take_lt in H2 by lia. }
  split; [done|].
  set (g := fun w : list Z => if decide (w ∈ vocab) then w else str "<UNK>"%string).
  assert (forall w, default 3 (vocab2id !! g w) = default 3 (vocab2id !! w)) as Hg.
  { intros w. unfold g. destruct (decide (w ∈ vocab)) as [Hw|Hw]; [done|].
    rewrite Hunk. subst vocab2id. unfold dict_of_pairs.
    by rewrite dict_fold_absent, lookup_empty by done. }
  assert (forall T words,
            word_ids_of_words vocab2id T (g <$> words)
            = word_ids_of_words vocab2id T words) as Hrow.
  { intros T words. unfold word_ids_of_words.
    rewrite <- list_fmap_compose, !length_fmap. f_equal.
    apply list_fmap_ext. intros _ w _. apply Hg. }
  unfold batch_to_word_ids. destruct batch as [|first rest]; [done|].
  rewrite fmap_cons. cbn [py_first]. rewrite !result_bind_Ok, length_fmap.
  f_equal. rewrite !fmap_cons, Hrow. f_equal.
  rewrite <- list_fmap_compose. apply list_fmap_ext. intros _ words _. apply Hrow.
Qed.

Lemma X3_unknown_words_read_as_unk_witness :
  batch_to_word_ids [[str "the"%string; str "dog"%string]]
    (dict_of_pairs (py_enumerate 1
       [str "<S>"%string; str "</S>"%string; str "<UNK>"%string; str "the"%string]))
  = batch_to_word_ids [[str "the"%string; str "<UNK>"%string]]
      (dict_of_pairs (py_enumerate 1
         [str "<S>"%string; str "</S>"%string; str "<UNK>"%string; str "the"%string])).
Proof.
  destruct (X3_unknown_words_read_as_unk
              [str "<S>"%string; str "</S>"%string; str "<UNK>"%string; str "the"%string]
              (dict_of_pairs (py_enumerate 1
                 [str "<S>"%string; str "</S>"%string; str "<UNK>"%string;
                  str "the"%string]))
              [[str "the"%string; str "dog"%string]]) as [_ Heq].
  - reflexivity.
  - cbn. intros Hin. apply list_elem_of_singleton in Hin.
    vm_compute in Hin. discriminate Hin.
  - rewrite <- Heq. vm_compute. reflexivity.
Defined.

(** ** get_lengths_of_zero_padded_batch on padded rows *)

Lemma positive_count_app (l1 l2 : list Z) :
  positive_count (l1 ++ l2) = positive_count l1 + positive_count l2.
Proof. unfold positive_count. rewrite filter_app, length_app. lia. Qed.

Lemma positive_count_all (l : list Z) :
  Forall (fun v => 0 < v) l -> positive_count l = Z.of_nat (length l).
Proof. intros Hl. unfold positive_count. by rewrite filter_all. Qed.

Lemma positive_count_none (l : list Z) :
  Forall (fun v => v <= 0) l -> positive_count l = 0.
Proof.
  unfold positive_count. induction 1 as [|v l Hv Hl IH]; [done|].
  rewrite filter_cons, decide_False by lia. exact IH.
Qed.

(** X4: on a 2D batch whose rows are positive entries followed by zeros,
    the inferred length of a row is the number of its positive entries;
    and an entry that is not above zero is never counted, wherever it
    stands in a row, so a zero inside a sequence shortens its length. *)
Theorem X4_lengths_of_right_padded_rows (parts : list (list Z * nat)) :
  Forall (fun p : list Z * nat => Forall (fun v => 0 < v) p.1) parts ->
  get_lengths_of_zero_padded_batch
    (mkTensor 2 ((fun p : list Z * nat => p.1 ++ replicate p.2 0) <$> parts))
  = Ok ((fun p : list Z * nat => Z.of_nat (length p.1)) <$> parts)
  /\ (forall (before after : list Z) (v : Z),
        v <= 0 ->
        get_lengths_of_zero_padded_batch (mkTensor 2 [before ++ v :: after])
        = get_lengths_of_zero_padded_batch (mkTensor 2 [before ++ after])).
Proof.
  intros Hparts. split.
  - rewrite get_lengths_2d. f_equal. rewrite <- list_fmap_compose.
    apply Forall_fmap_ext_1. eapply Forall_impl; [exact Hparts|].
    intros [valid k] Hvalid. cbn in *.
    rewrite positive_count_app, positive_count_all by done.
    rewrite positive_count_none; [lia|]. apply Forall_replicate. lia.
  - intros before after v Hv. rewrite !get_lengths_2d. cbn [fmap list_fmap].
    do 2 f_equal. rewrite !positive_count_app.
    change (v :: after) with ([v] ++ after).
    rewrite positive_count_app, (positive_count_none [v]); [lia|].
    by repeat constructor.
Qed.

Lemma X4_lengths_of_right_padded_rows_witness :
  get_lengths_of_zero_padded_batch (mkTensor 2 [[4; 5; 3; 0]; [7; 0; 0; 0]])
  = Ok [3; 1].
Proof.
  destruct (X4_lengths_of_right_padded_rows [([4; 5; 3], 1%nat); ([7], 3%nat)])
    as [Hrun _].
  - repeat constructor.
  - exact Hrun.
Defined.

Lemma nonzero_steps_padded (steps : list (list Z)) (k c : nat) :
  Forall (fun step : list Z => Exists (fun v => 0 < v) step) steps ->
  nonzero_steps (steps ++ replicate k (replicate c 0)) = Z.of_nat (length steps).
Proof.
  intros Hsteps. unfold nonzero_steps.
  rewrite filter_app, length_app, filter_all by done.
  replace (filter (fun step : list Z => Exists (fun v => 0 < v) step)
             (replicate k (replicate c 0))) with (@nil (list Z)); [cbn; lia|].
  symmetry. induction k as [|k IH]; [done|]. cbn [replicate].
  rewrite filter_cons, decide_False; [exact IH|].
  intros Hex. apply Exists_exists in Hex as (v & Hv & Hpos).
  apply elem_of_replicate in Hv as [-> _]. lia.
Qed.

(** X5: on a 3D batch whose sequences are timesteps holding a positive
    entry followed by all-zero timesteps, the inferred length of a
    sequence is the number of its timesteps before the padding. *)
Theorem X5_lengths_of_right_padded_steps (parts : list (list (list Z) * nat)) (c : nat) :
  Forall (fun p : list (list Z) * nat =>
            Forall (fun step : list Z => Exists (fun v => 0 < v) step) p.1) parts ->
  get_lengths_of_zero_padded_batch
    (mkTensor 3 ((fun p : list (list Z) * nat =>
                    p.1 ++ replicate p.2 (replicate c 0)) <$> parts))
  = Ok ((fun p : list (list Z) * nat => Z.of_nat (length p.1)) <$> parts).
Proof.
  intros Hparts. rewrite get_lengths_3d. f_equal. rewrite <- list_fmap_compose.
  apply Forall_fmap_ext_1. eapply Forall_impl; [exact Hparts|].
  intros [steps k] Hsteps. cbn in *. by apply nonzero_steps_padded.
Qed.

Lemma X5_lengths_of_right_padded_steps_witness :
  get_lengths_of_zero_padded_batch
    (mkTensor 3 [[[0; 2]; [1; 0]; [0; 0]]; [[3; 3]; [0; 0]; [0; 0]]])
  = Ok [2; 1].
Proof.
  apply (X5_lengths_of_right_padded_steps
           [([[0; 2]; [1; 0]], 1%nat); ([[3; 3]], 2%nat)] 2).
  apply (bool_decide_unpack _). vm_compute. exact I.
Defined.

(** ** generate_mask_from_lengths: rows, success, and back to lengths *)

Lemma mask_row_eq (len : Z) (T : nat) :
  (fun t : nat => ge_long len (Z.of_nat t + 1)) <$> seq 0 T
  = replicate (Nat.min (Z.to_nat len) T) 1
    ++ replicate (T - Nat.min (Z.to_nat len) T) 0.
Proof.
  set (k := Nat.min (Z.to_nat len) T).
  replace T with (k + (T - k))%nat at 1 by lia.
  rewrite seq_app, fmap_app. f_equal.
  - rewrite (fmap_const_replicate _ 1); [by rewrite length_seq|].
    intros t Ht. apply elem_of_seq in Ht. unfold ge_long.
    destruct (Z.leb_spec (Z.of_nat t + 1) len); lia.
  - rewrite (fmap_const_replicate _ 0); [by rewrite length_seq|].
    intros t Ht. apply elem_of_seq in Ht. unfold ge_long.
    destruct (Z.leb_spec (Z.of_nat t + 1) len); lia.
Qed.

(** X6: with one length per row, each row of the mask is a run of ones
    followed by zeros; the run has [lengths[b]] ones, none when the length
    is zero or negative and [max_timesteps] when the length is larger.
    Reading the lengths of the mask back gives the lengths clipped to
    [0 .. max_timesteps]. *)
Theorem X6_mask_rows_and_back (batch_size max_timesteps : Z) (lengths : list Z) :
  0 <= max_timesteps ->
  Z.of_nat (length lengths) = batch_size ->
  exists mask : list (list Z),
    generate_mask_from_lengths batch_size max_timesteps lengths = Ok mask
    /\ mask = (fun len =>
                 replicate (Z.to_nat (Z.min len max_timesteps)) 1
                 ++ replicate (Z.to_nat (max_timesteps - Z.max 0 (Z.min len max_timesteps))) 0)
              <$> lengths
    /\ get_lengths_of_zero_padded_batch (mkTensor 2 mask)
       = Ok ((fun len => Z.max 0 (Z.min len max_timesteps)) <$> lengths).
Proof.
  intros Ht Hlen. rewrite generate_mask_from_lengths_eq by done.
  eexists. split; [reflexivity|].
  assert (forall len,
            (fun t : nat => ge_long len (Z.of_nat t + 1)) <$> seq 0 (Z.to_nat max_timesteps)
            = replicate (Z.to_nat (Z.min len max_timesteps)) 1
              ++ replicate (Z.to_nat (max_timesteps - Z.max 0 (Z.min len max_timesteps))) 0)
    as Hrow.
  { intros len. rewrite mask_row_eq. f_equal; f_equal; lia. }
  split.
  - apply list_fmap_ext. intros _ len _. apply Hrow.
  - rewrite get_lengths_2d. f_equal. rewrite <- list_fmap_compose.
    apply list_fmap_ext. intros _ len _. cbn. rewrite Hrow.
    rewrite positive_count_app, positive_count_all, positive_count_none.
    + rewrite length_replicate. lia.
    + apply Forall_replicate. lia.
    + apply Forall_replicate. lia.
Qed.

Lemma X6_mask_rows_and_back_witness :
  0 <= 4 /\ Z.of_nat (length [3; -2; 9]) = 3
  /\ generate_mask_from_lengths 3 4 [3; -2; 9]
     = Ok [[1; 1; 1; 0]; [0; 0; 0; 0]; [1; 1; 1; 1]]
  /\ get_lengths_of_zero_padded_batch
       (mkTensor 2 [[1; 1; 1; 0]; [0; 0; 0; 0]; [1; 1; 1; 1]])
     = Ok [3; 0; 4].
Proof.
  split; [lia|]. split; [reflexivity|].
  destruct (X6_mask_rows_and_back 3 4 [3; -2; 9]) as (mask & Hrun & -> & Hback).
  - lia.
  - reflexivity.
  - split; [exact Hrun | exact Hback].
Defined.

(** X7: [generate_mask_from_lengths] returns a mask exactly when neither
    size is negative and the number of lengths is the batch size, or is
    one, or the batch size is one; in every other case it ends with an
    exception of the library. *)
Theorem X7_mask_success_condition (batch_size max_timesteps : Z) (lengths : list Z) :
  ((exists mask, generate_mask_from_lengths batch_size max_timesteps lengths = Ok mask)
   <-> 0 <= batch_size /\ 0 <= max_timesteps
       /\ (Z.of_nat (length lengths) = batch_size
           \/ length lengths = 1%nat \/ batch_size = 1))
  /\ (forall o e,
        generate_mask_from_lengths batch_size max_timesteps lengths = Err o e ->
        o = Library /\ e = RuntimeError).
Proof.
  unfold generate_mask_from_lengths, new_ones.
  destruct (Z.ltb_spec batch_size 0) as [Hb|Hb]; cbn [orb].
  { split; [split; [intros [m H]; discriminate H | lia]|].
    intros o e [= <- <-]. done. }
  destruct (Z.ltb_spec max_timesteps 0) as [Ht|Ht]; cbn [orb].
  { split; [split; [intros [m H]; discriminate H | lia]|].
    intros o e [= <- <-]. done. }
  rewrite result_bind_Ok. unfold unsqueeze_ge, py_repeat.
  rewrite length_fmap, length_replicate.
  destruct (bool_decide_reflect (length lengths = Z.to_nat batch_size)) as [Heq|Hne].
  { split; [split; [intros _; lia | eauto]|]. intros o e H. discriminate H. }
  destruct lengths as [|l [|l' ls]].
  - destruct (Z.to_nat batch_size) as [|[|n]] eqn:Hn; cbn.
    + done.
    + split; [split; [intros _; lia | eauto]|]. intros o e H. discriminate H.
    + split; [split; [intros [m H]; discriminate H | cbn; lia]|].
      intros o e [= <- <-]. done.
  - split; [split; [intros _; cbn; lia | eauto]|]. intros o e H. discriminate H.
  - destruct (Z.to_nat batch_size) as [|[|n]] eqn:Hn; cbn.
    + split; [split; [intros [m H]; discriminate H | cbn; lia]|].
      intros o e [= <- <-]. done.
    + split; [split; [intros _; lia | eauto]|]. intros o e H. discriminate H.
    + split; [split; [intros [m H]; discriminate H | cbn in *; lia]|].
      intros o e [= <- <-]. done.
Qed.

(** ** word_to_char_ids: the ids of a word *)

Lemma lor_byte (a b : Z) : 0 <= a < 256 -> 0 <= b < 256 -> 0 <= Z.lor a b < 256.
Proof.
  intros Ha Hb. assert (0 <= Z.lor a b) as Hnn by (apply Z.lor_nonneg; lia).
  split; [done|].
  destruct (Z.eq_dec (Z.lor a b) 0) as [->|Hne]; [lia|].
  apply (Z.log2_lt_pow2 _ 8); [lia|].
  rewrite Z.log2_lor by lia.
  apply Z.max_lub_lt.
  - destruct (Z.eq_dec a 0) as [->|]; [done|]. apply Z.log2_lt_pow2; lia.
  - destruct (Z.eq_dec b 0) as [->|]; [done|]. apply Z.log2_lt_pow2; lia.
Qed.

Lemma land_low6 (x : Z) : 0 <= Z.land x 0x3F < 256.
Proof.
  change 0x3F with (Z.ones 6). rewrite Z.land_ones by lia.
  pose proof (Z.mod_pos_bound x (2 ^ 6) ltac:(lia)). lia.
Qed.

Lemma shiftr_bound (c k bound : Z) :
  0 <= k -> 0 <= c < bound * 2 ^ k -> 0 <= Z.shiftr c k < bound.
Proof.
  intros Hk [Hc Hlt]. rewrite Z.shiftr_div_pow2 by done. split.
  - apply Z.div_pos; lia.
  - apply Z.div_lt_upper_bound; lia.
Qed.

Lemma utf8_encode_char_bytes (c : Z) :
  0 <= c <= 0x10FFFF -> Forall (fun b => 0 <= b <= 255) (utf8_encode_char c).
Proof.
  intros Hc. unfold utf8_encode_char.
  assert (forall a b, 0 <= a < 256 -> 0 <= b < 256 -> 0 <= Z.lor a b <= 255) as Hlor.
  { intros a b Ha Hb. pose proof (lor_byte a b Ha Hb). lia. }
  destruct (Z.ltb_spec c 0x80).
  { apply Forall_cons_2; [lia | apply Forall_nil_2]. }
  destruct (Z.ltb_spec c 0x800).
  { pose proof (shiftr_bound c 6 32 ltac:(lia) ltac:(lia)) as Hs.
    repeat apply Forall_cons_2; try apply Forall_nil_2;
      apply Hlor; first [lia | apply land_low6]. }
  destruct ((0xD800 <=? c) && (c <=? 0xDFFF)); [apply Forall_nil_2|].
  destruct (Z.ltb_spec c 0x10000).
  { pose proof (shiftr_bound c 12 16 ltac:(lia) ltac:(lia)) as Hs.
    repeat apply Forall_cons_2; try apply Forall_nil_2;
      apply Hlor; first [lia | apply land_low6]. }
  pose proof (shiftr_bound c 18 8 ltac:(lia) ltac:(lia)) as Hs.
  repeat apply Forall_cons_2; try apply Forall_nil_2;
    apply Hlor; first [lia | apply land_low6].
Qed.

Lemma word_to_char_ids_range (word : list Z) :
  Forall (fun c => 0 <= c <= 0x10FFFF) word ->
  Forall (fun char_id => 1 <= char_id <= 256) (word_to_char_ids word).
Proof.
  intros Hword. unfold word_to_char_ids, encode_utf8_ignore.
  apply Forall_fmap. induction Hword as [|c word Hc Hword IH]; [constructor|].
  rewrite bind_cons. apply Forall_app. split; [|exact IH].
  eapply Forall_impl; [apply utf8_encode_char_bytes, Hc|].
  intros b Hb. unfold compose. cbv beta in Hb. lia.
Qed.

(** X8: every id [word_to_char_ids] gives to a word of Unicode code points
    lies in 1 .. 256; none of them is one of the five reserved codes
    (257 .. 261) that mark sentence and word boundaries and padding. *)
Theorem X8_char_ids_never_reserved (word : list Z) :
  Forall (fun c => 0 <= c <= 0x10FFFF) word ->
  Forall (fun char_id =>
            1 <= char_id <= 256
            /\ char_id <> BEGINNING_OF_SENTENCE_CHARACTER + 1
            /\ char_id <> END_OF_SENTENCE_CHARACTER + 1
            /\ char_id <> BEGINNING_OF_WORD_CHARACTER + 1
            /\ char_id <> END_OF_WORD_CHARACTER + 1
            /\ char_id <> PADDING_CHARACTER + 1)
         (word_to_char_ids word).
Proof.
  intros Hword. eapply Forall_impl; [by apply word_to_char_ids_range|].
  intros char_id Hid. cbv beta in Hid.
  unfold BEGINNING_OF_SENTENCE_CHARACTER, END_OF_SENTENCE_CHARACTER,
    BEGINNING_OF_WORD_CHARACTER, END_OF_WORD_CHARACTER, PADDING_CHARACTER. lia.
Qed.

Lemma X8_char_ids_never_reserved_witness :
  Forall (fun char_id => 1 <= char_id <= 256)
         (word_to_char_ids [0x63; 0xE9; 0x20AC; 0xD800; 0x1F600]).
Proof.
  eapply Forall_impl.
  - apply (X8_char_ids_never_reserved [0x63; 0xE9; 0x20AC; 0xD800; 0x1F600]).
    repeat constructor; lia.
  - intros char_id H. cbv beta in H. tauto.
Defined.

(** ** make_padded_char_ids: what a row tells about its input *)

Lemma padded_row_inj (cs1 cs2 : list Z) (max_word_length pad bow eow : Z) :
  eow ∉ cs1 -> eow ∉ cs2 ->
  Z.of_nat (length cs1) <= max_word_length - 2 ->
  Z.of_nat (length cs2) <= max_word_length - 2 ->
  make_padded_char_ids cs1 max_word_length pad bow eow
  = make_padded_char_ids cs2 max_word_length pad bow eow ->
  cs1 = cs2.
Proof.
  intros H1 H2 Hfit1 Hfit2.
  rewrite !make_padded_char_ids_fits by done. intros [= Heq].
  by destruct (not_elem_of_app_cons_inv_l _ _ _ _ _ _ H2 H1 Heq) as [-> _].
Qed.

(** X9: among the words whose UTF-8 bytes fit in [max_word_length - 2]
    slots, the padded row determines the bytes: two such words with the
    same row have the same UTF-8 encoding. *)
Theorem X9_fitting_words_keep_their_bytes (w1 w2 : list Z) (max_word_length : Z) :
  Forall (fun c => 0 <= c <= 0x10FFFF) w1 ->
  Forall (fun c => 0 <= c <= 0x10FFFF) w2 ->
  Z.of_nat (length (encode_utf8_ignore w1)) <= max_word_length - 2 ->
  Z.of_nat (length (encode_utf8_ignore w2)) <= max_word_length - 2 ->
  make_padded_char_ids_default (word_to_char_ids w1) max_word_length
  = make_padded_char_ids_default (word_to_char_ids w2) max_word_length ->
  encode_utf8_ignore w1 = encode_utf8_ignore w2.
Proof.
  intros Hv1 Hv2 Hfit1 Hfit2 Hrows.
  assert (forall w, Forall (fun c => 0 <= c <= 0x10FFFF) w ->
            END_OF_WORD_CHARACTER + 1 ∉ word_to_char_ids w) as Hfree.
  { intros w Hw Hin. pose proof (word_to_char_ids_range w Hw) as Hrange.
    rewrite Forall_forall in Hrange. specialize (Hrange _ Hin).
    unfold END_OF_WORD_CHARACTER in Hrange. lia. }
  assert (Inj (=) (=) (fun char_id : Z => char_id + 1)) as Hinj
    by (intros x y ?; lia).
  apply (list_fmap_eq_inj (fun char_id : Z => char_id + 1) Hinj).
  apply (padded_row_inj _ _ max_word_length (PADDING_CHARACTER + 1)
           (BEGINNING_OF_WORD_CHARACTER + 1) (END_OF_WORD_CHARACTER + 1));
    try (by apply Hfree);
    try (unfold word_to_char_ids; rewrite length_fmap; done).
  exact Hrows.
Qed.

Lemma X9_fitting_words_keep_their_bytes_witness :
  encode_utf8_ignore (str "cat"%string) = encode_utf8_ignore [0x63; 0x61; 0xD800; 0x74].
Proof.
  apply (X9_fitting_words_keep_their_bytes (str "cat"%string) [0x63; 0x61; 0xD800; 0x74] 6).
  - apply (bool_decide_unpack _). vm_compute. exact I.
  - apply (bool_decide_unpack _). vm_compute. exact I.
  - vm_compute. discriminate.
  - vm_compute. discriminate.
  - reflexivity.
Defined.

(** X10: two id sequences that are both too long for the row (at least
    [max_word_length - 1] ids) get the same row exactly when they agree on
    their first [max_word_length - 2] ids: what follows is dropped without
    a trace. *)
Theorem X10_overlong_rows_collide (cs1 cs2 : list Z)
    (max_word_length pad bow eow : Z) :
  2 <= max_word_length ->
  max_word_length - 1 <= Z.of_nat (length cs1) ->
  max_word_length - 1 <= Z.of_nat (length cs2) ->
  make_padded_char_ids cs1 max_word_length pad bow eow
  = make_padded_char_ids cs2 max_word_length pad bow eow
  <-> take (Z.to_nat (max_word_length - 2)) cs1
      = take (Z.to_nat (max_word_length - 2)) cs2.
Proof.
  intros Hw H1 H2. rewrite !make_padded_char_ids_overflow by done. split.
  - intros [= Heq]. by apply app_inj_tail in Heq as [-> _].
  - by intros ->.
Qed.

Lemma X10_overlong_rows_collide_witness :
  make_padded_char_ids_default (word_to_char_ids (str "elephants"%string)) 6
  = make_padded_char_ids_default (word_to_char_ids (str "elephantine"%string)) 6.
Proof.
  apply (X10_overlong_rows_collide _ _ 6).
  - lia.
  - vm_compute. discriminate.
  - vm_compute. discriminate.
  - reflexivity.
Defined.

(** X11: for a width of at least one, the beginning-of-sentence row and
    the end-of-sentence row are the same row exactly when the width is at
    most two: a row that narrow has no slot left for the sentence code. *)
Theorem X11_sentence_rows_need_width_three (max_word_length : Z) :
  1 <= max_word_length ->
  make_bos max_word_length = make_eos max_word_length <-> max_word_length <= 2.
Proof.
  intros Hw. unfold make_bos, make_eos, make_padded_char_ids_default.
  destruct (Z.le_gt_cases max_word_length 2) as [Hle|Hgt].
  - split; [done|]. intros _.
    assert (max_word_length = 1 \/ max_word_length = 2) as [-> | ->] by lia;
      reflexivity.
  - rewrite !make_padded_char_ids_fits by (cbn [length]; lia).
    split; [|lia]. intros Heq. vm_compute in Heq. discriminate Heq.
Qed.

Lemma X11_sentence_rows_need_width_three_witness :
  1 <= 2 /\ make_bos 2 = make_eos 2 /\ make_bos 3 <> make_eos 3.
Proof.
  split; [lia|]. split.
  - apply (X11_sentence_rows_need_width_three 2); lia.
  - intros Heq. apply (X11_sentence_rows_need_width_three 3) in Heq; lia.
Defined.

(** ** batch_to_char_ids and batch_to_word_ids on a well-formed batch *)

Lemma torch_stack_uniform {k} (tensors : list (nested k)) (sh : list nat) :
  tensors <> [] ->
  Forall (fun u => shape k u = sh) tensors ->
  torch_stack tensors = Ok tensors.
Proof.
  intros Hne Hall. unfold torch_stack. destruct tensors as [|t rest]; [done|].
  apply Forall_cons in Hall as [Ht Hrest].
  replace (forallb (fun u => bool_decide (shape k u = shape k t)) rest) with true; [done|].
  symmetry. apply forallb_forall. intros u Hu. apply bool_decide_eq_true.
  rewrite Forall_forall in Hrest. rewrite Ht. apply Hrest. by apply list_elem_of_In.
Qed.

(** The rows of one sequence: its tokens, then all-zero rows. *)
Lemma char_ids_of_words_padded (w : Z) (T : nat) (words : list (list Z)) :
  1 <= w -> (1 <= T)%nat -> (length words <= T)%nat ->
  char_ids_of_words w (Z.of_nat T) words
  = Ok ((token_row w <$> words)
          ++ replicate (T - length words) (replicate (Z.to_nat w) 0)).
Proof.
  intros Hw HT Hlen. unfold char_ids_of_words.
  rewrite token_rows_ok, result_bind_Ok by done. rewrite length_fmap.
  unfold py_repeat.
  replace (Z.to_nat (Z.of_nat T - Z.of_nat (length words)))
    with (T - length words)%nat by lia.
  apply (torch_stack_uniform (k := 1) _ [Z.to_nat w]).
  - intros Hnil. apply (f_equal length) in Hnil.
    rewrite length_app, length_fmap, length_replicate in Hnil. cbn in Hnil. lia.
  - apply Forall_app. split.
    + apply Forall_fmap, Forall_forall. intros word _. unfold compose.
      rewrite shape_1. f_equal.
      destruct (token_char_ids_ok w word Hw) as (_ & Hl & _). lia.
    + apply Forall_replicate. by rewrite shape_1, length_replicate.
Qed.

Lemma batch_to_char_ids_ok (batch : list (list (list Z))) (first : list (list Z))
    (w : Z) :
  1 <= w -> first <> [] -> head batch = Some first ->
  Forall (fun words : list (list Z) => (length words <= length first)%nat) batch ->
  batch_to_char_ids batch w
  = Ok ((fun words : list (list Z) =>
           (token_row w <$> words)
             ++ replicate (length first - length words) (replicate (Z.to_nat w) 0))
          <$> batch).
Proof.
  intros Hw Hne Hhead Hlongest.
  assert (1 <= length first)%nat as HT by (destruct first; [done|cbn; lia]).
  apply head_Some in Hhead as [rest ->].
  unfold batch_to_char_ids. cbn [py_first]. rewrite result_bind_Ok.
  set (h := fun words : list (list Z) =>
              (token_row w <$> words)
                ++ replicate (length first - length words) (replicate (Z.to_nat w) 0)).
  rewrite (result_mapM_ok _ h), result_bind_Ok.
  2: { intros words Hin. rewrite Forall_forall in Hlongest.
       apply char_ids_of_words_padded; auto. }
  apply (torch_stack_uniform (k := 2) _ [length first; Z.to_nat w]); [done|].
  apply Forall_fmap, Forall_forall. intros words Hin. unfold compose.
  rewrite Forall_forall in Hlongest. specialize (Hlongest words Hin).
  assert (length (h words) = length first) as Hlen.
  { unfold h. rewrite length_app, length_fmap, length_replicate. lia. }
  change (shape 2 (h words))
    with (length (h words) :: match h words with
                              | [] => replicate 1 O
                              | x :: _ => shape 1 x
                              end).
  rewrite Hlen. f_equal.
  destruct (h words) as [|x xs] eqn:Hh; [cbn in Hlen; lia|].
  rewrite shape_1. f_equal.
  assert (x ∈ h words) as Hx by (rewrite Hh; left).
  unfold h in Hx. apply elem_of_app in Hx as [Hx|Hx].
  - apply list_elem_of_fmap in Hx as (word & -> & _).
    destruct (token_char_ids_ok w word Hw) as (_ & Hl & _). lia.
  - apply elem_of_replicate in Hx as [-> _]. apply length_replicate.
Qed.

(** X12: for a width of at least one and a batch whose first sequence is
    non-empty and the longest, [batch_to_char_ids] returns one matrix per
    sequence with [len(batch[0])] rows of [max_characters_per_token] ids:
    the padded row of each token, then all-zero rows.  The length
    inference reads the sequence lengths back from this tensor. *)
Theorem X12_batch_to_char_ids_layout (batch : list (list (list Z)))
    (first : list (list Z)) (max_characters_per_token : Z) :
  1 <= max_characters_per_token ->
  first <> [] ->
  head batch = Some first ->
  Forall (fun words : list (list Z) => (length words <= length first)%nat) batch ->
  exists tensor : list (list (list Z)),
    batch_to_char_ids batch max_characters_per_token = Ok tensor
    /\ length tensor = length batch
    /\ Forall (fun rows : list (list Z) =>
                 length rows = length first
                 /\ Forall (fun row : list Z =>
                              Z.of_nat (length row) = max_characters_per_token) rows)
              tensor
    /\ (forall (b : nat) (words : list (list Z)),
          batch !! b = Some words ->
          exists rows : list (list Z),
            tensor !! b = Some rows
            /\ (forall (t : nat) (word : list Z),
                  words !! t = Some word ->
                  exists row : list Z,
                    token_char_ids max_characters_per_token word = Ok row
                    /\ rows !! t = Some row)
            /\ (forall t : nat,
                  (length words <= t < length first)%nat ->
                  rows !! t = Some (replicate (Z.to_nat max_characters_per_token) 0)))
    /\ get_lengths_of_zero_padded_batch (mkTensor 3 tensor)
       = Ok ((fun words : list (list Z) => Z.of_nat (length words)) <$> batch).
Proof.
  intros Hw Hne Hhead Hlongest.
  rewrite (batch_to_char_ids_ok batch first max_characters_per_token) by done.
  set (w := max_characters_per_token) in *.
  set (h := fun words : list (list Z) =>
              (token_row w <$> words)
                ++ replicate (length first - length words) (replicate (Z.to_nat w) 0)).
  exists (h <$> batch). split; [done|]. split; [by rewrite length_fmap|].
  split; [|split].
  - apply Forall_fmap. eapply Forall_impl; [exact Hlongest|].
    intros words Hle. unfold compose, h. cbv beta in Hle. split.
    + rewrite length_app, length_fmap, length_replicate. lia.
    + apply Forall_app. split.
      * apply Forall_fmap, Forall_forall. intros word _. unfold compose.
        by destruct (token_char_ids_ok w word Hw) as (_ & Hl & _).
      * apply Forall_replicate. rewrite length_replicate. lia.
  - intros b words Hb. exists (h words). split.
    { by rewrite list_lookup_fmap, Hb. }
    unfold h. split.
    + intros t word Ht. exists (token_row w word).
      split; [by apply token_char_ids_ok|].
      rewrite lookup_app_l by (rewrite length_fmap; by eapply lookup_lt_Some).
      by rewrite list_lookup_fmap, Ht.
    + intros t [Hlo Hhi].
      rewrite lookup_app_r by (rewrite length_fmap; lia).
      rewrite length_fmap. apply lookup_replicate_2. lia.
  - rewrite get_lengths_3d. f_equal. rewrite <- list_fmap_compose.
    apply list_fmap_ext. intros _ words _. unfold compose, h.
    rewrite nonzero_steps_padded; [by rewrite length_fmap|].
    apply Forall_fmap, Forall_forall. intros word _. unfold compose.
    by apply token_char_ids_ok.
Qed.

Lemma X12_batch_to_char_ids_layout_witness :
  exists tensor : list (list (list Z)),
    batch_to_char_ids [[str "the"%string; str "<S>"%string]; [str "dog"%string]] 5
    = Ok tensor
    /\ get_lengths_of_zero_padded_batch (mkTensor 3 tensor) = Ok [2; 1].
Proof.
  destruct (X12_batch_to_char_ids_layout
              [[str "the"%string; str "<S>"%string]; [str "dog"%string]]
              [str "the"%string; str "<S>"%string] 5)
    as (tensor & Hrun & _ & _ & _ & Hlen).
  - lia.
  - discriminate.
  - reflexivity.
  - repeat constructor.
  - exists tensor. split; [exact Hrun | exact Hlen].
Defined.

Lemma batch_to_word_ids_ok (batch : list (list (list Z)))
    (vocab2id : gmap (list Z) Z) (first : list (list Z)) :
  head batch = Some first ->
  Forall (fun words : list (list Z) => (length words <= length first)%nat) batch ->
  Forall (Forall (fun word => forall word_id,
                    vocab2id !! word = Some word_id -> in_int64 word_id)) batch ->
  batch_to_word_ids batch vocab2id
  = Ok (word_ids_of_words vocab2id (Z.of_nat (length first)) <$> batch).
Proof.
  intros Hhead Hlongest Hids. apply head_Some in Hhead as [rest ->].
  unfold batch_to_word_ids. cbn [py_first]. rewrite result_bind_Ok.
  apply (long_tensor_2d_ok _ (length first)).
  - apply Forall_fmap. eapply Forall_impl; [exact Hlongest|].
    intros words Hle. unfold compose. cbv beta in Hle.
    rewrite length_word_ids_of_words. lia.
  - apply Forall_fmap. eapply Forall_impl; [exact Hids|].
    intros words Hwords. unfold compose. by apply in_int64_word_ids_of_words.
Qed.

Lemma build_vocab2id_at_most_length (vocab : list (list Z))
    (vocab2id : gmap (list Z) Z) (w : list Z) (n : Z) :
  build_vocab2id vocab = Ok vocab2id -> vocab2id !! w = Some n ->
  n <= Z.of_nat (length vocab).
Proof.
  intros Hrun Hn. apply build_vocab2id_ok in Hrun as [_ ->].
  unfold dict_of_pairs in Hn.
  destruct (decide (w ∈ vocab)) as [Hw|Hw].
  - destruct (last_occurrence vocab w Hw) as (i & Hi & Hlast).
    rewrite (dict_fold_last vocab 1 ∅ i w Hi Hlast) in Hn. injection Hn as <-.
    apply lookup_lt_Some in Hi. lia.
  - rewrite dict_fold_absent, lookup_empty in Hn by done. discriminate.
Qed.

(** X13: the empty batch is refused by both functions at [batch[0]].  A
    batch whose first sequence is empty is always refused by
    [batch_to_char_ids], which has no row to stack, whereas
    [batch_to_word_ids] returns the empty rows of a batch of empty
    sequences. *)
Theorem X13_empty_batches :
  (forall max_characters_per_token,
     batch_to_char_ids [] max_characters_per_token = Err Library IndexError)
  /\ (forall vocab2id, batch_to_word_ids [] vocab2id = Err Library IndexError)
  /\ (forall (rest : list (list (list Z))) max_characters_per_token,
        batch_to_char_ids ([] :: rest) max_characters_per_token
        = Err Library RuntimeError)
  /\ (forall (n : nat) vocab2id,
        batch_to_word_ids (replicate (S n) []) vocab2id = Ok (replicate (S n) [])).
Proof.
  split; [done|]. split; [done|]. split.
  - intros rest w. reflexivity.
  - intros n d. rewrite (batch_to_word_ids_ok _ d []).
    + by rewrite fmap_replicate.
    + reflexivity.
    + apply Forall_replicate. reflexivity.
    + apply Forall_replicate. constructor.
Qed.

(** X14: with a map from [build_vocab2id], built from a list whose length
    fits a 64-bit signed integer (as the length of every Python list does),
    and a batch whose first sequence is the longest, the length inference
    reads the sequence lengths back from the tensor of [batch_to_word_ids]:
    every id, the one of unknown words included, is above zero, and only
    the padding is zero. *)
Theorem X14_word_ids_keep_lengths (vocab : list (list Z))
    (vocab2id : gmap (list Z) Z) (batch : list (list (list Z)))
    (first : list (list Z)) :
  build_vocab2id vocab = Ok vocab2id ->
  Z.of_nat (length vocab) <= int64_max ->
  head batch = Some first ->
  Forall (fun words : list (list Z) => (length words <= length first)%nat) batch ->
  exists tensor : list (list Z),
    batch_to_word_ids batch vocab2id = Ok tensor
    /\ Forall (fun row : list Z => Forall (fun v => 0 <= v) row) tensor
    /\ get_lengths_of_zero_padded_batch (mkTensor 2 tensor)
       = Ok ((fun words : list (list Z) => Z.of_nat (length words)) <$> batch).
Proof.
  intros Hbuild Hsize Hhead Hlongest.
  rewrite (batch_to_word_ids_ok batch vocab2id first); [|done|done|].
  2: { apply Forall_forall. intros words _. apply Forall_forall.
       intros word _ word_id Hid.
       pose proof (build_vocab2id_positive vocab vocab2id word word_id Hbuild Hid).
       pose proof (build_vocab2id_at_most_length vocab vocab2id word word_id Hbuild Hid).
       unfold in_int64, int64_min. lia. }
  eexists. split; [reflexivity|].
  assert (forall words : list (list Z),
            Forall (fun v => 0 < v)
                   ((fun word => default 3 (vocab2id !! word)) <$> words)) as Hpos.
  { intros words. apply Forall_fmap, Forall_forall. intros word _. unfold compose.
    destruct (vocab2id !! word) as [n|] eqn:Hn; cbn; [|lia].
    pose proof (build_vocab2id_positive vocab vocab2id word n Hbuild Hn). lia. }
  split.
  - apply Forall_fmap, Forall_forall. intros words _. unfold compose.
    unfold word_ids_of_words. apply Forall_app. split.
    + eapply Forall_impl; [apply Hpos|]. intros v Hv. cbv beta in Hv. lia.
    + apply Forall_replicate. lia.
  - rewrite get_lengths_2d. f_equal. rewrite <- list_fmap_compose.
    apply list_fmap_ext. intros _ words _. unfold compose, word_ids_of_words.
    rewrite positive_count_app, positive_count_all by apply Hpos.
    rewrite positive_count_none by (apply Forall_replicate; lia).
    rewrite length_fmap. lia.
Qed.

Lemma X14_word_ids_keep_lengths_witness :
  exists tensor : list (list Z),
    batch_to_word_ids [[str "the"%string; str "dog"%string]; [str "cat"%string]]
      (dict_of_pairs (py_enumerate 1
         [str "<S>"%string; str "</S>"%string; str "<UNK>"%string; str "the"%string]))
    = Ok tensor
    /\ get_lengths_of_zero_padded_batch (mkTensor 2 tensor) = Ok [2; 1].
Proof.
  destruct (X14_word_ids_keep_lengths
              [str "<S>"%string; str "</S>"%string; str "<UNK>"%string; str "the"%string]
              (dict_of_pairs (py_enumerate 1
                 [str "<S>"%string; str "</S>"%string; str "<UNK>"%string;
                  str "the"%string]))
              [[str "the"%string; str "dog"%string]; [str "cat"%string]]
              [str "the"%string; str "dog"%string])
    as (tensor & Hrun & _ & Hlen).
  - reflexivity.
  - vm_compute. discriminate.
  - reflexivity.
  - repeat constructor.
  - exists tensor. split; [exact Hrun | exact Hlen].
Defined.

(** ** sort_batch_by_length: what the sorted batch is *)

Lemma select_rows_omap {A} (x : list A) (index : list nat) :
  forall picked : list A,
    result_mapM (lookup_or_err x) index = Ok picked ->
    picked = omap (fun i => x !! i) index.
Proof.
  induction index as [|i index IH]; intros picked Hrun; cbn [result_mapM] in Hrun.
  - by injection Hrun as <-.
  - apply result_bind_ok in Hrun as (a & Ha & Hrun).
    apply result_bind_ok in Hrun as (rest & Hrest & Hrun).
    injection Hrun as <-. cbn [omap list_omap].
    unfold lookup_or_err in Ha. destruct (x !! i) as [a'|]; [|discriminate].
    injection Ha as ->. f_equal. by apply IH.
Qed.

Lemma omap_lookup_seq {A} (x : list A) :
  forall pre : list A,
    omap (fun i => (pre ++ x) !! i) (seq (length pre) (length x)) = x.
Proof.
  induction x as [|a x IH]; intros pre; [done|].
  cbn [length seq omap list_omap]. rewrite list_lookup_middle by done.
  f_equal. specialize (IH (pre ++ [a])).
  rewrite length_app, <- (assoc_L (++)) in IH. cbn in IH.
  by replace (length pre + 1)%nat with (S (length pre)) in IH by lia.
Qed.

Lemma sort_batch_ranked (k : nat) (x : list (nested k)) (len_of : nested k -> Z) :
  get_lengths_of_zero_padded_batch (mkTensor (S k) x) = Ok (len_of <$> x) ->
  exists (picked : list (nested k)) (perm rest : list nat),
    sort_batch_by_length (mkTensor (S k) x) = Ok (mkTensor (S k) picked, perm, rest)
    /\ perm ≡ₚ seq 0 (length x)
    /\ picked ≡ₚ x
    /\ (forall j i : nat, perm !! j = Some i -> picked !! j = x !! i)
    /\ Sorted (flip Z.le) (len_of <$> picked).
Proof.
  intros Hlens. unfold sort_batch_by_length. rewrite Hlens, result_bind_Ok.
  set (lengths := len_of <$> x).
  assert (length lengths = length x) as Hll by apply length_fmap.
  set (s := merge_sort (key_le true) (zip lengths (seq 0 (length lengths)))).
  assert ((torch_sort true lengths).2 = s.*2) as Hperm_eq by reflexivity.
  pose proof (torch_sort_indices_perm true lengths) as Hperm.
  rewrite Hll in Hperm.
  destruct (select_rows_ok x (torch_sort true lengths).2)
    as (picked & Hrun & Hplen & Hlook).
  { apply Forall_forall. intros i Hi. rewrite Hperm in Hi.
    apply elem_of_seq in Hi. lia. }
  rewrite index_select0_ranked, Hrun, !result_bind_Ok.
  eexists picked, _, _. split; [reflexivity|]. split; [exact Hperm|].
  split; [|split; [exact Hlook|]].
  - rewrite (select_rows_omap x _ picked Hrun), Hperm.
    pose proof (omap_lookup_seq x []) as Hall. cbn [app length] in Hall.
    by rewrite Hall.
  - replace (len_of <$> picked) with (s.*1).
    { apply (Sorted_fmap fst (key_le true) (flip Z.le)); [|apply Sorted_merge_sort; apply _].
      intros p q Hpq. exact Hpq. }
    apply list_eq. intros j. rewrite !list_lookup_fmap.
    destruct (s !! j) as [[a i]|] eqn:Hj.
    + assert ((a, i) ∈ zip lengths (seq 0 (length lengths))) as Hin.
      { rewrite <- (merge_sort_Permutation (key_le true)). fold s.
        apply list_elem_of_lookup. eauto. }
      apply list_elem_of_lookup in Hin as [m Hm].
      apply lookup_zip_Some in Hm as [Ha Hi].
      apply lookup_seq in Hi as [-> _]. cbn in Ha.
      unfold lengths in Ha. apply list_lookup_fmap_Some in Ha as (r & -> & Hr).
      rewrite (Hlook j m); [by rewrite Hr|].
      rewrite Hperm_eq, list_lookup_fmap, Hj. done.
    + apply lookup_ge_None in Hj.
      assert (length s = length picked) as Hs.
      { rewrite Hplen, Hperm_eq, length_fmap. done. }
      rewrite (proj2 (lookup_ge_None picked j)) by lia. done.
Qed.

(** X15: [sort_batch_by_length] reorders the sequences and loses none:
    the permutation index is a rearrangement of [0 .. n-1], row [j] of the
    sorted batch is row [permutation_index[j]] of the batch, the sorted
    batch is a rearrangement of the batch, and its inferred lengths are in
    decreasing order. *)
Theorem X15_sorted_batch_is_sorted :
  (forall batch : list (list Z),
     exists (sorted_batch : list (list Z)) (perm rest : list nat) (lengths : list Z),
       sort_batch_by_length (mkTensor 2 batch) = Ok (mkTensor 2 sorted_batch, perm, rest)
       /\ perm ≡ₚ seq 0 (length batch)
       /\ sorted_batch ≡ₚ batch
       /\ (forall j i : nat, perm !! j = Some i -> sorted_batch !! j = batch !! i)
       /\ get_lengths_of_zero_padded_batch (mkTensor 2 sorted_batch) = Ok lengths
       /\ Sorted (flip Z.le) lengths)
  /\ (forall batch : list (list (list Z)),
        exists (sorted_batch : list (list (list Z))) (perm rest : list nat)
               (lengths : list Z),
          sort_batch_by_length (mkTensor 3 batch) = Ok (mkTensor 3 sorted_batch, perm, rest)
          /\ perm ≡ₚ seq 0 (length batch)
          /\ sorted_batch ≡ₚ batch
          /\ (forall j i : nat, perm !! j = Some i -> sorted_batch !! j = batch !! i)
          /\ get_lengths_of_zero_padded_batch (mkTensor 3 sorted_batch) = Ok lengths
          /\ Sorted (flip Z.le) lengths).
Proof.
  split; intros batch.
  - destruct (sort_batch_ranked 1 batch positive_count (get_lengths_2d batch))
      as (picked & perm & rest & Hrun & Hperm & Hp & Hlook & Hsorted).
    exists picked, perm, rest, (positive_count <$> picked).
    repeat split; try done. apply get_lengths_2d.
  - destruct (sort_batch_ranked 2 batch nonzero_steps (get_lengths_3d batch))
      as (picked & perm & rest & Hrun & Hperm & Hp & Hlook & Hsorted).
    exists picked, perm, rest, (nonzero_steps <$> picked).
    repeat split; try done. apply get_lengths_3d.
Qed.

(** ** pack_inputs and unpack_outputs *)

Lemma sorted_decreasing_cons (a : Z) (rest : list Z) :
  sorted_decreasing (a :: rest) = true ->
  Forall (fun x => x <= a) rest /\ sorted_decreasing rest = true.
Proof.
  revert a. induction rest as [|b rest IH]; intros a Hs; [by split|].
  cbn [sorted_decreasing] in Hs. apply andb_true_iff in Hs as [Hba Hs].
  apply Z.leb_le in Hba. destruct (IH b Hs) as [Hall Hrest].
  split; [|exact Hs]. apply Forall_cons. split; [done|].
  eapply Forall_impl; [exact Hall|]. intros x Hx. cbv beta in Hx. lia.
Qed.

Lemma batch_size_at_none (lengths : list Z) (t : nat) :
  Forall (fun x => x <= Z.of_nat t) lengths -> batch_size_at lengths t = O.
Proof.
  unfold batch_size_at. induction 1 as [|x l Hx Hl IH]; [done|].
  rewrite filter_cons, decide_False by lia. exact IH.
Qed.

(** In a batch sorted by decreasing length, the sequences still running at
    timestep [t] are the first ones. *)
Lemma running_iff (lengths : list Z) :
  sorted_decreasing lengths = true ->
  forall (b : nat) (l : Z) (t : nat),
    lengths !! b = Some l ->
    (b < batch_size_at lengths t)%nat <-> Z.of_nat t < l.
Proof.
  induction lengths as [|a rest IH]; intros Hs b l t Hb; [done|].
  destruct (sorted_decreasing_cons a rest Hs) as [Hall Hrest].
  assert (batch_size_at (a :: rest) t
          = ((if decide (Z.of_nat t < a)%Z then 1 else 0)
             + batch_size_at rest t)%nat)
    as Hsize.
  { unfold batch_size_at. rewrite filter_cons.
    by destruct (decide (Z.of_nat t < a)). }
  rewrite Hsize. destruct (decide (Z.of_nat t < a)) as [Hta|Hta].
  - destruct b as [|b]; [injection Hb as <-; split; [done|lia]|].
    change (rest !! b = Some l) in Hb.
    pose proof (IH Hrest b l t Hb) as IHb. lia.
  - rewrite batch_size_at_none.
    2: { eapply Forall_impl; [exact Hall|]. intros x Hx. cbv beta in Hx. lia. }
    split; [lia|]. intros Htl. destruct b as [|b]; [injection Hb as <-; lia|].
    change (rest !! b = Some l) in Hb.
    apply list_elem_of_lookup_2 in Hb. rewrite Forall_forall in Hall.
    specialize (Hall l Hb). lia.
Qed.

Lemma lookup_concat_block {A} (blocks : list (list A)) :
  forall (pre : list A) (t off : nat) (blk : list A) (b : nat),
    offsets_from (length pre) (length <$> blocks) !! t = Some off ->
    blocks !! t = Some blk ->
    (b < length blk)%nat ->
    (pre ++ concat blocks) !! (off + b)%nat = blk !! b.
Proof.
  induction blocks as [|blk0 blocks IH]; intros pre t off blk b Hoff Hblk Hb; [done|].
  cbn [fmap list_fmap offsets_from concat] in *. destruct t as [|t].
  - injection Hoff as <-. injection Hblk as <-.
    rewrite lookup_app_r by lia.
    replace (length pre + b - length pre)%nat with b by lia.
    by rewrite lookup_app_l.
  - cbn in Hoff, Hblk. rewrite (assoc_L (++)).
    apply (IH (pre ++ blk0) t off blk b); [|done|done].
    by rewrite length_app.
Qed.

Lemma lookups_omap {A} (t : nat) (l : list (list A)) :
  Forall (fun row : list A => is_Some (row !! t)) l ->
  result_mapM (fun row : list A => lookup_or_err row t) l
  = Ok (omap (fun row : list A => row !! t) l)
  /\ length (omap (fun row : list A => row !! t) l) = length l
  /\ forall (b : nat) (row : list A),
       l !! b = Some row -> omap (fun row : list A => row !! t) l !! b = row !! t.
Proof.
  induction 1 as [|row l [v Hv] Hl (IH1 & IH2 & IH3)]; [done|].
  cbn [result_mapM omap list_omap].
  rewrite (lookup_or_err_Some row t v Hv), result_bind_Ok, IH1, result_bind_Ok, Hv.
  split; [done|]. split; [cbn; by rewrite IH2|].
  intros [|b] row' Hb; cbn in *; [by injection Hb as <-|by apply IH3].
Qed.

Lemma filter_seq_above (n : Z) (m : nat) :
  forall j : nat,
    n <= Z.of_nat j -> filter (fun t : nat => Z.of_nat t < n) (seq j m) = [].
Proof.
  induction m as [|m IH]; intros j Hj; [done|].
  cbn [seq]. rewrite filter_cons, decide_False by lia. apply IH. lia.
Qed.

Lemma count_below (n : Z) (T : nat) :
  length (filter (fun t : nat => Z.of_nat t < n) (seq 0 T)) = Nat.min (Z.to_nat n) T.
Proof.
  set (k := Nat.min (Z.to_nat n) T).
  replace T with (k + (T - k))%nat at 1 by lia.
  rewrite seq_app, filter_app, length_app.
  rewrite filter_all by (apply Forall_forall; intros t Ht; apply elem_of_seq in Ht; lia).
  rewrite length_seq.
  destruct (T - k)%nat as [|d] eqn:Hd; [cbn; lia|].
  rewrite filter_seq_above by lia. cbn. lia.
Qed.

Lemma length_offsets_from (sizes : list nat) :
  forall acc : nat, length (offsets_from acc sizes) = length sizes.
Proof. induction sizes as [|n sizes IH]; intros acc; cbn; [done|by rewrite IH]. Qed.

Lemma sorted_head_bound (lengths : list Z) (longest : Z) (b : nat) (l : Z) :
  head lengths = Some longest -> sorted_decreasing lengths = true ->
  lengths !! b = Some l -> l <= longest.
Proof.
  intros Hhead Hsorted Hb. destruct lengths as [|l0 rest]; [done|].
  injection Hhead as ->. destruct b as [|b]; [injection Hb as <-; lia|].
  destruct (sorted_decreasing_cons longest rest Hsorted) as [Hall _].
  rewrite Forall_forall in Hall. apply Hall.
  change (rest !! b = Some l) in Hb. by eapply list_elem_of_lookup_2.
Qed.

Section PackRoundTrip.
Context {A : Type}.
Variable input : list (list A).
Variable lengths : list Z.
Variable longest : Z.
Hypothesis Hsame : length lengths = length input.
Hypothesis Hhead : head lengths = Some longest.
Hypothesis Hpos : Forall (fun l => 0 < l) lengths.
Hypothesis Hsorted : sorted_decreasing lengths = true.
Hypothesis Hfit : forall (b : nat) (row : list A) (l : Z),
  input !! b = Some row -> lengths !! b = Some l -> l <= Z.of_nat (length row).

Let steps : list nat := seq 0 (Z.to_nat longest).
Let block (t : nat) : list A :=
  omap (fun row : list A => row !! t) (take (batch_size_at lengths t) input).

Lemma block_rows (t : nat) :
  Forall (fun row : list A => is_Some (row !! t))
         (take (batch_size_at lengths t) input).
Proof.
  apply Forall_lookup. intros b row Hb.
  apply lookup_take_Some in Hb as [Hrow Hlt].
  destruct (lookup_lt_is_Some_2 lengths b) as [l Hl].
  { rewrite Hsame. by eapply lookup_lt_Some. }
  apply (running_iff lengths Hsorted b l t Hl) in Hlt.
  apply lookup_lt_is_Some_2. pose proof (Hfit b row l Hrow Hl). lia.
Qed.

Lemma block_length (t : nat) : length (block t) = batch_size_at lengths t.
Proof.
  unfold block. destruct (lookups_omap t _ (block_rows t)) as (_ & -> & _).
  rewrite length_take. unfold batch_size_at.
  pose proof (length_filter (fun l => Z.of_nat t < l) lengths). lia.
Qed.

Lemma block_lookup (t b : nat) (row : list A) (l : Z) :
  input !! b = Some row -> lengths !! b = Some l -> Z.of_nat t < l ->
  block t !! b = row !! t.
Proof.
  intros Hrow Hl Ht. unfold block.
  destruct (lookups_omap t _ (block_rows t)) as (_ & _ & Hlook).
  apply Hlook. apply lookup_take_Some. split; [done|].
  by apply (running_iff lengths Hsorted b l t Hl).
Qed.

Lemma pack_padded_sequence_ok :
  pack_padded_sequence input lengths
  = Ok (mkPacked (concat (block <$> steps)) (batch_size_at lengths <$> steps)).
Proof.
  unfold pack_padded_sequence. rewrite bool_decide_true by done. cbn [negb].
  replace (forallb (fun l => 0 <? l) lengths) with true.
  2: { symmetry. apply forallb_forall. intros l Hin. apply Z.ltb_lt.
       pose proof Hpos as Hp. rewrite Forall_forall in Hp. apply Hp.
       by apply list_elem_of_In. }
  rewrite Hsorted. cbn [negb].
  pose proof Hhead as Hh. apply head_Some in Hh as [rest Hl].
  assert (forall (X : Type) (e : X) (k : Z -> X),
            match lengths with [] => e | l0 :: _ => k l0 end = k longest) as Hmatch
    by (intros X e k; by rewrite Hl).
  rewrite Hmatch.
  rewrite (result_mapM_ok _ block); [by rewrite result_bind_Ok|].
  intros t _. exact (proj1 (lookups_omap t _ (block_rows t))).
Qed.

Lemma longest_bounds (b : nat) (l : Z) : lengths !! b = Some l -> 0 < l <= longest.
Proof.
  intros Hb. split.
  - pose proof Hpos as Hp. rewrite Forall_forall in Hp. apply Hp.
    by eapply list_elem_of_lookup_2.
  - by apply (sorted_head_bound lengths longest b l).
Qed.

Lemma running_count (b : nat) (l : Z) :
  lengths !! b = Some l ->
  forall (m j : nat),
    length (filter (fun n : nat => (b < n)%nat) (batch_size_at lengths <$> seq j m))
    = length (filter (fun t : nat => Z.of_nat t < l) (seq j m)).
Proof.
  intros Hb. induction m as [|m IH]; intros j; [done|].
  cbn [seq fmap list_fmap]. rewrite !filter_cons.
  pose proof (running_iff lengths Hsorted b l j Hb) as Hiff.
  destruct (decide (b < batch_size_at lengths j)%nat),
           (decide (Z.of_nat j < l)); cbn [length]; rewrite ?IH; tauto || done.
Qed.

Lemma pad_packed_sequence_after_pack (pad : A) :
  pad_packed_sequence pad
    (mkPacked (concat (block <$> steps)) (batch_size_at lengths <$> steps))
  = Ok (zip_with (fun (row : list A) (l : Z) =>
                    take (Z.to_nat l) row
                      ++ replicate (Z.to_nat longest - Z.to_nat l) pad)
                 input lengths,
        lengths).
Proof.
  unfold pad_packed_sequence. cbn [batch_sizes data].
  set (T := Z.to_nat longest). set (sizes := batch_size_at lengths <$> steps).
  assert (1 <= T)%nat as HT.
  { pose proof Hhead as Hh. rewrite head_lookup in Hh.
    pose proof (longest_bounds 0 longest Hh). unfold T. lia. }
  assert (sizes = length <$> (block <$> steps)) as Hsizes.
  { unfold sizes. rewrite <- list_fmap_compose. apply list_fmap_ext.
    intros _ t _. unfold compose. by rewrite block_length. }
  assert (batch_size_at lengths 0 = length lengths) as Hfirst.
  { unfold batch_size_at. rewrite filter_all; [done|].
    eapply Forall_impl; [exact Hpos|]. intros l Hl. cbv beta in Hl. lia. }
  assert (exists tail, sizes = length lengths :: tail) as [tail Htail].
  { unfold sizes, steps. fold T. destruct T as [|T']; [lia|].
    cbn [seq fmap list_fmap]. rewrite Hfirst. eauto. }
  rewrite Htail. rewrite <- Htail.
  set (expected := zip_with (fun (row : list A) (l : Z) =>
                    take (Z.to_nat l) row ++ replicate (T - Z.to_nat l) pad)
                 input lengths).
  rewrite (result_mapM_pointwise _ (seq 0 (length lengths)) expected).
  - rewrite result_bind_Ok. f_equal. f_equal.
    apply list_eq. intros b. rewrite list_lookup_fmap.
    destruct (lengths !! b) as [l|] eqn:Hb.
    + rewrite lookup_seq_lt by (by eapply lookup_lt_Some). cbn.
      f_equal. unfold sizes, steps. rewrite (running_count b l Hb), count_below.
      pose proof (longest_bounds b l Hb). lia.
    + apply lookup_ge_None in Hb. by rewrite lookup_seq_ge by lia.
  - unfold expected. rewrite length_zip_with, length_seq. lia.
  - intros i b y Hi Hy. apply lookup_seq in Hi as [Hbi Hi].
    cbn in Hbi. subst i. unfold expected in Hy.
    apply lookup_zip_with_Some in Hy as (row & l & -> & Hrow & Hl).
    pose proof (longest_bounds b l Hl) as Hbound.
    pose proof (Hfit b row l Hrow Hl) as Hrowlen.
    apply result_mapM_pointwise.
    + rewrite length_zip, length_offsets_from, Nat.min_id.
      rewrite length_app, length_take, length_replicate.
      unfold sizes, steps. rewrite length_fmap, length_seq. fold T. lia.
    + intros t [off n] v Hp Hv. apply lookup_zip_Some in Hp as [Hoff Hn].
      cbn [fst snd] in *.
      assert (n = batch_size_at lengths t /\ (t < T)%nat) as [-> Ht].
      { unfold sizes, steps in Hn. apply list_lookup_fmap_Some in Hn as (t' & -> & Ht').
        apply lookup_seq in Ht' as [Heq Ht']. cbn in Heq. by subst t'. }
      pose proof (running_iff lengths Hsorted b l t Hl) as Hrun.
      destruct (decide (Z.of_nat t < l)) as [Htl|Htl].
      * replace (b <? batch_size_at lengths t)%nat with true
          by (symmetry; apply Nat.ltb_lt; tauto).
        rewrite lookup_app_l in Hv by (rewrite length_take; lia).
        rewrite lookup_take_lt in Hv by lia.
        apply lookup_or_err_Some.
        rewrite Hsizes in Hoff.
        rewrite <- Hv, <- (block_lookup t b row l Hrow Hl Htl).
        apply (lookup_concat_block (block <$> steps) [] t off (block t) b Hoff).
        -- unfold steps. by rewrite list_lookup_fmap, lookup_seq_lt by done.
        -- rewrite block_length. tauto.
      * replace (b <? batch_size_at lengths t)%nat with false
          by (symmetry; apply Nat.ltb_ge; lia).
        rewrite lookup_app_r in Hv by (rewrite length_take; lia).
        apply lookup_replicate in Hv as [-> _]. done.
Qed.
End PackRoundTrip.

Lemma pack_inputs_2d (rows : list (list Z)) :
  pack_inputs (k := 0) rows = pack_padded_sequence rows (positive_count <$> rows).
Proof. unfold pack_inputs. by rewrite get_lengths_2d, result_bind_Ok. Qed.

Lemma zip_with_fmap_same {A B C D} (f : B -> C -> D) (g : A -> B) (h : A -> C)
    (l : list A) :
  zip_with f (g <$> l) (h <$> l) = (fun x => f (g x) (h x)) <$> l.
Proof. induction l as [|x l IH]; [done|]. cbn. by rewrite IH. Qed.

(** X16: take a 2D batch whose rows are a non-empty run of positive entries
    followed by zeros, sorted by decreasing length.  Packing it and
    unpacking the result gives each row back, cut or zero-filled to the
    longest length, together with the mask of ones over the positive
    entries; when every row already has the longest length as its width,
    the batch itself comes back. *)
Theorem X16_pack_then_unpack (parts : list (list Z * nat)) (first : list Z * nat) :
  head parts = Some first ->
  Forall (fun p : list Z * nat => p.1 <> [] /\ Forall (fun v => 0 < v) p.1) parts ->
  sorted_decreasing ((fun p : list Z * nat => Z.of_nat (length p.1)) <$> parts) = true ->
  exists packed : PackedSequence Z,
    pack_inputs (k := 0) ((fun p : list Z * nat => p.1 ++ replicate p.2 0) <$> parts)
    = Ok packed
    /\ unpack_outputs 0 packed false
       = Ok ((fun p : list Z * nat =>
                p.1 ++ replicate (length first.1 - length p.1) 0) <$> parts,
             Some ((fun p : list Z * nat =>
                      replicate (length p.1) 1
                        ++ replicate (length first.1 - length p.1) 0) <$> parts))
    /\ (Forall (fun p : list Z * nat => (length p.1 + p.2)%nat = length first.1) parts ->
        unpack_outputs 0 packed true
        = Ok ((fun p : list Z * nat => p.1 ++ replicate p.2 0) <$> parts, None)).
Proof.
  intros Hhead Hparts Hsorted.
  set (rows := (fun p : list Z * nat => p.1 ++ replicate p.2 0) <$> parts).
  set (lengths := (fun p : list Z * nat => Z.of_nat (length p.1)) <$> parts).
  set (T := length first.1).
  assert (positive_count <$> rows = lengths) as Hlens.
  { unfold rows, lengths. rewrite <- list_fmap_compose.
    apply Forall_fmap_ext_1. eapply Forall_impl; [exact Hparts|].
    intros [valid k] [_ Hvalid]. cbn in *.
    rewrite positive_count_app, positive_count_all by done.
    rewrite positive_count_none; [lia|]. apply Forall_replicate. lia. }
  assert (length lengths = length rows) as Hsame
    by (unfold lengths, rows; by rewrite !length_fmap).
  assert (head lengths = Some (Z.of_nat T)) as Hh.
  { apply head_Some in Hhead as [rest ->]. reflexivity. }
  assert (Forall (fun l => 0 < l) lengths) as Hpos.
  { unfold lengths. apply Forall_fmap. eapply Forall_impl; [exact Hparts|].
    intros [valid k] [Hne _]. unfold compose. cbn in *.
    destruct valid; [done|cbn; lia]. }
  assert (forall (b : nat) (row : list Z) (l : Z),
            rows !! b = Some row -> lengths !! b = Some l ->
            l <= Z.of_nat (length row)) as Hfit.
  { intros b row l Hrow Hl. unfold rows in Hrow. unfold lengths in Hl.
    apply list_lookup_fmap_Some in Hrow as (p & -> & Hp).
    apply list_lookup_fmap_Some in Hl as (p' & -> & Hp').
    rewrite Hp in Hp'. injection Hp' as <-. rewrite length_app. lia. }
  assert (forall p : list Z * nat,
            p ∈ parts -> (length p.1 <= T)%nat) as Hle.
  { intros p Hp. apply list_elem_of_lookup in Hp as [b Hb].
    assert (lengths !! b = Some (Z.of_nat (length p.1))) as Hl
      by (unfold lengths; by rewrite list_lookup_fmap, Hb).
    pose proof (sorted_head_bound lengths (Z.of_nat T) b _ Hh Hsorted Hl). lia. }
  eexists. split.
  { rewrite pack_inputs_2d. fold rows. rewrite Hlens.
    exact (pack_padded_sequence_ok rows lengths (Z.of_nat T)
             Hsame Hh Hpos Hsorted Hfit). }
  pose proof (pad_packed_sequence_after_pack rows lengths (Z.of_nat T)
                Hsame Hh Hpos Hsorted Hfit 0) as Hpad.
  assert (zip_with (fun (row : list Z) (l : Z) =>
                      take (Z.to_nat l) row
                        ++ replicate (Z.to_nat (Z.of_nat T) - Z.to_nat l) 0)
                   rows lengths
          = (fun p : list Z * nat => p.1 ++ replicate (T - length p.1) 0) <$> parts)
    as Hdense.
  { unfold rows, lengths. rewrite zip_with_fmap_same.
    apply list_fmap_ext. intros _ p _. cbn beta.
    rewrite !Nat2Z.id. by rewrite take_app_length. }
  rewrite Hdense in Hpad.
  split.
  - unfold unpack_outputs. rewrite Hpad, result_bind_Ok. cbn [fst snd].
    rewrite generate_mask_from_lengths_eq.
    + rewrite result_bind_Ok. do 3 f_equal. unfold lengths.
      rewrite <- list_fmap_compose. apply Forall_fmap_ext_1, Forall_forall.
      intros p Hp. unfold compose.
      apply head_Some in Hhead as [rest Hparts_eq].
      assert (match (fun p0 : list Z * nat =>
                       p0.1 ++ replicate (T - length p0.1) 0) <$> parts with
              | [] => O
              | r :: _ => length r
              end = T) as ->.
      { rewrite Hparts_eq. cbn [fmap list_fmap]. rewrite length_app, length_replicate.
        unfold T. lia. }
      rewrite Nat2Z.id, mask_row_eq, Nat2Z.id.
      pose proof (Hle p Hp). by replace (Nat.min (length p.1) T) with (length p.1) by lia.
    + lia.
    + unfold lengths. by rewrite !length_fmap.
  - intros Hrect. unfold unpack_outputs. rewrite Hpad, result_bind_Ok. cbn [fst snd].
    do 2 f_equal. apply Forall_fmap_ext_1. eapply Forall_impl; [exact Hrect|].
    intros p Hp. cbv beta in Hp. do 2 f_equal. unfold T. lia.
Qed.

Lemma X16_pack_then_unpack_witness :
  exists packed : PackedSequence Z,
    pack_inputs (k := 0) [[4; 5; 6]; [7; 8; 0]; [9; 0; 0]] = Ok packed
    /\ data packed = [4; 7; 9; 5; 8; 6]
    /\ unpack_outputs 0 packed false
       = Ok ([[4; 5; 6]; [7; 8; 0]; [9; 0; 0]],
             Some [[1; 1; 1]; [1; 1; 0]; [1; 0; 0]]).
Proof.
  destruct (X16_pack_then_unpack
              [([4; 5; 6], 0%nat); ([7; 8], 1%nat); ([9], 2%nat)] ([4; 5; 6], 0%nat))
    as (packed & Hpack & Hunpack & _).
  - reflexivity.
  - repeat constructor; (discriminate || lia).
  - reflexivity.
  - exists packed. split; [exact Hpack|]. split; [|exact Hunpack].
    vm_compute in Hpack. by injection Hpack as <-.
Defined.

Lemma all_lengths_positive (rows : list (list Z)) :
  forallb (fun l => 0 <? l) (positive_count <$> rows) = true
  <-> Forall (fun row : list Z => Exists (fun v => 0 < v) row) rows.
Proof.
  rewrite forallb_forall, Forall_forall. split.
  - intros H row Hrow. apply positive_count_pos, Z.ltb_lt, H.
    apply list_elem_of_In. by apply list_elem_of_fmap_2.
  - intros H l Hl. apply list_elem_of_In, list_elem_of_fmap in Hl as (row & -> & Hrow).
    apply Z.ltb_lt, positive_count_pos. by apply H.
Qed.

Lemma positive_count_le_length (row : list Z) :
  positive_count row <= Z.of_nat (length row).
Proof.
  unfold positive_count. pose proof (length_filter (fun v => 0 < v) row). lia.
Qed.

Lemma pack_inputs_2d_cases (rows : list (list Z)) :
  (rows <> []
   /\ Forall (fun row : list Z => Exists (fun v => 0 < v) row) rows
   /\ sorted_decreasing (positive_count <$> rows) = true
   /\ exists packed, pack_inputs (k := 0) rows = Ok packed)
  \/ (~ (rows <> []
         /\ Forall (fun row : list Z => Exists (fun v => 0 < v) row) rows
         /\ sorted_decreasing (positive_count <$> rows) = true)
      /\ pack_inputs (k := 0) rows = Err Library RuntimeError).
Proof.
  rewrite pack_inputs_2d.
  destruct rows as [|row rows]; [right; split; [tauto|done]|].
  set (batch := row :: rows).
  destruct (forallb (fun l => 0 <? l) (positive_count <$> batch)) eqn:Hpos.
  - destruct (sorted_decreasing (positive_count <$> batch)) eqn:Hsorted.
    + left. split; [done|]. split; [by apply all_lengths_positive|]. split; [done|].
      eexists. apply (pack_padded_sequence_ok batch (positive_count <$> batch)
                        (positive_count row)).
      * apply length_fmap.
      * reflexivity.
      * apply Forall_forall. intros l Hl.
        rewrite forallb_forall in Hpos. apply Z.ltb_lt, Hpos.
        by apply list_elem_of_In.
      * exact Hsorted.
      * intros b r l Hr Hl. rewrite list_lookup_fmap, Hr in Hl.
        injection Hl as <-. apply positive_count_le_length.
    + right. split; [intros (_ & _ & H); congruence|].
      unfold pack_padded_sequence. rewrite bool_decide_true by apply length_fmap.
      cbn [negb fmap list_fmap]. fold (positive_count <$> rows).
      change (positive_count row :: (positive_count <$> rows))
        with (positive_count <$> batch).
      by rewrite Hpos, Hsorted.
  - right. split.
    + intros (_ & H & _). apply all_lengths_positive in H. congruence.
    + unfold pack_padded_sequence. rewrite bool_decide_true by apply length_fmap.
      cbn [negb fmap list_fmap]. fold (positive_count <$> rows).
      change (positive_count row :: (positive_count <$> rows))
        with (positive_count <$> batch).
      by rewrite Hpos.
Qed.

(** X17: [pack_inputs] accepts a 2D batch exactly when the batch is not
    empty, every row has an entry above zero, and the inferred lengths are
    in decreasing order; any other batch is refused with a
    [RuntimeError] of the library. *)
Theorem X17_pack_inputs_accepts (rows : list (list Z)) :
  ((exists packed, pack_inputs (k := 0) rows = Ok packed)
   <-> rows <> []
       /\ Forall (fun row : list Z => Exists (fun v => 0 < v) row) rows
       /\ sorted_decreasing (positive_count <$> rows) = true)
  /\ ((forall packed, pack_inputs (k := 0) rows <> Ok packed)
      <-> pack_inputs (k := 0) rows = Err Library RuntimeError).
Proof.
  destruct (pack_inputs_2d_cases rows)
    as [(Hne & Hpos & Hsorted & packed & Hrun)|[Hnot Hrun]]; rewrite Hrun.
  - split; [split; [done|eauto]|]. split; [|discriminate].
    intros H. by destruct (H packed).
  - split; [split; [intros [p H]; discriminate H | intros H; by destruct Hnot]|].
    split; [done|]. intros _ p H. discriminate H.
Qed.

Lemma Sorted_sorted_decreasing (lengths : list Z) :
  Sorted (flip Z.le) lengths -> sorted_decreasing lengths = true.
Proof.
  induction 1 as [|a rest Hrest IH Hhd]; [done|].
  cbn [sorted_decreasing]. destruct rest as [|b rest]; [done|].
  apply andb_true_iff. split; [|exact IH].
  apply Z.leb_le. inversion Hhd as [|? ? Hab]; subst. exact Hab.
Qed.

(** X18: the sorted batch of [sort_batch_by_length] is always accepted by
    [pack_inputs], provided the 2D batch is not empty and none of its rows
    is all padding. *)
Theorem X18_sorted_batch_can_be_packed (batch : list (list Z)) :
  batch <> [] ->
  Forall (fun row : list Z => Exists (fun v => 0 < v) row) batch ->
  exists (sorted_batch : list (list Z)) (perm rest : list nat)
         (packed : PackedSequence Z),
    sort_batch_by_length (mkTensor 2 batch) = Ok (mkTensor 2 sorted_batch, perm, rest)
    /\ pack_inputs (k := 0) sorted_batch = Ok packed.
Proof.
  intros Hne Hpos.
  destruct (sort_batch_ranked 1 batch positive_count (get_lengths_2d batch))
    as (picked & perm & rest & Hrun & _ & Hperm & _ & Hsorted).
  destruct (pack_inputs_2d_cases picked)
    as [(_ & _ & _ & packed & Hpack)|[Hnot _]].
  - exists picked, perm, rest, packed. done.
  - destruct Hnot. split; [|split].
    + intros ->. apply Permutation_nil_l in Hperm. done.
    + by rewrite Hperm.
    + by apply Sorted_sorted_decreasing.
Qed.

Lemma X18_sorted_batch_can_be_packed_witness :
  exists (sorted_batch : list (list Z)) (perm rest : list nat)
         (packed : PackedSequence Z),
    sort_batch_by_length (mkTensor 2 [[9; 0; 0]; [4; 5; 6]; [7; 8; 0]])
    = Ok (mkTensor 2 sorted_batch, perm, rest)
    /\ pack_inputs (k := 0) sorted_batch = Ok packed.
Proof.
  apply (X18_sorted_batch_can_be_packed [[9; 0; 0]; [4; 5; 6]; [7; 8; 0]]).
  - discriminate.
  - apply (bool_decide_unpack _). vm_compute. exact I.
Defined.

(** ** cache_char_cnn_vocab: what the matrix depends on *)

Section EncoderMatrix.
Variable V : Type.
Variable char_cnn_row : list Z -> V.
Variable vzero : V.

(** The matrix in closed form: the encoder on the row of every entry, with
    the first two rows replaced by its outputs on the boundary rows. *)
Lemma cache_char_cnn_vocab_eq (vocab : list (list Z)) (filters : list (Z * Z))
    (w batch_size widest : Z) (bos eos : list Z) :
  (2 <= length vocab)%nat -> 1 <= batch_size -> 1 <= w ->
  py_max (filters.*1) = Ok widest ->
  make_bos (widest + 3) = Ok bos -> make_eos (widest + 3) = Ok eos ->
  cache_char_cnn_vocab V char_cnn_row vzero vocab filters w batch_size
  = Ok (<[1%nat := char_cnn_row eos]>
          (<[O := char_cnn_row bos]>
             ((fun word => char_cnn_row (token_row w word)) <$> vocab))).
Proof.
  intros Hn Hb Hw Hmax Hbos Heos.
  set (n := Z.of_nat (length vocab)).
  set (count := Z.to_nat ((n + batch_size - 1) / batch_size)).
  set (starts := (fun k : nat => Z.of_nat k * batch_size) <$> seq 0 count).
  destruct (chunk_count_covers n batch_size ltac:(lia) Hb) as (Hc1 & Hc2 & Hc3).
  fold count in Hc1, Hc2, Hc3.
  assert (Forall (fun s => py_slice vocab s (s + batch_size) <> []) starts) as Hne.
  { apply Forall_fmap, Forall_forall. intros k Hk. unfold compose.
    apply elem_of_seq in Hk. rewrite py_slice_chunk by done.
    intros Hnil. apply (f_equal length) in Hnil.
    rewrite length_take, length_drop in Hnil. cbn in Hnil. unfold n in *. nia. }
  assert (concat (vocab_chunks vocab batch_size starts) = vocab) as Hcat.
  { unfold vocab_chunks, starts. rewrite <- list_fmap_compose.
    etransitivity;
      [|apply (concat_chunks (Z.to_nat batch_size) ltac:(lia) count vocab);
        unfold n in *; nia].
    f_equal. apply list_fmap_ext. intros _ k _. cbn.
    by apply py_slice_chunk. }
  assert (vocab_chunks vocab batch_size starts <> []) as Hsome.
  { intros Hnil. rewrite Hnil in Hcat. cbn in Hcat. rewrite <- Hcat in Hn.
    cbn in Hn. lia. }
  assert (1 <= widest + 3) as Hwide.
  { destruct (Z.le_gt_cases (widest + 3) 0) as [Hle|]; [|lia].
    unfold make_bos, make_padded_char_ids_default in Hbos.
    rewrite make_padded_char_ids_nonpositive in Hbos by done. discriminate. }
  destruct (get_bos_eos_token_repr_ok V char_cnn_row filters widest Hmax Hwide)
    as (bos' & eos' & Hbos' & Heos' & Hrepr).
  rewrite Hbos in Hbos'. injection Hbos' as <-.
  rewrite Heos in Heos'. injection Heos' as <-.
  unfold cache_char_cnn_vocab. fold n.
  rewrite py_range_chunk_starts, result_bind_Ok by done. fold count. fold starts.
  rewrite (cached_chunks_ok V char_cnn_row vzero vocab w batch_size starts Hw Hne).
  rewrite result_bind_Ok.
  rewrite torch_cat_ok by (by destruct (vocab_chunks vocab batch_size starts)).
  rewrite concat_fmap_fmap, Hcat, result_bind_Ok, Hrepr, result_bind_Ok.
  cbn [fst snd].
  rewrite py_setitem_0, result_bind_Ok by (rewrite length_fmap; lia).
  apply py_setitem_1. rewrite length_insert, length_fmap. lia.
Qed.

(** X19: for an encoder that treats each row of its input on its own, as
    [char_cnn] does here ([char_cnn_row] applied to every row of the chunk,
    whatever rows come with it), the chunk size does not show in the
    result.  With at least two entries and a token width of at least one,
    two runs of [cache_char_cnn_vocab] that differ only in their
    [batch_size] (each at least one) return the same matrix; so a run in
    chunks equals the run with the whole vocabulary as a single chunk. *)
Theorem X19_chunk_size_is_invisible (vocab : list (list Z)) (filters : list (Z * Z))
    (max_characters_per_token batch_size1 batch_size2 widest : Z) :
  (2 <= length vocab)%nat ->
  1 <= batch_size1 ->
  1 <= batch_size2 ->
  1 <= max_characters_per_token ->
  py_max (filters.*1) = Ok widest ->
  1 <= widest + 3 ->
  cache_char_cnn_vocab V char_cnn_row vzero vocab filters
    max_characters_per_token batch_size1
  = cache_char_cnn_vocab V char_cnn_row vzero vocab filters
      max_characters_per_token batch_size2
  /\ exists matrix : list V,
       cache_char_cnn_vocab V char_cnn_row vzero vocab filters
         max_characters_per_token batch_size1 = Ok matrix.
Proof.
  intros Hn Hb1 Hb2 Hw Hmax Hwide.
  destruct (get_bos_eos_token_repr_ok V char_cnn_row filters widest Hmax Hwide)
    as (bos & eos & Hbos & Heos & _).
  rewrite (cache_char_cnn_vocab_eq vocab filters max_characters_per_token
             batch_size1 widest bos eos) by done.
  rewrite (cache_char_cnn_vocab_eq vocab filters max_characters_per_token
             batch_size2 widest bos eos) by done.
  split; [done|eauto].
Qed.

(** X20: the first two vocabulary entries do not show in the result: their
    rows are replaced by the boundary rows, so two vocabularies that agree
    from the third entry on give the same matrix, and rows 0 and 1 of the
    matrix depend on the encoder and its filters only. *)
Theorem X20_first_two_entries_are_replaced (a b a' b' : list Z)
    (rest : list (list Z)) (filters : list (Z * Z))
    (max_characters_per_token batch_size widest : Z) :
  1 <= batch_size ->
  1 <= max_characters_per_token ->
  py_max (filters.*1) = Ok widest ->
  1 <= widest + 3 ->
  cache_char_cnn_vocab V char_cnn_row vzero (a :: b :: rest) filters
    max_characters_per_token batch_size
  = cache_char_cnn_vocab V char_cnn_row vzero (a' :: b' :: rest) filters
      max_characters_per_token batch_size
  /\ exists (bos eos : list Z),
       make_bos (widest + 3) = Ok bos
       /\ make_eos (widest + 3) = Ok eos
       /\ cache_char_cnn_vocab V char_cnn_row vzero (a :: b :: rest) filters
            max_characters_per_token batch_size
          = Ok (char_cnn_row bos :: char_cnn_row eos
                  :: ((fun word => char_cnn_row (token_row max_characters_per_token word))
                        <$> rest)).
Proof.
  intros Hb Hw Hmax Hwide.
  destruct (get_bos_eos_token_repr_ok V char_cnn_row filters widest Hmax Hwide)
    as (bos & eos & Hbos & Heos & _).
  rewrite (cache_char_cnn_vocab_eq (a :: b :: rest) filters max_characters_per_token
             batch_size widest bos eos) by (cbn [length]; lia || done).
  rewrite (cache_char_cnn_vocab_eq (a' :: b' :: rest) filters max_characters_per_token
             batch_size widest bos eos) by (cbn [length]; lia || done).
  split; [done|]. exists bos, eos. done.
Qed.
End EncoderMatrix.

Lemma X19_chunk_size_is_invisible_witness :
  cache_char_cnn_vocab (list Z) (fun row => row) []
    [str "<S>"%string; str "</S>"%string; str "<UNK>"%string;
     str "the"%string; str "cat"%string]
    [(1, 32); (2, 32); (3, 64)] 50 2
  = cache_char_cnn_vocab (list Z) (fun row => row) []
      [str "<S>"%string; str "</S>"%string; str "<UNK>"%string;
       str "the"%string; str "cat"%string]
      [(1, 32); (2, 32); (3, 64)] 50 256.
Proof.
  apply (X19_chunk_size_is_invisible (list Z) (fun row => row) []
           [str "<S>"%string; str "</S>"%string; str "<UNK>"%string;
            str "the"%string; str "cat"%string]
           [(1, 32); (2, 32); (3, 64)] 50 2 256 3).
  - simpl. lia.
  - lia.
  - lia.
  - lia.
  - reflexivity.
  - lia.
Defined.

Lemma X20_first_two_entries_are_replaced_witness :
  cache_char_cnn_vocab (list Z) (fun row => row) []
    [str "<S>"%string; str "</S>"%string; str "<UNK>"%string; str "the"%string]
    [(1, 32); (2, 32); (3, 64)] 50 256
  = cache_char_cnn_vocab (list Z) (fun row => row) []
      [str "a"%string; str "b"%string; str "<UNK>"%string; str "the"%string]
      [(1, 32); (2, 32); (3, 64)] 50 256.
Proof.
  apply (X20_first_two_entries_are_replaced (list Z) (fun row => row) []
           (str "<S>"%string) (str "</S>"%string) (str "a"%string) (str "b"%string)
           [str "<UNK>"%string; str "the"%string]
           [(1, 32); (2, 32); (3, 64)] 50 256 3).
  - lia.
  - lia.
  - reflexivity.
  - lia.
Defined.

(** ** load_vocab *)

Section LoadVocabFacts.
Variable isspace : Z -> bool.

Lemma py_lstrip_head (s : list Z) (c : Z) (s' : list Z) :
  py_lstrip isspace s = c :: s' -> isspace c = false.
Proof.
  induction s as [|x s IH]; cbn; [discriminate|].
  destruct (isspace x) eqn:Hx; [exact IH|]. by intros [= <- _].
Qed.

Lemma py_lstrip_suffix (s : list Z) : exists k : nat, py_lstrip isspace s = drop k s.
Proof.
  induction s as [|x s [k IH]]; [by exists O|]. cbn.
  destruct (isspace x); [by exists (S k) | by exists O].
Qed.

Lemma py_lstrip_fixed (s : list Z) :
  (forall c, head s = Some c -> isspace c = false) -> py_lstrip isspace s = s.
Proof. destruct s as [|x s]; [done|]. intros H. cbn. by rewrite (H x). Qed.

Lemma last_drop_nonempty (k : nat) (s : list Z) :
  drop k s <> [] -> last (drop k s) = last s.
Proof.
  revert s. induction k as [|k IH]; intros s Hne; [done|].
  destruct s as [|x s]; [done|]. cbn [drop] in *. rewrite IH by done.
  destruct s as [|y s]; [by rewrite drop_nil in Hne|done].
Qed.

Lemma py_strip_ends (s : list Z) (c : Z) :
  (head (py_strip isspace s) = Some c -> isspace c = false)
  /\ (last (py_strip isspace s) = Some c -> isspace c = false).
Proof.
  unfold py_strip. set (inner := py_lstrip isspace s).
  set (outer := py_lstrip isspace (reverse inner)). split.
  - rewrite head_reverse. intros Hlast.
    destruct (py_lstrip_suffix (reverse inner)) as [k Hk]. fold outer in Hk.
    assert (outer <> []) as Hne by (intros Hnil; by rewrite Hnil in Hlast).
    rewrite Hk in Hlast, Hne. rewrite last_drop_nonempty in Hlast by done.
    rewrite last_reverse in Hlast.
    destruct inner as [|x inner'] eqn:Hinner; [done|]. injection Hlast as <-.
    by apply (py_lstrip_head s x inner').
  - rewrite last_reverse. intros Hhead.
    destruct outer as [|x outer'] eqn:Houter; [done|]. injection Hhead as <-.
    by apply (py_lstrip_head (reverse inner) x outer').
Qed.

Lemma py_strip_fixed (s : list Z) :
  (forall c, head s = Some c -> isspace c = false) ->
  (forall c, last s = Some c -> isspace c = false) ->
  py_strip isspace s = s.
Proof.
  intros Hh Hl. unfold py_strip. rewrite (py_lstrip_fixed s Hh).
  rewrite py_lstrip_fixed; [apply reverse_involutive|].
  intros c Hc. rewrite head_reverse in Hc. by apply Hl.
Qed.

Lemma load_vocab_loop_eq (lines : list (list Z)) :
  forall vocab : list (list Z),
    load_vocab_loop isspace lines vocab
    = vocab ++ filter (fun word => word <> []) (py_strip isspace <$> lines).
Proof.
  induction lines as [|line lines IH]; intros vocab; cbn [load_vocab_loop].
  - cbn. by rewrite app_nil_r.
  - rewrite IH, fmap_cons, filter_cons.
    destruct (py_strip isspace line) as [|c word] eqn:Hword.
    + by rewrite decide_False by (by intros H).
    + rewrite decide_True by done. by rewrite <- (assoc_L (++)).
Qed.

Lemma load_vocab_eq (lines : list (list Z)) :
  load_vocab isspace lines
  = filter (fun word => word <> []) (py_strip isspace <$> lines).
Proof. unfold load_vocab. by rewrite load_vocab_loop_eq. Qed.

(** X21: [load_vocab] returns the stripped lines that are not empty, in
    the order of the file.  No word it returns is empty or starts or ends
    with a whitespace character; a line of whitespace only adds nothing;
    and loading the returned list again, one word per line, gives the same
    list. *)
Theorem X21_load_vocab_words (lines : list (list Z)) :
  load_vocab isspace lines
  = filter (fun word => word <> []) (py_strip isspace <$> lines)
  /\ Forall (fun word : list Z =>
               word <> []
               /\ (forall c, head word = Some c -> isspace c = false)
               /\ (forall c, last word = Some c -> isspace c = false))
            (load_vocab isspace lines)
  /\ (forall (before after : list (list Z)) (blank : list Z),
        forallb isspace blank = true ->
        load_vocab isspace (before ++ blank :: after)
        = load_vocab isspace (before ++ after))
  /\ load_vocab isspace (load_vocab isspace lines) = load_vocab isspace lines.
Proof.
  assert (Forall (fun word : list Z =>
               word <> []
               /\ (forall c, head word = Some c -> isspace c = false)
               /\ (forall c, last word = Some c -> isspace c = false))
            (load_vocab isspace lines)) as Hwords.
  { rewrite load_vocab_eq. apply Forall_forall. intros word Hword.
    apply list_elem_of_filter in Hword as [Hne Hin]. split; [done|].
    apply list_elem_of_fmap in Hin as (line & -> & _).
    split; intros c; apply py_strip_ends. }
  split; [apply load_vocab_eq|]. split; [exact Hwords|]. split.
  - intros before after blank Hblank. rewrite !load_vocab_eq.
    rewrite !fmap_app, fmap_cons, !filter_app, filter_cons. do 2 f_equal.
    assert (py_strip isspace blank = []) as ->; [|by rewrite decide_False by (by intros H)].
    unfold py_strip.
    assert (py_lstrip isspace blank = []) as ->; [|done].
    induction blank as [|c blank IH]; [done|]. cbn in *.
    apply andb_true_iff in Hblank as [-> Hblank]. by apply IH.
  - rewrite (load_vocab_eq (load_vocab isspace lines)).
    induction Hwords as [|word words (Hne & Hh & Hl) _ IH]; [done|].
    rewrite fmap_cons, filter_cons, (py_strip_fixed word Hh Hl).
    rewrite decide_True by done. by rewrite IH.
Qed.
End LoadVocabFacts.

Lemma X21_load_vocab_words_witness :
  load_vocab (fun c => bool_decide (c = 32 \/ c = 10))
    [str "<S> "%string ++ [10]; [10]; [32; 32] ++ str "the cat"%string ++ [10]]
  = [str "<S>"%string; str "the cat"%string].
Proof.
  destruct (X21_load_vocab_words (fun c => bool_decide (c = 32 \/ c = 10))
              [str "<S> "%string ++ [10]; [10];
               [32; 32] ++ str "the cat"%string ++ [10]]) as [-> _].
  vm_compute. reflexivity.
Defined.

(** ** A width of zero or less *)

Lemma token_char_ids_nonpositive (w : Z) (word : list Z) :
  w <= 0 -> token_char_ids w word = Err Library IndexError.
Proof.
  intros Hw. unfold token_char_ids.
  destruct (_WORD_TO_CHAR_IDS_EXCEPTION !! word) as [gen|] eqn:Hgen.
  - unfold _WORD_TO_CHAR_IDS_EXCEPTION in Hgen.
    apply lookup_insert_Some in Hgen as [[_ <-]|[_ Hgen]].
    { by apply make_padded_char_ids_nonpositive. }
    apply lookup_insert_Some in Hgen as [[_ <-]|[_ Hgen]].
    { by apply make_padded_char_ids_nonpositive. }
    by rewrite lookup_empty in Hgen.
  - by apply make_padded_char_ids_nonpositive.
Qed.

(** X22: [make_padded_char_ids] returns a row exactly when the width is at
    least one and otherwise ends with an [IndexError]; with a width of
    zero or less [batch_to_char_ids] therefore fails on every batch, and
    so do [make_bos] and [make_eos]. *)
Theorem X22_width_must_be_positive (max_word_length : Z) :
  (forall char_ids pad bow eow,
     (exists padded,
        make_padded_char_ids char_ids max_word_length pad bow eow = Ok padded)
     <-> 1 <= max_word_length)
  /\ (max_word_length <= 0 ->
      (forall char_ids pad bow eow,
         make_padded_char_ids char_ids max_word_length pad bow eow
         = Err Library IndexError)
      /\ make_bos max_word_length = Err Library IndexError
      /\ make_eos max_word_length = Err Library IndexError
      /\ forall batch : list (list (list Z)),
           exists e, batch_to_char_ids batch max_word_length = Err Library e).
Proof.
  split.
  - intros char_ids pad bow eow. split.
    + intros [padded Hrun]. destruct (Z.le_gt_cases max_word_length 0); [|lia].
      rewrite make_padded_char_ids_nonpositive in Hrun by done. discriminate.
    + intros Hw. rewrite make_padded_char_ids_eq by done. eauto.
  - intros Hw. split; [intros; by apply make_padded_char_ids_nonpositive|].
    split; [by apply make_padded_char_ids_nonpositive|].
    split; [by apply make_padded_char_ids_nonpositive|].
    intros batch.
    destruct (batch_to_char_ids batch max_word_length) as [t|o e] eqn:Hrun.
    2: { destruct o; [|eauto].
         pose proof (raises_only_batch_to_char_ids batch max_word_length e Hrun) as He.
         by apply elem_of_nil in He. }
    exfalso. unfold batch_to_char_ids in Hrun.
    destruct batch as [|first rest]; [discriminate|].
    cbn [py_first result_mapM] in Hrun. rewrite result_bind_Ok in Hrun.
    apply result_bind_ok in Hrun as (rows & Hrows & _).
    apply result_bind_ok in Hrows as (r0 & Hr0 & _).
    unfold char_ids_of_words in Hr0.
    apply result_bind_ok in Hr0 as (ids & Hids & Hstack).
    destruct first as [|word first].
    + cbn in Hids. injection Hids as <-. cbn in Hstack. discriminate.
    + cbn [result_mapM] in Hids.
      rewrite token_char_ids_nonpositive in Hids by done. discriminate.
Qed.

Lemma X22_width_must_be_positive_witness :
  make_bos 0 = Err Library IndexError
  /\ exists e, batch_to_char_ids [[str "the"%string]] 0 = Err Library e.
Proof.
  destruct (X22_width_must_be_positive 0) as [_ H].
  destruct (H ltac:(lia)) as (_ & Hbos & _ & Hbatch).
  split; [exact Hbos | apply Hbatch].
Defined.
